(** * GoMatchEngine: the phase-2 order engine (order.go, trade.go,
      orderbook.go, gateway.go), embedded in Rocq.

    Orders are Go pointers: the book's two heaps hold addresses into a
    store of [Order] records, so that the aliasing between a resting
    entry, a re-submitted order and the caller's pointer is the one of the
    source.  Prices are binary64 values ([spec_float], with NaN and signed
    zeros and infinities), quantities and timestamps are [int64] with
    wrap-around, identifiers are [uint64]. *)

From Stdlib Require Import ZArith Lia Bool String List SpecFloat.
From stdpp Require Import base option list gmap strings.

(** ** Results of Go calls: a value, a run-time panic, or a loop model
       that ran out of fuel. *)

Inductive result (A : Type) : Type :=
  | Ok (a : A)
  | Panic
  | OutOfFuel.
Arguments Ok {A} a.
Arguments Panic {A}.
Arguments OutOfFuel {A}.

Definition rbind {A B} (r : result A) (k : A -> result B) : result B :=
  match r with
  | Ok a => k a
  | Panic => Panic
  | OutOfFuel => OutOfFuel
  end.

Notation "'do' x <- r ; k" := (rbind r (fun x => k))
  (at level 10, x name, r at level 100, k at level 200).

(** ** Machine numbers *)

(** [int64] arithmetic wraps around. *)
Definition wrap64 (z : Z) : Z := ((z + 2 ^ 63) mod 2 ^ 64 - 2 ^ 63)%Z.
Definition add64 (a b : Z) : Z := wrap64 (a + b).
Definition sub64 (a b : Z) : Z := wrap64 (a - b).

(** [uint64] arithmetic wraps around. *)
Definition wrapU64 (z : Z) : Z := (z mod 2 ^ 64)%Z.

(** [float64]: IEEE-754 binary64.  Go's [==], [<], [<=] are the IEEE
    comparisons, false whenever an operand is NaN; [!=] is the negation of
    [==] and [a > b] is [b < a]. *)
Definition float64 := spec_float.
Definition f64_eq (a b : float64) : bool := SFeqb a b.
Definition f64_ne (a b : float64) : bool := negb (SFeqb a b).
Definition f64_lt (a b : float64) : bool := SFltb a b.
Definition f64_gt (a b : float64) : bool := SFltb b a.
Definition f64_le (a b : float64) : bool := SFleb a b.

(** The binary64 value nearest to [m * 2^e] (exact for the literals below). *)
Definition f64 (m e : Z) : float64 := binary_normalize 53 1024 m e false.
Definition f64_zero : float64 := S754_zero false.
Definition f64_1e6 : float64 := Eval vm_compute in f64 1000000 0.
Definition f64_nan : float64 := S754_nan.

Definition is_nan (x : float64) : bool :=
  match x with S754_nan => true | _ => false end.

(** ** order.go *)

Definition Side := string.
Definition Buy : Side := "BUY"%string.
Definition Sell : Side := "SELL"%string.

Definition OrderType := string.
Definition Limit : OrderType := "LIMIT"%string.
Definition Market : OrderType := "MARKET"%string.
Definition IOC : OrderType := "IOC"%string.

Definition OrderStatus := string.
Definition StatusOpen : OrderStatus := "OPEN"%string.
Definition StatusPartial : OrderStatus := "PARTIAL"%string.
Definition StatusFilled : OrderStatus := "FILLED"%string.
Definition StatusCancelled : OrderStatus := "CANCELLED"%string.
Definition StatusRejected : OrderStatus := "REJECTED"%string.

Record Order : Type := mkOrder {
  ID : Z;
  Symbol : string;
  OSide : Side;
  OType : OrderType;
  Status : OrderStatus;
  Price : float64;
  Quantity : Z;
  Filled : Z;
  Timestamp : Z
}.

Definition set_Status (s : OrderStatus) (o : Order) : Order :=
  mkOrder (ID o) (Symbol o) (OSide o) (OType o) s (Price o)
          (Quantity o) (Filled o) (Timestamp o).

Definition set_Filled (f : Z) (o : Order) : Order :=
  mkOrder (ID o) (Symbol o) (OSide o) (OType o) (Status o) (Price o)
          (Quantity o) f (Timestamp o).

(** The two constructors, given the identifier and the clock reading that
    [nextOrderID] and [time.Now] hand out. *)
Definition NewLimitOrder (id : Z) (now : Z) (symbol : string) (side : Side)
    (price : float64) (qty : Z) : Order :=
  mkOrder id symbol side Limit StatusOpen price qty 0 now.

Definition NewMarketOrder (id : Z) (now : Z) (symbol : string) (side : Side)
    (qty : Z) : Order :=
  mkOrder id symbol side Market StatusOpen f64_zero qty 0 now.

Definition Remaining (o : Order) : Z := sub64 (Quantity o) (Filled o).
Definition IsFilled (o : Order) : bool := (Quantity o <=? Filled o)%Z.
Definition IsActive (o : Order) : bool :=
  String.eqb (Status o) StatusOpen || String.eqb (Status o) StatusPartial.

(** ** The store of orders

    A non-nil [*Order] is an address of the store.  Go has no dangling
    pointers, so every address the engine meets is allocated; [deref] of an
    address outside the store (which no run produces) reads the zero
    [Order]. *)

Definition addr := positive.

Definition zeroOrder : Order := mkOrder 0 EmptyString EmptyString EmptyString EmptyString f64_zero 0 0 0.

Definition deref (m : gmap addr Order) (a : addr) : Order :=
  default zeroOrder (m !! a).

Definition update (m : gmap addr Order) (a : addr) (f : Order -> Order)
  : gmap addr Order :=
  <[a := f (deref m a)]> m.

(** ** trade.go *)

Record Trade : Type := mkTrade {
  TradeID : Z;
  TSymbol : string;
  BuyOrderID : Z;
  SellOrderID : Z;
  TPrice : float64;
  TQuantity : Z;
  TTimestamp : Z
}.

(** [nextTradeID]: [atomic.AddUint64(&globalTradeSeq, 1)] returns the new
    value of the counter. *)
Definition nextTradeID (seq : Z) : Z * Z :=
  let n := wrapU64 (seq + 1) in (n, n).

Definition newTrade (seq : Z) (symbol : string) (buyID sellID : Z)
    (price : float64) (qty : Z) (ts : Z) : Trade * Z :=
  let '(id, seq') := nextTradeID seq in
  (mkTrade id symbol buyID sellID price qty ts, seq').

Definition min64 (a b : Z) : Z := if (a <? b)%Z then a else b.

(** ** container/heap of the Go standard library, over a slice *)

Section ContainerHeap.
Context {A : Type}.
Variable less : A -> A -> bool.

(** [h.Less(i, j)] and [h.Swap(i, j)]; an index out of range panics. *)
Definition Less (h : list A) (i j : nat) : result bool :=
  match h !! i, h !! j with
  | Some x, Some y => Ok (less x y)
  | _, _ => Panic
  end.

Definition Swap (h : list A) (i j : nat) : result (list A) :=
  match h !! i, h !! j with
  | Some x, Some y => Ok (<[j := x]> (<[i := y]> h))
  | _, _ => Panic
  end.

(** [up(h, j)] *)
Fixpoint up (fuel : nat) (h : list A) (j : nat) : result (list A) :=
  match fuel with
  | O => OutOfFuel
  | S fuel' =>
      let i := (j - 1) / 2 in
      if i =? j then Ok h
      else
        do lt <- Less h j i;
        if negb lt then Ok h
        else do h' <- Swap h i j; up fuel' h' i
  end.

(** [down(h, i0, n)]; the boolean result is not used by [Pop]. *)
Fixpoint down (fuel : nat) (h : list A) (i n : nat) : result (list A) :=
  match fuel with
  | O => OutOfFuel
  | S fuel' =>
      let j1 := 2 * i + 1 in
      if n <=? j1 then Ok h
      else
        let j2 := j1 + 1 in
        do j <- (if j2 <? n
                 then do lt <- Less h j2 j1; Ok (if lt then j2 else j1)
                 else Ok j1);
        do lt <- Less h j i;
        if negb lt then Ok h
        else do h' <- Swap h i j; down fuel' h' j n
  end.

(** [heap.Push(h, x)]: append, then [up(h, h.Len()-1)].  [up] climbs from
    [j] in at most [j] turns and [down] descends below [n] in at most [n]
    turns, so the fuel given here and in [heap_Pop] is never used up
    ([up_total], [down_total]). *)
Definition heap_Push (h : list A) (x : A) : result (list A) :=
  let h' := h ++ [x] in
  up (length h') h' (length h' - 1).

(** The slice method [Pop]: remove and return the last element. *)
Definition slice_Pop (h : list A) : result (A * list A) :=
  match last h with
  | Some x => Ok (x, take (length h - 1) h)
  | None => Panic
  end.

(** [heap.Pop(h)]: [n := h.Len()-1; h.Swap(0, n); down(h, 0, n); h.Pop()]. *)
Definition heap_Pop (h : list A) : result (A * list A) :=
  match h with
  | [] => Panic
  | _ =>
      let n := length h - 1 in
      do h1 <- Swap h 0 n;
      do h2 <- down (length h) h1 0 n;
      slice_Pop h2
  end.
End ContainerHeap.

(** ** orderbook.go *)

(** [BidHeap.Less]: higher price first, then earlier timestamp. *)
Definition BidHeap_Less (x y : Order) : bool :=
  if f64_ne (Price x) (Price y) then f64_gt (Price x) (Price y)
  else (Timestamp x <? Timestamp y)%Z.

(** [AskHeap.Less]: lower price first, then earlier timestamp. *)
Definition AskHeap_Less (x y : Order) : bool :=
  if f64_ne (Price x) (Price y) then f64_lt (Price x) (Price y)
  else (Timestamp x <? Timestamp y)%Z.

(** The heaps hold pointers: [Less] reads the two orders through the store. *)
Definition bid_less (m : gmap addr Order) (a b : addr) : bool :=
  BidHeap_Less (deref m a) (deref m b).
Definition ask_less (m : gmap addr Order) (a b : addr) : bool :=
  AskHeap_Less (deref m a) (deref m b).

(** The lock [mu] serialises the calls; the embedding is of one call at a
    time. *)
Record OrderBook : Type := mkBook {
  symbol : string;
  bids : list addr;
  asks : list addr
}.

Definition set_bids (ob : OrderBook) (h : list addr) : OrderBook :=
  mkBook (symbol ob) h (asks ob).
Definition set_asks (ob : OrderBook) (h : list addr) : OrderBook :=
  mkBook (symbol ob) (bids ob) h.

Definition NewOrderBook (sym : string) : OrderBook := mkBook sym [] [].

(** [BestBid] and [BestAsk] look at the entry at index 0 only. *)
Definition BestBid (m : gmap addr Order) (ob : OrderBook) : float64 * bool :=
  match bids ob with
  | top :: _ =>
      if IsActive (deref m top) then (Price (deref m top), true)
      else (f64_zero, false)
  | [] => (f64_zero, false)
  end.

Definition BestAsk (m : gmap addr Order) (ob : OrderBook) : float64 * bool :=
  match asks ob with
  | top :: _ =>
      if IsActive (deref m top) then (Price (deref m top), true)
      else (f64_zero, false)
  | [] => (f64_zero, false)
  end.

Definition Spread (m : gmap addr Order) (ob : OrderBook) : float64 * bool :=
  let '(bid, hasBid) := BestBid m ob in
  let '(ask, hasAsk) := BestAsk m ob in
  if negb hasBid || negb hasAsk then (f64_zero, false)
  else (SFsub 53 1024 ask bid, true).

Definition count_active (m : gmap addr Order) (h : list addr) : nat :=
  length (filter (fun a => IsActive (deref m a) = true) h).

Definition Depth (m : gmap addr Order) (ob : OrderBook) : nat * nat :=
  (count_active m (bids ob), count_active m (asks ob)).

(** The state a [Submit] call works on: the store, the process-wide trade
    counter, the book, and the trades appended so far. *)
Record mstate : Type := mkM {
  m_mem : gmap addr Order;
  m_seq : Z;
  m_book : OrderBook;
  m_trades : list Trade
}.

Inductive ctl : Type :=
  | Continue (s : mstate)
  | Break (s : mstate).

Definition add_Filled (qty : Z) (o : Order) : Order :=
  set_Filled (add64 (Filled o) qty) o.

(** One turn of the [for] loop of [matchBuy]: the loop condition, then the
    body.  [Break] is either exit. *)
Definition matchBuy_body (incoming : addr) (s : mstate) : result ctl :=
  let m := m_mem s in
  let ob := m_book s in
  if negb ((0 <? length (asks ob)) && (0 <? Remaining (deref m incoming))%Z)
  then Ok (Break s)
  else
    match asks ob !! 0 with
    | None => Panic
    | Some bestAsk =>
        if negb (IsActive (deref m bestAsk)) then
          do p <- heap_Pop (ask_less m) (asks ob);
          Ok (Continue (mkM m (m_seq s) (set_asks ob (snd p)) (m_trades s)))
        else if String.eqb (OType (deref m incoming)) Limit
                && f64_lt (Price (deref m incoming)) (Price (deref m bestAsk))
        then Ok (Break s)
        else
          let qty := min64 (Remaining (deref m incoming))
                           (Remaining (deref m bestAsk)) in
          let execPrice := Price (deref m bestAsk) in
          let '(trade, seq') :=
            newTrade (m_seq s) (symbol ob) (ID (deref m incoming))
                     (ID (deref m bestAsk)) execPrice qty
                     (Timestamp (deref m incoming)) in
          let trades := m_trades s ++ [trade] in
          let m1 := update m incoming (add_Filled qty) in
          let m2 := update m1 bestAsk (add_Filled qty) in
          if IsFilled (deref m2 bestAsk) then
            let m3 := update m2 bestAsk (set_Status StatusFilled) in
            do p <- heap_Pop (ask_less m3) (asks ob);
            Ok (Continue (mkM m3 seq' (set_asks ob (snd p)) trades))
          else
            let m3 := update m2 bestAsk (set_Status StatusPartial) in
            Ok (Continue (mkM m3 seq' ob trades))
    end.

Definition matchSell_body (incoming : addr) (s : mstate) : result ctl :=
  let m := m_mem s in
  let ob := m_book s in
  if negb ((0 <? length (bids ob)) && (0 <? Remaining (deref m incoming))%Z)
  then Ok (Break s)
  else
    match bids ob !! 0 with
    | None => Panic
    | Some bestBid =>
        if negb (IsActive (deref m bestBid)) then
          do p <- heap_Pop (bid_less m) (bids ob);
          Ok (Continue (mkM m (m_seq s) (set_bids ob (snd p)) (m_trades s)))
        else if String.eqb (OType (deref m incoming)) Limit
                && f64_gt (Price (deref m incoming)) (Price (deref m bestBid))
        then Ok (Break s)
        else
          let qty := min64 (Remaining (deref m incoming))
                           (Remaining (deref m bestBid)) in
          let execPrice := Price (deref m bestBid) in
          let '(trade, seq') :=
            newTrade (m_seq s) (symbol ob) (ID (deref m bestBid))
                     (ID (deref m incoming)) execPrice qty
                     (Timestamp (deref m incoming)) in
          let trades := m_trades s ++ [trade] in
          let m1 := update m incoming (add_Filled qty) in
          let m2 := update m1 bestBid (add_Filled qty) in
          if IsFilled (deref m2 bestBid) then
            let m3 := update m2 bestBid (set_Status StatusFilled) in
            do p <- heap_Pop (bid_less m3) (bids ob);
            Ok (Continue (mkM m3 seq' (set_bids ob (snd p)) trades))
          else
            let m3 := update m2 bestBid (set_Status StatusPartial) in
            Ok (Continue (mkM m3 seq' ob trades))
    end.

(** The [for] loop: iterate the body until it breaks. *)
Fixpoint loop (body : mstate -> result ctl) (fuel : nat) (s : mstate)
  : result mstate :=
  match fuel with
  | O => OutOfFuel
  | S fuel' =>
      do c <- body s;
      match c with
      | Continue s' => loop body fuel' s'
      | Break s' => Ok s'
      end
  end.

(** [finalizeOrder(o, book)]: the [switch] takes the first case that holds;
    [push] is [heap.Push] on the order's own side. *)
Definition finalizeOrder (o : addr)
    (push : gmap addr Order -> OrderBook -> result OrderBook)
    (s : mstate) : result mstate :=
  let m := m_mem s in
  if IsFilled (deref m o) then
    Ok (mkM (update m o (set_Status StatusFilled)) (m_seq s) (m_book s)
            (m_trades s))
  else if String.eqb (OType (deref m o)) IOC then
    Ok (mkM (update m o (set_Status StatusCancelled)) (m_seq s) (m_book s)
            (m_trades s))
  else if String.eqb (OType (deref m o)) Market
          && (0 <? Remaining (deref m o))%Z then
    Ok (mkM (update m o (set_Status StatusCancelled)) (m_seq s) (m_book s)
            (m_trades s))
  else if String.eqb (OType (deref m o)) Limit
          && (0 <? Remaining (deref m o))%Z then
    let m' := if (0 <? Filled (deref m o))%Z
              then update m o (set_Status StatusPartial) else m in
    do ob' <- push m' (m_book s);
    Ok (mkM m' (m_seq s) ob' (m_trades s))
  else Ok s.

Definition push_bid (o : addr) (m : gmap addr Order) (ob : OrderBook)
  : result OrderBook :=
  do h <- heap_Push (bid_less m) (bids ob) o; Ok (set_bids ob h).

Definition push_ask (o : addr) (m : gmap addr Order) (ob : OrderBook)
  : result OrderBook :=
  do h <- heap_Push (ask_less m) (asks ob) o; Ok (set_asks ob h).

(** The loop of [matchBuy] ends within [len(asks) + 1] turns and that of
    [matchSell] within [len(bids) + 1] (see [matchBuy_loop_total]). *)
Definition matchBuy (incoming : addr) (s : mstate) : result mstate :=
  do s1 <- loop (matchBuy_body incoming) (S (length (asks (m_book s)))) s;
  finalizeOrder incoming (push_bid incoming) s1.

Definition matchSell (incoming : addr) (s : mstate) : result mstate :=
  do s1 <- loop (matchSell_body incoming) (S (length (bids (m_book s)))) s;
  finalizeOrder incoming (push_ask incoming) s1.

(** [match]: the [switch] on the side has no default case. *)
Definition match_ (incoming : addr) (s : mstate) : result mstate :=
  if String.eqb (OSide (deref (m_mem s) incoming)) Buy then matchBuy incoming s
  else if String.eqb (OSide (deref (m_mem s) incoming)) Sell
  then matchSell incoming s
  else Ok s.

(** The state between calls. *)
Record bstate : Type := mkB {
  mem : gmap addr Order;
  globalTradeSeq : Z;
  book : OrderBook
}.

(** [OrderBook.Submit]; a nil [incoming] panics at [incoming.Side]. *)
Definition OrderBook_Submit (incoming : option addr) (b : bstate)
  : result (list Trade * bstate) :=
  match incoming with
  | None => Panic
  | Some a =>
      do s <- match_ a (mkM (mem b) (globalTradeSeq b) (book b) []);
      Ok (m_trades s, mkB (m_mem s) (m_seq s) (m_book s))
  end.

(** [OrderBook.Cancel]: the first entry, bids before asks, whose order has
    the identifier and is active. *)
Definition cancel_target (m : gmap addr Order) (h : list addr) (orderID : Z)
  : option addr :=
  find (fun a => (ID (deref m a) =? orderID)%Z && IsActive (deref m a)) h.

Definition OrderBook_Cancel (orderID : Z) (b : bstate) : bool * bstate :=
  match cancel_target (mem b) (bids (book b)) orderID with
  | Some a =>
      (true, mkB (update (mem b) a (set_Status StatusCancelled))
                 (globalTradeSeq b) (book b))
  | None =>
      match cancel_target (mem b) (asks (book b)) orderID with
      | Some a =>
          (true, mkB (update (mem b) a (set_Status StatusCancelled))
                     (globalTradeSeq b) (book b))
      | None => (false, b)
      end
  end.

(** ** gateway.go *)

(** The text of [ValidationError.Message], with the values the format
    string prints kept as arguments. *)
Inductive message : Type :=
  | msg_ordre_nil
  | msg_symbole_vide
  | msg_cote_invalide (side : Side)
  | msg_type_invalide (type : OrderType)
  | msg_quantite (qty : Z)
  | msg_prix_limite (price : float64)
  | msg_prix_eleve (price : float64).

Record ValidationError : Type := mkValidationError {
  Field : string;
  Message : message
}.

(** [validateOrder]: [None] is the nil error. *)
Definition validateOrder (m : gmap addr Order) (o : option addr)
  : option ValidationError :=
  match o with
  | None => Some (mkValidationError "order" msg_ordre_nil)
  | Some a =>
      let o := deref m a in
      if String.eqb (Symbol o) EmptyString then
        Some (mkValidationError "symbol" msg_symbole_vide)
      else if negb (String.eqb (OSide o) Buy) && negb (String.eqb (OSide o) Sell)
      then Some (mkValidationError "side" (msg_cote_invalide (OSide o)))
      else if negb (String.eqb (OType o) Limit)
              && negb (String.eqb (OType o) Market)
              && negb (String.eqb (OType o) IOC)
      then Some (mkValidationError "type" (msg_type_invalide (OType o)))
      else if (Quantity o <=? 0)%Z then
        Some (mkValidationError "quantity" (msg_quantite (Quantity o)))
      else if String.eqb (OType o) Limit && f64_le (Price o) f64_zero then
        Some (mkValidationError "price" (msg_prix_limite (Price o)))
      else if String.eqb (OType o) Limit && f64_gt (Price o) f64_1e6 then
        Some (mkValidationError "price" (msg_prix_eleve (Price o)))
      else None
  end.

(** The two errors [Gateway.Submit] builds with [fmt.Errorf]. *)
Inductive SubmitError : Type :=
  | ErrRejete (id : Z) (err : ValidationError)
  | ErrNonSupporte (id : Z) (symbol : string).

Inductive CancelError : Type :=
  | ErrSymbole (symbol : string)
  | ErrNonTrouve (orderID : Z).

(** The gateway with what it points to: the store of orders, the trade
    counter, one book per registered symbol, and the trade log, which may
    be nil. *)
Record Gateway : Type := mkGateway {
  g_mem : gmap addr Order;
  g_seq : Z;
  books : gmap string OrderBook;
  log : option (list Trade)
}.

Definition NewGateway (m : gmap addr Order) (seq : Z) (symbols : list string)
    (log : option (list Trade)) : Gateway :=
  mkGateway m seq
    (foldl (fun bs s => <[s := NewOrderBook s]> bs) ∅ symbols) log.

(** [TradeLog.AddAll] *)
Definition AddAll (tl : list Trade) (trades : list Trade) : list Trade :=
  tl ++ trades.

(** [Gateway.Submit].  On a validation error the order is marked
    [REJECTED] through the pointer, before the error is built. *)
Definition Gateway_Submit (o : option addr) (gw : Gateway)
  : result ((list Trade + SubmitError) * Gateway) :=
  match validateOrder (g_mem gw) o with
  | Some err =>
      match o with
      | None => Panic
      | Some a =>
          let m := update (g_mem gw) a (set_Status StatusRejected) in
          Ok (inr (ErrRejete (ID (deref m a)) err),
              mkGateway m (g_seq gw) (books gw) (log gw))
      end
  | None =>
      match o with
      | None => Panic
      | Some a =>
          let sym := Symbol (deref (g_mem gw) a) in
          match books gw !! sym with
          | None =>
              let m := update (g_mem gw) a (set_Status StatusRejected) in
              Ok (inr (ErrNonSupporte (ID (deref m a)) (Symbol (deref m a))),
                  mkGateway m (g_seq gw) (books gw) (log gw))
          | Some ob =>
              do r <- OrderBook_Submit o (mkB (g_mem gw) (g_seq gw) ob);
              let trades := fst r in
              let b := snd r in
              Ok (inl trades,
                  mkGateway (mem b) (globalTradeSeq b)
                            (<[sym := book b]> (books gw))
                            (match log gw with
                             | Some tl => Some (AddAll tl trades)
                             | None => None
                             end))
          end
      end
  end.

(** [Gateway.Cancel] *)
Definition Gateway_Cancel (sym : string) (orderID : Z) (gw : Gateway)
  : option CancelError * Gateway :=
  match books gw !! sym with
  | None => (Some (ErrSymbole sym), gw)
  | Some ob =>
      let '(found, b) := OrderBook_Cancel orderID (mkB (g_mem gw) (g_seq gw) ob) in
      let gw' := mkGateway (mem b) (globalTradeSeq b)
                           (<[sym := book b]> (books gw)) (log gw) in
      if negb found then (Some (ErrNonTrouve orderID), gw')
      else (None, gw')
  end.

(** [Gateway.Book] *)
Definition Gateway_Book (sym : string) (gw : Gateway) : option OrderBook :=
  books gw !! sym.

(** * The heap condition of container/heap *)

Section HeapFacts.
Context {A : Type}.
Variable less : A -> A -> bool.

Definition parent (j : nat) : nat := (j - 1) / 2.

(** The entry at [c] is not less than the entry at [p]. *)
Definition not_above (h : list A) (c p : nat) : Prop :=
  forall x y, h !! c = Some x -> h !! p = Some y -> less x y = false.

(** The heap condition of container/heap on the first [n] entries. *)
Definition heap_upto (n : nat) (h : list A) : Prop :=
  forall c, 0 < c < n -> not_above h c (parent c).

Definition heap_ok (h : list A) : Prop := heap_upto (length h) h.

(** What [up] restores: every pair is in order but that of [j] and its
    parent, and the children of [j] are in order with the parent of [j]. *)
Definition up_inv (h : list A) (j : nat) : Prop :=
  (forall c, 0 < c < length h -> c <> j -> not_above h c (parent c)) /\
  (forall c, 0 < c < length h -> parent c = j -> 0 < j ->
     not_above h c (parent j)).

(** What [down] restores, below [n]: every pair is in order but those of
    [i] and its children, which are in order with the parent of [i]. *)
Definition down_inv (n : nat) (h : list A) (i : nat) : Prop :=
  (forall c, 0 < c < n -> parent c <> i -> not_above h c (parent c)) /\
  (forall c, 0 < c < n -> parent c = i -> 0 < i ->
     not_above h c (parent i)).

Definition transpose (i j k : nat) : nat :=
  if decide (k = j) then i else if decide (k = i) then j else k.

(** [j] is the child of [i] that [down] picks. *)
Definition picked (n : nat) (h : list A) (i j : nat) : Prop :=
  parent j = i /\ 0 < j < n /\
  forall c, 0 < c < n -> parent c = i -> not_above h c j.


Lemma parent_spec c i :
  0 < c -> (parent c = i <-> c = 2 * i + 1 \/ c = 2 * i + 2).
Proof.
  unfold parent. intros Hc.
  pose proof (Nat.div_mod_eq (c - 1) 2) as E.
  pose proof (Nat.mod_upper_bound (c - 1) 2) as U.
  lia.
Qed.

Lemma parent_lt c : 0 < c -> parent c < c.
Proof.
  intros Hc. destruct (parent_spec c (parent c) Hc) as [H _].
  specialize (H eq_refl). lia.
Qed.

Lemma Swap_Ok h i j (h' : list A) :
  Swap h i j = Ok h' ->
  exists x y, h !! i = Some x /\ h !! j = Some y /\ h' = <[j := x]> (<[i := y]> h).
Proof.
  unfold Swap. destruct (h !! i) as [x|]; [|discriminate].
  destruct (h !! j) as [y|]; [|discriminate].
  intros [= <-]. eauto.
Qed.

Lemma Swap_lookup h i j (h' : list A) k :
  Swap h i j = Ok h' ->
  h' !! k = if decide (k = j) then h !! i
            else if decide (k = i) then h !! j else h !! k.
Proof.
  intros H. apply Swap_Ok in H as (x & y & Hx & Hy & ->).
  pose proof (lookup_lt_Some _ _ _ Hx). pose proof (lookup_lt_Some _ _ _ Hy).
  rewrite !list_lookup_insert, !length_insert.
  repeat case_decide; subst; try lia; congruence.
Qed.

Lemma Swap_length h i j (h' : list A) :
  Swap h i j = Ok h' -> length h' = length h.
Proof.
  intros H. apply Swap_Ok in H as (x & y & Hx & Hy & ->).
  by rewrite !length_insert.
Qed.

Lemma Swap_perm h i j (h' : list A) : Swap h i j = Ok h' -> h' ≡ₚ h.
Proof.
  intros H. apply Swap_Ok in H as (x & y & Hx & Hy & ->).
  by apply Permutation_insert_swap.
Qed.

Lemma Swap_total (h : list A) i j :
  i < length h -> j < length h -> exists h', Swap h i j = Ok h'.
Proof.
  intros Hi Hj. unfold Swap.
  destruct (lookup_lt_is_Some_2 h i Hi) as [x ->].
  destruct (lookup_lt_is_Some_2 h j Hj) as [y ->]. eauto.
Qed.

Lemma Less_Ok (h : list A) i j b :
  Less less h i j = Ok b ->
  exists x y, h !! i = Some x /\ h !! j = Some y /\ b = less x y.
Proof.
  unfold Less. destruct (h !! i) as [x|]; [|discriminate].
  destruct (h !! j) as [y|]; [|discriminate]. intros [= <-]. eauto.
Qed.

Lemma Less_total (h : list A) i j :
  i < length h -> j < length h -> exists b, Less less h i j = Ok b.
Proof.
  intros Hi Hj. unfold Less.
  destruct (lookup_lt_is_Some_2 h i Hi) as [x ->].
  destruct (lookup_lt_is_Some_2 h j Hj) as [y ->]. eauto.
Qed.

(** *** Termination and contents, for any [less] *)

Lemma up_S fuel (h : list A) j :
  up less (S fuel) h j =
    if (j - 1) / 2 =? j then Ok h
    else
      do lt <- Less less h j ((j - 1) / 2);
      if negb lt then Ok h
      else do h' <- Swap h ((j - 1) / 2) j; up less fuel h' ((j - 1) / 2).
Proof. reflexivity. Qed.

Lemma down_S fuel (h : list A) i n :
  down less (S fuel) h i n =
    if n <=? 2 * i + 1 then Ok h
    else
      do j <- (if 2 * i + 1 + 1 <? n
               then do lt <- Less less h (2 * i + 1 + 1) (2 * i + 1);
                    Ok (if lt then 2 * i + 1 + 1 else 2 * i + 1)
               else Ok (2 * i + 1));
      do lt <- Less less h j i;
      if negb lt then Ok h
      else do h' <- Swap h i j; down less fuel h' j n.
Proof. reflexivity. Qed.

Lemma up_total fuel (h : list A) j :
  j < length h -> j < fuel ->
  exists h', up less fuel h j = Ok h' /\ h' ≡ₚ h.
Proof.
  revert h j. induction fuel as [|fuel IH]; intros h j Hj Hf; [lia|].
  rewrite up_S. destruct (Nat.eqb_spec ((j - 1) / 2) j) as [E|E]; [by eexists|].
  assert (0 < j) as Hpos by (destruct j; [exfalso; apply E; reflexivity | lia]).
  pose proof (parent_lt j Hpos) as Hp. unfold parent in Hp.
  destruct (Less_total h j ((j - 1) / 2)) as [b ->]; [lia..|]. cbn [rbind negb].
  destruct b; cbn [rbind negb]; [|by eexists].
  destruct (Swap_total h ((j - 1) / 2) j) as [h1 Hs]; [lia..|].
  rewrite Hs. cbn [rbind negb].
  destruct (IH h1 ((j - 1) / 2)) as (h' & -> & Hperm).
  - rewrite (Swap_length _ _ _ _ Hs). lia.
  - lia.
  - eexists. split; [done|]. rewrite Hperm. by eapply Swap_perm.
Qed.

Lemma down_total fuel (h : list A) i n :
  n <= length h -> 0 < fuel -> n - i <= fuel ->
  exists h', down less fuel h i n = Ok h' /\ h' ≡ₚ h
             /\ length h' = length h
             /\ forall k, n <= k -> h' !! k = h !! k.
Proof.
  revert h i. induction fuel as [|fuel IH]; intros h i Hn Hpos Hf; [lia|].
  rewrite down_S. destruct (Nat.leb_spec n (2 * i + 1)) as [E|E]; [by eexists|].
  set (j1 := 2 * i + 1) in *.
  assert (exists j, (if j1 + 1 <? n
                     then do lt <- Less less h (j1 + 1) j1;
                          Ok (if lt then j1 + 1 else j1)
                     else Ok j1) = Ok j /\ (j = j1 \/ j = j1 + 1 /\ j1 + 1 < n))
    as (j & -> & Hj).
  { destruct (Nat.ltb_spec (j1 + 1) n) as [E2|E2]; [|eauto].
    destruct (Less_total h (j1 + 1) j1) as [b ->]; [lia..|]. cbn [rbind negb].
    destruct b; eauto. }
  cbn [rbind negb].
  destruct (Less_total h j i) as [b ->]; [lia..|]. cbn [rbind negb].
  destruct b; cbn [rbind negb]; [|by eexists].
  destruct (Swap_total h i j) as [h1 Hs]; [lia..|].
  rewrite Hs. cbn [rbind negb].
  destruct (IH h1 j) as (h' & -> & Hperm & Hlen & Hk).
  - rewrite (Swap_length _ _ _ _ Hs). lia.
  - lia.
  - lia.
  - eexists. split; [done|]. split; [|split].
    + rewrite Hperm. by eapply Swap_perm.
    + rewrite Hlen. by eapply Swap_length.
    + intros k Hge. rewrite Hk by done.
      rewrite (Swap_lookup _ _ _ _ k Hs). repeat case_decide; try lia; done.
Qed.

Lemma heap_Push_total (h : list A) x :
  exists h', heap_Push less h x = Ok h' /\ h' ≡ₚ x :: h.
Proof.
  unfold heap_Push.
  destruct (up_total (length (h ++ [x])) (h ++ [x]) (length (h ++ [x]) - 1))
    as (h' & -> & Hperm).
  - rewrite length_app. simpl. lia.
  - rewrite length_app. simpl. lia.
  - eexists. split; [done|]. rewrite Hperm.
    by rewrite Permutation_app_comm.
Qed.

Lemma heap_Pop_unfold (h : list A) :
  h <> [] ->
  heap_Pop less h =
    do h1 <- Swap h 0 (length h - 1);
    do h2 <- down less (length h) h1 0 (length h - 1);
    slice_Pop h2.
Proof. by destruct h. Qed.

Lemma heap_Pop_total (h : list A) r :
  h !! 0 = Some r ->
  exists h', heap_Pop less h = Ok (r, h') /\ h ≡ₚ r :: h'.
Proof.
  intros Hr. pose proof (lookup_lt_Some _ _ _ Hr) as Hlen0.
  rewrite heap_Pop_unfold by (intros ->; done).
  destruct (Swap_total h 0 (length h - 1)) as [h1 Hs]; [lia..|].
  rewrite Hs. cbn [rbind].
  pose proof (Swap_length _ _ _ _ Hs) as Hl1.
  destruct (down_total (length h) h1 0 (length h - 1))
    as (h2 & -> & Hperm & Hlen & Hk); [lia..|].
  cbn [rbind]. unfold slice_Pop.
  assert (h2 !! (length h2 - 1) = Some r) as Hlast.
  { rewrite Hlen, Hl1. rewrite Hk by lia.
    rewrite (Swap_lookup _ _ _ _ _ Hs). rewrite decide_True by done. done. }
  rewrite last_lookup.
  replace (Nat.pred (length h2)) with (length h2 - 1) by lia.
  rewrite Hlast. eexists. split; [done|].
  rewrite <- (Swap_perm _ _ _ _ Hs), <- Hperm.
  rewrite <- (take_drop_middle h2 (length h2 - 1) r Hlast) at 1.
  rewrite drop_ge by lia. by rewrite Permutation_app_comm.
Qed.

(** *** The heap condition, for a [less] that is a strict weak order *)

Hypothesis less_asym : forall x y, less x y = true -> less y x = false.
Hypothesis less_negtrans :
  forall x y z, less y x = false -> less z y = false -> less z x = false.

Lemma less_irrefl x : less x x = false.
Proof.
  destruct (less x x) eqn:E; [|done].
  pose proof (less_asym _ _ E). congruence.
Qed.

Lemma not_above_trans (h : list A) c p g z :
  h !! p = Some z -> not_above h c p -> not_above h p g -> not_above h c g.
Proof.
  intros Hp H1 H2 x y Hx Hy.
  apply less_negtrans with z; [by eapply H2 | by eapply H1].
Qed.

Lemma Swap_not_above (h h1 : list A) i j c p :
  Swap h i j = Ok h1 ->
  not_above h (transpose i j c) (transpose i j p) -> not_above h1 c p.
Proof.
  intros Hs H x y. rewrite !(Swap_lookup _ _ _ _ _ Hs).
  intros Hx Hy. apply (H x y); unfold transpose; repeat case_decide; done.
Qed.

Ltac decide_all :=
  cbv iota;
  repeat match goal with
  | |- context [decide ?P] =>
      first [ rewrite (decide_False (P := P)) by (done || lia)
            | rewrite (decide_True (P := P)) by (done || lia) ]
  end.

Lemma up_step (h h1 : list A) j x y :
  0 < j -> h !! j = Some x -> h !! parent j = Some y -> less x y = true ->
  Swap h (parent j) j = Ok h1 -> up_inv h j -> up_inv h1 (parent j).
Proof.
  intros Hpos Hx Hy Hlt Hs [Ha Hb].
  pose proof (parent_lt j Hpos) as Hpj.
  pose proof (lookup_lt_Some _ _ _ Hx) as Hjl.
  unfold up_inv. rewrite (Swap_length _ _ _ _ Hs).
  assert (not_above h (parent j) j) as Hij.
  { intros ? ? ? ?. simplify_eq. by apply less_asym. }
  split.
  - intros c Hc Hne. eapply Swap_not_above; [done|]. unfold transpose.
    pose proof (parent_lt c (proj1 Hc)).
    destruct (decide (c = j)) as [->|Hcj]; [by decide_all|].
    destruct (decide (parent c = j)) as [E|E].
    { decide_all. rewrite E in *. apply Hb; [done..|lia]. }
    destruct (decide (parent c = parent j)) as [E'|E']; decide_all.
    + eapply not_above_trans; [exact Hy| |done].
      rewrite <- E'. by apply Ha.
    + by apply Ha.
  - intros c Hc Hpc Hppos. eapply Swap_not_above; [done|]. unfold transpose.
    pose proof (parent_lt (parent j) Hppos).
    pose proof (parent_lt c (proj1 Hc)).
    assert (not_above h (parent j) (parent (parent j))) as Hi
      by (apply Ha; lia).
    destruct (decide (c = j)) as [->|Hcj]; [by decide_all|].
    decide_all.
    eapply not_above_trans; [exact Hy| |done].
    rewrite <- Hpc. by apply Ha.
Qed.

Lemma up_heap fuel (h h' : list A) j :
  up less fuel h j = Ok h' -> j < length h -> up_inv h j -> heap_ok h'.
Proof.
  revert h j. induction fuel as [|fuel IH]; intros h j H Hj Hinv; [done|].
  rewrite up_S in H. destruct (Nat.eqb_spec ((j - 1) / 2) j) as [E|E].
  - injection H as <-. intros c Hc. apply Hinv; [done|].
    destruct (decide (j = 0)) as [->|]; [lia|].
    pose proof (parent_lt j). unfold parent in *. lia.
  - assert (0 < j) as Hpos by (destruct j; [exfalso; apply E; reflexivity | lia]).
    fold (parent j) in *.
    destruct (Less less h j (parent j)) as [b| |] eqn:HL; try done.
    apply Less_Ok in HL as (x & y & Hx & Hy & ->). cbn [rbind] in H.
    destruct (less x y) eqn:Hlt; cbn [negb] in H.
    + destruct (Swap h (parent j) j) as [h1| |] eqn:Hs; try done.
      cbn [rbind] in H. eapply IH; [exact H| |by eapply up_step].
      rewrite (Swap_length _ _ _ _ Hs). pose proof (parent_lt j). lia.
    + injection H as <-. intros c Hc.
      destruct (decide (c = j)) as [->|]; [|by apply Hinv].
      intros ? ? ? ?. by simplify_eq.
Qed.

Lemma heap_Push_heap (h h' : list A) x :
  heap_ok h -> heap_Push less h x = Ok h' -> heap_ok h'.
Proof.
  intros Hh H. unfold heap_Push in H. rewrite length_app in H. simpl in H.
  replace (length h + 1 - 1) with (length h) in H by lia.
  eapply up_heap; [exact H|rewrite length_app; simpl; lia|].
  split.
  - intros c Hc Hne. rewrite length_app in Hc. simpl in Hc.
    intros a b Ha Hb. pose proof (parent_lt c (proj1 Hc)).
    rewrite lookup_app_l in Ha, Hb by lia.
    eapply (Hh c); [lia|done..].
  - intros c Hc Hpc _. rewrite length_app in Hc. simpl in Hc.
    pose proof (parent_lt c (proj1 Hc)). lia.
Qed.

Lemma down_stop n (h : list A) i j x :
  h !! j = Some x -> down_inv n h i -> picked n h i j ->
  not_above h j i -> heap_upto n h.
Proof.
  intros Hx [Ha Hb] (Hpj & Hj & Hmin) Hji c Hc.
  destruct (decide (parent c = i)) as [E|E]; [|by apply Ha].
  rewrite E. eapply not_above_trans; [exact Hx|by apply Hmin|done].
Qed.

Lemma down_step n (h h1 : list A) i j x y :
  h !! j = Some x -> h !! i = Some y -> less x y = true ->
  Swap h i j = Ok h1 -> down_inv n h i -> picked n h i j ->
  down_inv n h1 j.
Proof.
  intros Hx Hy Hlt Hs [Ha Hb] (Hpj & Hj & Hmin).
  pose proof (parent_lt j (proj1 Hj)) as Hlt'. rewrite Hpj in Hlt'.
  assert (not_above h i j) as Hij.
  { intros ? ? ? ?. simplify_eq. by apply less_asym. }
  split.
  - intros c Hc Hne. eapply Swap_not_above; [done|]. unfold transpose.
    pose proof (parent_lt c (proj1 Hc)).
    destruct (decide (parent c = i)) as [E|E].
    + rewrite E.
      destruct (decide (c = j)) as [->|Hcj]; [by decide_all|].
      decide_all. by apply Hmin.
    + destruct (decide (c = j)) as [->|Hcj]; [done|].
      destruct (decide (c = i)) as [->|Hci]; decide_all.
      * apply Hb; [done..|lia].
      * by apply Ha.
  - intros c Hc Hpc _. eapply Swap_not_above; [done|]. unfold transpose.
    pose proof (parent_lt c (proj1 Hc)).
    rewrite Hpj. decide_all.
    rewrite <- Hpc. apply Ha; [done|lia].
Qed.

Lemma down_heap fuel (h h' : list A) i n :
  down less fuel h i n = Ok h' -> down_inv n h i -> heap_upto n h'.
Proof.
  revert h i. induction fuel as [|fuel IH]; intros h i H Hinv; [done|].
  rewrite down_S in H.
  destruct (Nat.leb_spec n (2 * i + 1)) as [E|E].
  { injection H as <-. intros c Hc. apply Hinv; [done|].
    intros Hp. apply parent_spec in Hp; lia. }
  set (j1 := 2 * i + 1) in *.
  assert (exists j, (if j1 + 1 <? n
                     then do lt <- Less less h (j1 + 1) j1;
                          Ok (if lt then j1 + 1 else j1)
                     else Ok j1) = Ok j /\ picked n h i j)
    as (j & Hsel & Hpick).
  { destruct (if j1 + 1 <? n
              then do lt <- Less less h (j1 + 1) j1;
                   Ok (if lt then j1 + 1 else j1)
              else Ok j1) as [j| |] eqn:Hsel; try done.
    exists j. split; [done|].
    assert (forall c, 0 < c < n -> parent c = i -> c = j1 \/ c = j1 + 1 /\ j1 + 1 < n)
      as Hch by (intros c Hc Hp; apply parent_spec in Hp; lia).
    assert (parent j1 = i /\ parent (j1 + 1) = i) as [Hp1 Hp2]
      by (split; apply parent_spec; lia).
    destruct (Nat.ltb_spec (j1 + 1) n) as [E2|E2].
    - destruct (Less less h (j1 + 1) j1) as [b| |] eqn:HL; try done.
      apply Less_Ok in HL as (x & y & Hx & Hy & ->).
      cbn [rbind] in Hsel. injection Hsel as <-.
      destruct (less x y) eqn:Hlt.
      + split; [done|]. split; [lia|]. intros c Hc Hp a b Ha Hb.
        destruct (Hch c Hc Hp) as [->|[-> _]]; simplify_eq.
        * by apply less_asym.
        * apply less_irrefl.
      + split; [done|]. split; [lia|]. intros c Hc Hp a b Ha Hb.
        destruct (Hch c Hc Hp) as [->|[-> _]]; simplify_eq.
        * apply less_irrefl.
        * done.
    - injection Hsel as <-. split; [done|]. split; [lia|].
      intros c Hc Hp a b Ha Hb.
      destruct (Hch c Hc Hp) as [->|[-> ?]]; [|lia]. simplify_eq.
      apply less_irrefl. }
  rewrite Hsel in H. cbn [rbind] in H.
  destruct (Less less h j i) as [b| |] eqn:HL; try done.
  apply Less_Ok in HL as (x & y & Hx & Hy & ->). cbn [rbind] in H.
  destruct (less x y) eqn:Hlt; cbn [negb] in H.
  - destruct (Swap h i j) as [h1| |] eqn:Hs; try done. cbn [rbind] in H.
    eapply IH; [exact H|]. by eapply down_step.
  - injection H as <-. eapply down_stop; [exact Hx|done..|].
    intros ? ? ? ?. by simplify_eq.
Qed.

Lemma heap_Pop_heap (h h' : list A) r :
  heap_ok h -> heap_Pop less h = Ok (r, h') -> heap_ok h'.
Proof.
  intros Hh H. destruct (decide (h = [])) as [->|Hne]; [done|].
  rewrite heap_Pop_unfold in H by done.
  assert (0 < length h) as Hlen by (destruct h; [done|simpl; lia]).
  destruct (Swap h 0 (length h - 1)) as [h1| |] eqn:Hs; try done.
  cbn [rbind] in H.
  destruct (down less (length h) h1 0 (length h - 1)) as [h2| |] eqn:Hd;
    try done.
  cbn [rbind] in H. unfold slice_Pop in H.
  destruct (last h2) as [x|]; [|done]. injection H as -> <-.
  pose proof (Swap_length _ _ _ _ Hs) as Hl1.
  destruct (down_total (length h) h1 0 (length h - 1))
    as (h2' & Hd' & _ & Hl2 & _); [lia..|].
  rewrite Hd in Hd'. injection Hd' as <-.
  apply down_heap in Hd.
  - intros c Hc. rewrite length_take in Hc.
    pose proof (parent_lt c (proj1 Hc)).
    intros a b Ha Hb. rewrite lookup_take_lt in Ha, Hb by lia.
    eapply (Hd c); [lia|done..].
  - split; [|intros; lia].
    intros c Hc Hp. eapply Swap_not_above; [done|]. unfold transpose.
    pose proof (parent_lt c (proj1 Hc)).
    decide_all. apply Hh. lia.
Qed.

(** The entry at index 0 is not above any other entry. *)
Lemma heap_root_min (h : list A) r :
  heap_ok h -> h !! 0 = Some r ->
  forall k x, h !! k = Some x -> less x r = false.
Proof.
  intros Hh Hr k. induction (lt_wf k) as [k _ IH]. intros x Hx.
  destruct (decide (k = 0)) as [->|Hk].
  - simplify_eq. apply less_irrefl.
  - pose proof (lookup_lt_Some _ _ _ Hx) as Hlen.
    pose proof (parent_lt k ltac:(lia)) as Hp.
    destruct (lookup_lt_is_Some_2 h (parent k)) as [p Hpk]; [lia|].
    apply less_negtrans with p.
    + by apply (IH (parent k)).
    + eapply (Hh k); [lia|done..].
Qed.
End HeapFacts.

(** * Prices and the two orders of the book *)


(** ** Prices as keys *)

(** A key for the IEEE order of the values that are not NaN: the two zeros
    share a key. *)
Definition fkey (x : float64) : Z * (Z * Z) :=
  match x with
  | S754_zero _ => (0, (0, 0))
  | S754_infinity false => (2, (0, 0))
  | S754_infinity true => (-2, (0, 0))
  | S754_nan => (3, (0, 0))
  | S754_finite false m e => (1, (e, Z.pos m))
  | S754_finite true m e => (-1, (- e, - Z.pos m))
  end%Z.

Definition key_lt (a b : Z * (Z * Z)) : Prop :=
  (a.1 < b.1 \/ (a.1 = b.1 /\ (a.2.1 < b.2.1 \/ (a.2.1 = b.2.1 /\ a.2.2 < b.2.2))))%Z.

Definition key_eq (a b : Z * (Z * Z)) : Prop :=
  a.1 = b.1 /\ a.2.1 = b.2.1 /\ a.2.2 = b.2.2.

Definition numeric_prices (m : gmap addr Order) : Prop :=
  forall a o, m !! a = Some o -> is_nan (Price o) = false.

Ltac float_cases x y :=
  destruct x as [[]|[]| |[] ? ?], y as [[]|[]| |[] ? ?]; simpl;
  try discriminate; intros _ _;
  repeat match goal with
  | |- context [PosDef.Pos.compare_cont Eq ?m ?m'] =>
      change (PosDef.Pos.compare_cont Eq m m') with (Pos.compare m m');
      destruct (Pos.compare_spec m m')
  | |- context [Z.compare ?e ?e'] => destruct (Z.compare_spec e e')
  end; simpl.

Lemma f64_lt_key x y :
  is_nan x = false -> is_nan y = false ->
  (f64_lt x y = true <-> key_lt (fkey x) (fkey y)).
Proof.
  unfold f64_lt, SFltb, SFcompare, key_lt.
  float_cases x y; (split; [ try discriminate; try lia | try lia; try reflexivity ]).
Qed.

Lemma f64_eq_key x y :
  is_nan x = false -> is_nan y = false ->
  (f64_eq x y = true <-> key_eq (fkey x) (fkey y)).
Proof.
  unfold f64_eq, SFeqb, SFcompare, key_eq.
  float_cases x y; (split; [ try discriminate; try lia | try lia; try reflexivity ]).
Qed.

Lemma f64_le_key x y :
  is_nan x = false -> is_nan y = false ->
  (f64_le x y = true <-> key_lt (fkey x) (fkey y) \/ key_eq (fkey x) (fkey y)).
Proof.
  unfold f64_le, SFleb, SFcompare, key_lt, key_eq.
  float_cases x y; (split; [ try discriminate; try lia | try lia; try reflexivity ]).
Qed.

Lemma f64_gt_key x y :
  is_nan x = false -> is_nan y = false ->
  (f64_gt x y = true <-> key_lt (fkey y) (fkey x)).
Proof. intros. by apply f64_lt_key. Qed.

Lemma BidHeap_Less_key x y :
  is_nan (Price x) = false -> is_nan (Price y) = false ->
  (BidHeap_Less x y = true <->
     key_lt (fkey (Price y)) (fkey (Price x)) \/
     (key_eq (fkey (Price x)) (fkey (Price y)) /\ (Timestamp x < Timestamp y)%Z)).
Proof.
  intros Hx Hy. unfold BidHeap_Less, f64_ne.
  pose proof (f64_eq_key _ _ Hx Hy) as He.
  pose proof (f64_gt_key _ _ Hx Hy) as Hg.
  fold (f64_eq (Price x) (Price y)).
  destruct (f64_eq (Price x) (Price y)); cbn [negb].
  - rewrite Z.ltb_lt. destruct He as [He _]. specialize (He eq_refl).
    unfold key_lt, key_eq in *. lia.
  - rewrite Hg. unfold key_lt, key_eq in *. split; [tauto|].
    intros [?|[E ?]]; [done|]. destruct He as [_ He]. specialize (He E). done.
Qed.

Lemma AskHeap_Less_key x y :
  is_nan (Price x) = false -> is_nan (Price y) = false ->
  (AskHeap_Less x y = true <->
     key_lt (fkey (Price x)) (fkey (Price y)) \/
     (key_eq (fkey (Price x)) (fkey (Price y)) /\ (Timestamp x < Timestamp y)%Z)).
Proof.
  intros Hx Hy. unfold AskHeap_Less, f64_ne.
  pose proof (f64_eq_key _ _ Hx Hy) as He.
  pose proof (f64_lt_key _ _ Hx Hy) as Hg.
  fold (f64_eq (Price x) (Price y)).
  destruct (f64_eq (Price x) (Price y)); cbn [negb].
  - rewrite Z.ltb_lt. destruct He as [He _]. specialize (He eq_refl).
    unfold key_lt, key_eq in *. lia.
  - rewrite Hg. unfold key_lt, key_eq in *. split; [tauto|].
    intros [?|[E ?]]; [done|]. destruct He as [_ He]. specialize (He E). done.
Qed.

Lemma numeric_deref m a : numeric_prices m -> is_nan (Price (deref m a)) = false.
Proof.
  intros H. unfold deref. destruct (m !! a) as [o|] eqn:E; simpl; [by eapply H|done].
Qed.

Ltac less_keys H m :=
  repeat match goal with
  | |- context [bid_less m ?a ?b] =>
      let E := fresh in
      pose proof (BidHeap_Less_key (deref m a) (deref m b)
                    (numeric_deref m a H) (numeric_deref m b H)) as E;
      fold (bid_less m a b) in E; destruct (bid_less m a b)
  | |- context [ask_less m ?a ?b] =>
      let E := fresh in
      pose proof (AskHeap_Less_key (deref m a) (deref m b)
                    (numeric_deref m a H) (numeric_deref m b H)) as E;
      fold (ask_less m a b) in E; destruct (ask_less m a b)
  end;
  unfold key_lt, key_eq in *;
  repeat match goal with
  | |- context [fkey ?p] => destruct (fkey p) as [? [? ?]]
  end; simpl in *.

Lemma bid_less_asym m a b :
  numeric_prices m -> bid_less m a b = true -> bid_less m b a = false.
Proof.
  intros H. less_keys H m; intros; try done.
  all: repeat match goal with E : _ <-> _ |- _ => destruct E end.
  all: intuition lia.
Qed.

Ltac less_close :=
  intros; try done;
  repeat match goal with E : _ <-> _ |- _ => destruct E end;
  intuition lia.

Lemma bid_less_negtrans m a b c :
  numeric_prices m ->
  bid_less m b a = false -> bid_less m c b = false -> bid_less m c a = false.
Proof. intros H. less_keys H m; less_close. Qed.

Lemma ask_less_asym m a b :
  numeric_prices m -> ask_less m a b = true -> ask_less m b a = false.
Proof. intros H. less_keys H m; less_close. Qed.

Lemma ask_less_negtrans m a b c :
  numeric_prices m ->
  ask_less m b a = false -> ask_less m c b = false -> ask_less m c a = false.
Proof. intros H. less_keys H m; less_close. Qed.

(** * The matching loops *)


(** ** The two matching loops as one *)

(** The side of the incoming order. *)
Inductive side : Type := OnBuy | OnSell.

Definition opp (sd : side) (ob : OrderBook) : list addr :=
  match sd with OnBuy => asks ob | OnSell => bids ob end.
Definition own (sd : side) (ob : OrderBook) : list addr :=
  match sd with OnBuy => bids ob | OnSell => asks ob end.
Definition set_opp (sd : side) (ob : OrderBook) (h : list addr) : OrderBook :=
  match sd with OnBuy => set_asks ob h | OnSell => set_bids ob h end.
Definition opp_less (sd : side) (m : gmap addr Order) : addr -> addr -> bool :=
  match sd with OnBuy => ask_less m | OnSell => bid_less m end.
Definition own_less (sd : side) (m : gmap addr Order) : addr -> addr -> bool :=
  match sd with OnBuy => bid_less m | OnSell => ask_less m end.
(** The price test that stops a LIMIT order. *)
Definition gate (sd : side) (incoming best : float64) : bool :=
  match sd with OnBuy => f64_lt incoming best | OnSell => f64_gt incoming best end.
Definition trade_of (sd : side) (seq : Z) (sym : string) (incoming best : Order)
    (qty : Z) : Trade * Z :=
  match sd with
  | OnBuy => newTrade seq sym (ID incoming) (ID best) (Price best) qty
                      (Timestamp incoming)
  | OnSell => newTrade seq sym (ID best) (ID incoming) (Price best) qty
                       (Timestamp incoming)
  end.
Definition push_own (sd : side) (o : addr) (m : gmap addr Order)
    (ob : OrderBook) : result OrderBook :=
  match sd with OnBuy => push_bid o m ob | OnSell => push_ask o m ob end.

Definition match_body (sd : side) (incoming : addr) (s : mstate) : result ctl :=
  let m := m_mem s in
  let ob := m_book s in
  if negb ((0 <? length (opp sd ob)) && (0 <? Remaining (deref m incoming))%Z)
  then Ok (Break s)
  else
    match opp sd ob !! 0 with
    | None => Panic
    | Some best =>
        if negb (IsActive (deref m best)) then
          do p <- heap_Pop (opp_less sd m) (opp sd ob);
          Ok (Continue (mkM m (m_seq s) (set_opp sd ob (snd p)) (m_trades s)))
        else if String.eqb (OType (deref m incoming)) Limit
                && gate sd (Price (deref m incoming)) (Price (deref m best))
        then Ok (Break s)
        else
          let qty := min64 (Remaining (deref m incoming))
                           (Remaining (deref m best)) in
          let '(trade, seq') :=
            trade_of sd (m_seq s) (symbol ob) (deref m incoming)
                     (deref m best) qty in
          let trades := m_trades s ++ [trade] in
          let m1 := update m incoming (add_Filled qty) in
          let m2 := update m1 best (add_Filled qty) in
          if IsFilled (deref m2 best) then
            let m3 := update m2 best (set_Status StatusFilled) in
            do p <- heap_Pop (opp_less sd m3) (opp sd ob);
            Ok (Continue (mkM m3 seq' (set_opp sd ob (snd p)) trades))
          else
            let m3 := update m2 best (set_Status StatusPartial) in
            Ok (Continue (mkM m3 seq' ob trades))
    end.

Definition match_side (sd : side) (incoming : addr) (s : mstate)
  : result mstate :=
  do s1 <- loop (match_body sd incoming) (S (length (opp sd (m_book s)))) s;
  finalizeOrder incoming (push_own sd incoming) s1.

Lemma matchBuy_body_side : matchBuy_body = match_body OnBuy.
Proof. reflexivity. Qed.
Lemma matchSell_body_side : matchSell_body = match_body OnSell.
Proof. reflexivity. Qed.
Lemma matchBuy_side : matchBuy = match_side OnBuy.
Proof. reflexivity. Qed.
Lemma matchSell_side : matchSell = match_side OnSell.
Proof. reflexivity. Qed.

(** The turns of the loop, as a relation. *)
Inductive body_step (sd : side) (incoming : addr) (s : mstate) : ctl -> Prop :=
  | turn_exit :
      opp sd (m_book s) = [] \/ (Remaining (deref (m_mem s) incoming) <= 0)%Z ->
      body_step sd incoming s (Break s)
  | turn_discard best p :
      opp sd (m_book s) !! 0 = Some best ->
      (0 < Remaining (deref (m_mem s) incoming))%Z ->
      IsActive (deref (m_mem s) best) = false ->
      heap_Pop (opp_less sd (m_mem s)) (opp sd (m_book s)) = Ok p ->
      body_step sd incoming s
        (Continue (mkM (m_mem s) (m_seq s) (set_opp sd (m_book s) (snd p))
                       (m_trades s)))
  | turn_gate best :
      opp sd (m_book s) !! 0 = Some best ->
      (0 < Remaining (deref (m_mem s) incoming))%Z ->
      IsActive (deref (m_mem s) best) = true ->
      OType (deref (m_mem s) incoming) = Limit ->
      gate sd (Price (deref (m_mem s) incoming))
              (Price (deref (m_mem s) best)) = true ->
      body_step sd incoming s (Break s)
  | turn_trade best qty trade seq' m2 m3 ob' :
      opp sd (m_book s) !! 0 = Some best ->
      (0 < Remaining (deref (m_mem s) incoming))%Z ->
      IsActive (deref (m_mem s) best) = true ->
      (OType (deref (m_mem s) incoming) <> Limit \/
       gate sd (Price (deref (m_mem s) incoming))
               (Price (deref (m_mem s) best)) = false) ->
      qty = min64 (Remaining (deref (m_mem s) incoming))
                  (Remaining (deref (m_mem s) best)) ->
      trade_of sd (m_seq s) (symbol (m_book s)) (deref (m_mem s) incoming)
               (deref (m_mem s) best) qty = (trade, seq') ->
      m2 = update (update (m_mem s) incoming (add_Filled qty)) best
                  (add_Filled qty) ->
      (IsFilled (deref m2 best) = true /\
       m3 = update m2 best (set_Status StatusFilled) /\
       exists p, heap_Pop (opp_less sd m3) (opp sd (m_book s)) = Ok p /\
                 ob' = set_opp sd (m_book s) (snd p))
      \/ (IsFilled (deref m2 best) = false /\
          m3 = update m2 best (set_Status StatusPartial) /\
          ob' = m_book s) ->
      body_step sd incoming s
        (Continue (mkM m3 seq' ob' (m_trades s ++ [trade]))).

Lemma match_body_step sd incoming s c :
  match_body sd incoming s = Ok c -> body_step sd incoming s c.
Proof.
  unfold match_body.
  destruct (0 <? length (opp sd (m_book s))) eqn:Hlen; cbn [andb negb].
  2: { intros [= <-]. apply turn_exit. left.
       apply Nat.ltb_ge in Hlen. destruct (opp sd (m_book s)); [done|simpl in *; lia]. }
  destruct (0 <? Remaining (deref (m_mem s) incoming))%Z eqn:Hrem; cbn [negb].
  2: { intros [= <-]. apply turn_exit. right. by apply Z.ltb_ge in Hrem. }
  apply Z.ltb_lt in Hrem.
  destruct (opp sd (m_book s) !! 0) as [best|] eqn:Htop; [|done].
  destruct (IsActive (deref (m_mem s) best)) eqn:Hact; cbn [negb].
  2: { destruct (heap_Pop (opp_less sd (m_mem s)) (opp sd (m_book s))) as [p| |] eqn:Hpop; try done.
       intros [= <-]. by eapply turn_discard. }
  set (qty := min64 (Remaining (deref (m_mem s) incoming))
                    (Remaining (deref (m_mem s) best))).
  set (m2 := update (update (m_mem s) incoming (add_Filled qty)) best
                    (add_Filled qty)).
  destruct (trade_of sd (m_seq s) (symbol (m_book s)) (deref (m_mem s) incoming)
              (deref (m_mem s) best) qty) as [trade seq'] eqn:Ht.
  assert (forall c,
    (if IsFilled (deref m2 best)
     then do p <- heap_Pop (opp_less sd (update m2 best (set_Status StatusFilled)))
                           (opp sd (m_book s));
          Ok (Continue (mkM (update m2 best (set_Status StatusFilled)) seq'
                            (set_opp sd (m_book s) (snd p))
                            (m_trades s ++ [trade])))
     else Ok (Continue (mkM (update m2 best (set_Status StatusPartial)) seq'
                            (m_book s) (m_trades s ++ [trade])))) = Ok c ->
    (OType (deref (m_mem s) incoming) <> Limit \/
     gate sd (Price (deref (m_mem s) incoming))
             (Price (deref (m_mem s) best)) = false) ->
    body_step sd incoming s c) as Htrade.
  { intros c' Hc' Hg. destruct (IsFilled (deref m2 best)) eqn:Hf.
    - destruct (heap_Pop (opp_less sd (update m2 best (set_Status StatusFilled)))
                         (opp sd (m_book s))) as [p| |] eqn:Hpop; try done.
      injection Hc' as <-.
      eapply (turn_trade sd incoming s best qty trade seq' m2); try done.
      left. split; [done|]. split; [done|]. by exists p.
    - injection Hc' as <-.
      eapply (turn_trade sd incoming s best qty trade seq' m2); try done.
      right. done. }
  destruct (String.eqb_spec (OType (deref (m_mem s) incoming)) Limit) as [HL|HL];
    cbn [andb].
  - destruct (gate sd (Price (deref (m_mem s) incoming))
                      (Price (deref (m_mem s) best))) eqn:Hg.
    + intros [= <-]. by eapply turn_gate.
    + intros H. apply Htrade; [exact H|by right].
  - intros H. apply Htrade; [exact H|by left].
Qed.

(** * What a call keeps of the store *)

Definition in_int64 (z : Z) : Prop := (- 2 ^ 63 <= z < 2 ^ 63)%Z.

(** The [int64] fields hold [int64] values. *)
Definition well_typed (m : gmap addr Order) : Prop :=
  forall a o, m !! a = Some o -> in_int64 (Quantity o) /\ in_int64 (Filled o).

(** The fields no method of the book writes. *)
Definition same_fields (o o' : Order) : Prop :=
  ID o' = ID o /\ Symbol o' = Symbol o /\ OSide o' = OSide o /\
  OType o' = OType o /\ Price o' = Price o /\ Quantity o' = Quantity o /\
  Timestamp o' = Timestamp o.

Definition frame (m m' : gmap addr Order) : Prop :=
  (forall a, same_fields (deref m a) (deref m' a)) /\
  (forall a, is_Some (m !! a) -> is_Some (m' !! a)).

Definition ctl_state (c : ctl) : mstate :=
  match c with Continue s => s | Break s => s end.

Ltac pow_norm :=
  change (2 ^ 63)%Z with 9223372036854775808%Z in *;
  change (2 ^ 64)%Z with 18446744073709551616%Z in *.

Lemma wrap64_spec z :
  exists k, wrap64 z = (z + k * 2 ^ 64)%Z /\ in_int64 (wrap64 z).
Proof.
  unfold wrap64, in_int64. pow_norm.
  exists (- ((z + 9223372036854775808) / 18446744073709551616))%Z.
  pose proof (Z.div_mod (z + 9223372036854775808) 18446744073709551616 ltac:(lia)).
  pose proof (Z.mod_pos_bound (z + 9223372036854775808) 18446744073709551616 ltac:(lia)).
  lia.
Qed.

Lemma wrap64_id z : in_int64 z -> wrap64 z = z.
Proof.
  intros Hz. destruct (wrap64_spec z) as (k & E & R).
  unfold in_int64 in *. pow_norm. lia.
Qed.

Lemma deref_update m a f b :
  deref (update m a f) b = if decide (a = b) then f (deref m a) else deref m b.
Proof.
  unfold update, deref at 1. rewrite lookup_insert. by case_decide.
Qed.

Lemma deref_update_eq m a f : deref (update m a f) a = f (deref m a).
Proof. rewrite deref_update. by rewrite decide_True. Qed.

Lemma deref_update_ne m a f b : a <> b -> deref (update m a f) b = deref m b.
Proof. intros. rewrite deref_update. by rewrite decide_False. Qed.

Lemma same_fields_refl o : same_fields o o.
Proof. by repeat split. Qed.

Lemma same_fields_trans o1 o2 o3 :
  same_fields o1 o2 -> same_fields o2 o3 -> same_fields o1 o3.
Proof. unfold same_fields. intuition congruence. Qed.

Lemma frame_refl m : frame m m.
Proof. split; [intros; apply same_fields_refl|done]. Qed.

Lemma frame_trans m1 m2 m3 : frame m1 m2 -> frame m2 m3 -> frame m1 m3.
Proof.
  intros [F1 A1] [F2 A2]. split.
  - intros a. by eapply same_fields_trans.
  - eauto.
Qed.

Lemma frame_update m a f :
  (forall o, same_fields o (f o)) -> frame m (update m a f).
Proof.
  intros Hf. split.
  - intros b. rewrite deref_update. case_decide; subst; [done|apply same_fields_refl].
  - intros b Hb. unfold update. rewrite lookup_insert. by case_decide.
Qed.

Lemma same_fields_set_Status st o : same_fields o (set_Status st o).
Proof. by repeat split. Qed.

Lemma same_fields_add_Filled q o : same_fields o (add_Filled q o).
Proof. by repeat split. Qed.

Lemma well_typed_deref m a :
  well_typed m -> in_int64 (Quantity (deref m a)) /\ in_int64 (Filled (deref m a)).
Proof.
  intros H. unfold deref. destruct (m !! a) as [o|] eqn:E; simpl; [by eapply H|].
  unfold in_int64. pow_norm. lia.
Qed.

Lemma well_typed_update m a f :
  well_typed m ->
  (forall o, in_int64 (Quantity o) -> in_int64 (Filled o) ->
             in_int64 (Quantity (f o)) /\ in_int64 (Filled (f o))) ->
  well_typed (update m a f).
Proof.
  intros Hm Hf b o. unfold update. rewrite lookup_insert.
  case_decide; [|by apply Hm]. intros [= <-].
  destruct (well_typed_deref m a Hm). by apply Hf.
Qed.

Lemma well_typed_set_Status m a st :
  well_typed m -> well_typed (update m a (set_Status st)).
Proof. intros. by apply well_typed_update. Qed.

Lemma well_typed_add_Filled m a q :
  well_typed m -> well_typed (update m a (add_Filled q)).
Proof.
  intros. apply well_typed_update; [done|]. intros o Hq _. split; [done|].
  simpl. unfold add64. by destruct (wrap64_spec (Filled o + q)) as (? & _ & ?).
Qed.

Lemma numeric_frame m m' :
  frame m m' -> numeric_prices m' -> numeric_prices m.
Proof.
  intros [F A] Hn a o Ha.
  destruct (A a) as [o' Ho']; [by eexists|].
  specialize (F a). unfold deref in F. rewrite Ha, Ho' in F. simpl in F.
  destruct F as (_ & _ & _ & _ & <- & _). by eapply Hn.
Qed.

Lemma heap_Pop_top (less : addr -> addr -> bool) h best p :
  h !! 0 = Some best -> heap_Pop less h = Ok p ->
  fst p = best /\ h ≡ₚ best :: snd p.
Proof.
  intros Htop Hpop.
  destruct (heap_Pop_total less h best Htop) as (h' & E & Hperm).
  rewrite E in Hpop. injection Hpop as <-. done.
Qed.

(** What one turn of a matching loop keeps. *)
Lemma body_step_frame sd incoming s c :
  body_step sd incoming s c ->
  frame (m_mem s) (m_mem (ctl_state c)) /\
  own sd (m_book (ctl_state c)) = own sd (m_book s) /\
  symbol (m_book (ctl_state c)) = symbol (m_book s) /\
  (forall x, x ∈ opp sd (m_book (ctl_state c)) -> x ∈ opp sd (m_book s)) /\
  (well_typed (m_mem s) -> well_typed (m_mem (ctl_state c))).
Proof.
  assert (forall ob h, own sd (set_opp sd ob h) = own sd ob
                       /\ symbol (set_opp sd ob h) = symbol ob
                       /\ opp sd (set_opp sd ob h) = h) as Hset
    by (intros; by destruct sd).
  intros [Hex|best p Htop Hrem Hact Hpop|best Htop Hrem Hact HL Hg
         |best qty trade seq' m2 m3 ob' Htop Hrem Hact Hg Hq Ht Hm2 Hcase];
    cbn [ctl_state m_mem m_book].
  - split; [apply frame_refl|]. split_and!; auto.
  - destruct (Hset (m_book s) (snd p)) as (-> & -> & ->).
    destruct (heap_Pop_top _ _ _ _ Htop Hpop) as [_ Hperm].
    split; [apply frame_refl|]. split_and!; try done.
    intros x Hx. rewrite Hperm. by apply elem_of_cons; right.
  - split; [apply frame_refl|]. split_and!; auto.
  - assert (frame (m_mem s) m2) as Hf2.
    { subst m2. eapply frame_trans; apply frame_update; apply same_fields_add_Filled. }
    assert (well_typed (m_mem s) -> well_typed m2) as Hw2
      by (intros; subst m2; by do 2 apply well_typed_add_Filled).
    destruct Hcase as [(Hf & -> & p & Hpop & ->)|(Hf & -> & ->)].
    + destruct (Hset (m_book s) (snd p)) as (-> & -> & ->).
      destruct (heap_Pop_top _ _ _ _ Htop Hpop) as [_ Hperm].
      split.
      { eapply frame_trans; [exact Hf2|]. apply frame_update.
        apply same_fields_set_Status. }
      split_and!; try done.
      * intros x Hx. rewrite Hperm. by apply elem_of_cons; right.
      * intros. by apply well_typed_set_Status, Hw2.
    + split.
      { eapply frame_trans; [exact Hf2|]. apply frame_update.
        apply same_fields_set_Status. }
      split_and!; try done.
      intros. by apply well_typed_set_Status, Hw2.
Qed.


(** * Termination of [Submit] *)

Lemma match_body_total sd incoming s :
  exists c, match_body sd incoming s = Ok c.
Proof.
  unfold match_body.
  destruct (0 <? length (opp sd (m_book s))) eqn:Hlen; cbn [andb negb];
    [|by eexists].
  destruct (0 <? Remaining (deref (m_mem s) incoming))%Z; cbn [negb];
    [|by eexists].
  apply Nat.ltb_lt in Hlen.
  destruct (lookup_lt_is_Some_2 (opp sd (m_book s)) 0 Hlen) as [best Htop].
  rewrite Htop.
  destruct (IsActive (deref (m_mem s) best)); cbn [negb].
  2: { destruct (heap_Pop_total (opp_less sd (m_mem s)) _ _ Htop) as (h' & -> & _).
       by eexists. }
  destruct (String.eqb (OType (deref (m_mem s) incoming)) Limit
            && gate sd (Price (deref (m_mem s) incoming))
                    (Price (deref (m_mem s) best))); [by eexists|].
  set (qty := min64 (Remaining (deref (m_mem s) incoming))
                    (Remaining (deref (m_mem s) best))).
  set (m2 := update (update (m_mem s) incoming (add_Filled qty)) best
                    (add_Filled qty)).
  destruct (trade_of sd (m_seq s) (symbol (m_book s)) (deref (m_mem s) incoming)
              (deref (m_mem s) best) qty) as [trade seq'].
  destruct (IsFilled (deref m2 best)); [|by eexists].
  destruct (heap_Pop_total (opp_less sd (update m2 best (set_Status StatusFilled)))
              _ _ Htop) as (h' & -> & _).
  by eexists.
Qed.

(** A turn that trades without removing the resting order has filled the
    incoming order. *)
Lemma trade_fills_incoming m incoming best :
  well_typed m ->
  (0 < Remaining (deref m incoming))%Z ->
  let qty := min64 (Remaining (deref m incoming)) (Remaining (deref m best)) in
  let m2 := update (update m incoming (add_Filled qty)) best (add_Filled qty) in
  IsFilled (deref m2 best) = false ->
  (Remaining (deref m2 incoming) <= 0)%Z.
Proof.
  intros Hw Hrem qty m2 Hf. subst m2.
  destruct (well_typed_deref m incoming Hw) as [HQi HFi].
  destruct (well_typed_deref m best Hw) as [HQb HFb].
  unfold IsFilled in Hf. apply Z.leb_gt in Hf.
  revert Hf. rewrite !deref_update. subst qty.
  unfold Remaining, min64, sub64, add64 in *.
  destruct (decide (incoming = best)) as [->|Hne].
  - rewrite Z.ltb_irrefl. rewrite !(decide_True (P := best = best)) by done.
    cbn [add_Filled set_Filled Filled Quantity].
    unfold add64.
    set (Q := Quantity (deref m best)) in *. set (F := Filled (deref m best)) in *.
    destruct (wrap64_spec (Q - F)) as (k1 & E1 & R1).
    destruct (wrap64_spec (F + wrap64 (Q - F))) as (k2 & E2 & R2).
    destruct (wrap64_spec (wrap64 (F + wrap64 (Q - F)) + wrap64 (Q - F)))
      as (k3 & E3 & R3).
    destruct (wrap64_spec (Q - wrap64 (wrap64 (F + wrap64 (Q - F)) + wrap64 (Q - F))))
      as (k4 & E4 & R4).
    unfold in_int64 in *. pow_norm. lia.
  - repeat first [rewrite decide_True by done | rewrite decide_False by done].
    cbn [add_Filled set_Filled Filled Quantity]. unfold add64.
    set (Qi := Quantity (deref m incoming)) in *.
    set (Fi := Filled (deref m incoming)) in *.
    set (Qb := Quantity (deref m best)) in *.
    set (Fb := Filled (deref m best)) in *.
    destruct (wrap64_spec (Qi - Fi)) as (k1 & E1 & R1).
    destruct (wrap64_spec (Qb - Fb)) as (k2 & E2 & R2).
    destruct (wrap64 (Qi - Fi) <? wrap64 (Qb - Fb))%Z eqn:Hlt.
    + intros _.
      destruct (wrap64_spec (Fi + wrap64 (Qi - Fi))) as (k3 & E3 & R3).
      destruct (wrap64_spec (Qi - wrap64 (Fi + wrap64 (Qi - Fi)))) as (k4 & E4 & R4).
      unfold in_int64 in *. pow_norm. lia.
    + destruct (wrap64_spec (Fb + wrap64 (Qb - Fb))) as (k3 & E3 & R3).
      unfold in_int64 in *. pow_norm. lia.
Qed.


Lemma loop_S body fuel s :
  loop body (S fuel) s =
    do c <- body s;
    match c with
    | Continue s' => loop body fuel s'
    | Break s' => Ok s'
    end.
Proof. reflexivity. Qed.

(** The rule of the [for] loop: what every turn keeps holds at the exit. *)
Lemma loop_inv body (P : mstate -> Prop) fuel s s1 :
  (forall s c, P s -> body s = Ok c -> P (ctl_state c)) ->
  P s -> loop body fuel s = Ok s1 -> P s1.
Proof.
  intros Hstep. revert s. induction fuel as [|fuel IH]; intros s HP H; [done|].
  rewrite loop_S in H. destruct (body s) as [c| |] eqn:Hc; try done.
  cbn [rbind] in H. specialize (Hstep s c HP Hc).
  destruct c as [s'|s']; cbn [ctl_state] in Hstep.
  - eapply IH; [exact Hstep|exact H].
  - injection H as <-. exact Hstep.
Qed.

(** The loop ends on a turn that breaks, in the state it leaves. *)
Lemma loop_exit sd incoming fuel s s1 :
  loop (match_body sd incoming) fuel s = Ok s1 ->
  body_step sd incoming s1 (Break s1).
Proof.
  revert s. induction fuel as [|fuel IH]; intros s H; [done|].
  rewrite loop_S in H.
  destruct (match_body sd incoming s) as [c| |] eqn:Hc; try done.
  cbn [rbind] in H. destruct c as [s'|s'].
  - eapply IH; exact H.
  - injection H as <-. apply match_body_step in Hc.
    inversion Hc; subst; done.
Qed.

Lemma Remaining_set_Status st o : Remaining (set_Status st o) = Remaining o.
Proof. done. Qed.

Lemma loop_total sd incoming fuel s :
  well_typed (m_mem s) ->
  length (opp sd (m_book s)) < fuel \/
    ((Remaining (deref (m_mem s) incoming) <= 0)%Z /\ 0 < fuel) ->
  exists s', loop (match_body sd incoming) fuel s = Ok s'.
Proof.
  assert (forall ob h, opp sd (set_opp sd ob h) = h) as Hset
    by (intros; by destruct sd).
  revert s. induction fuel as [|fuel IH]; intros s Hw Hm; [lia|].
  rewrite loop_S. destruct (match_body_total sd incoming s) as [c Hc].
  rewrite Hc. cbn [rbind]. apply match_body_step in Hc as Hstep.
  destruct (body_step_frame _ _ _ _ Hstep) as (_ & _ & _ & _ & Hw').
  specialize (Hw' Hw).
  destruct c as [s'|s']; [|by eexists]. cbn [ctl_state] in Hw'.
  apply IH; [done|].
  inversion Hstep as [|best p Htop Hrem Hact Hpop|
                      |best qty trade seq' m2 m3 ob' Htop Hrem Hact Hg Hq Ht Hm2 Hcase];
    subst; cbn [m_book m_mem].
  - destruct (heap_Pop_top _ _ _ _ Htop Hpop) as [_ Hperm].
    apply Permutation_length in Hperm. simpl in Hperm.
    rewrite Hset. left. lia.
  - destruct Hcase as [(Hf & -> & p & Hpop & ->)|(Hf & -> & ->)].
    + destruct (heap_Pop_top _ _ _ _ Htop Hpop) as [_ Hperm].
      apply Permutation_length in Hperm. simpl in Hperm.
      rewrite Hset. left. lia.
    + right. pose proof (lookup_lt_Some _ _ _ Htop). split; [|lia].
      rewrite deref_update.
      pose proof (trade_fills_incoming (m_mem s) incoming best Hw Hrem Hf) as Hr.
      cbv zeta in Hr. case_decide; subst; by rewrite ?Remaining_set_Status.
Qed.

Lemma push_own_total sd o m ob :
  exists ob', push_own sd o m ob = Ok ob'.
Proof.
  destruct sd; unfold push_own, push_bid, push_ask.
  - destruct (heap_Push_total (bid_less m) (bids ob) o) as (h & -> & _).
    by eexists.
  - destruct (heap_Push_total (ask_less m) (asks ob) o) as (h & -> & _).
    by eexists.
Qed.

Lemma finalizeOrder_total sd o s :
  exists s', finalizeOrder o (push_own sd o) s = Ok s'.
Proof.
  unfold finalizeOrder.
  destruct (IsFilled (deref (m_mem s) o)); [by eexists|].
  destruct (String.eqb (OType (deref (m_mem s) o)) IOC); [by eexists|].
  destruct (String.eqb (OType (deref (m_mem s) o)) Market
            && (0 <? Remaining (deref (m_mem s) o))%Z); [by eexists|].
  destruct (String.eqb (OType (deref (m_mem s) o)) Limit
            && (0 <? Remaining (deref (m_mem s) o))%Z); [|by eexists].
  set (m' := if (0 <? Filled (deref (m_mem s) o))%Z
             then update (m_mem s) o (set_Status StatusPartial) else m_mem s).
  destruct (push_own_total sd o m' (m_book s)) as [ob' ->]. by eexists.
Qed.

Lemma match_side_total sd incoming s :
  well_typed (m_mem s) -> exists s', match_side sd incoming s = Ok s'.
Proof.
  intros Hw. unfold match_side.
  destruct (loop_total sd incoming (S (length (opp sd (m_book s)))) s Hw)
    as [s1 ->]; [left; lia|].
  cbn [rbind]. apply finalizeOrder_total.
Qed.

(** [Submit] returns: no panic, and the loops end within their bound. *)
Lemma OrderBook_Submit_total a b :
  well_typed (mem b) ->
  exists trades b', OrderBook_Submit (Some a) b = Ok (trades, b').
Proof.
  intros Hw. unfold OrderBook_Submit, match_.
  set (s := mkM (mem b) (globalTradeSeq b) (book b) []).
  destruct (String.eqb (OSide (deref (m_mem s) a)) Buy).
  - destruct (match_side_total OnBuy a s Hw) as [s' Hs].
    rewrite matchBuy_side, Hs. by do 2 eexists.
  - destruct (String.eqb (OSide (deref (m_mem s) a)) Sell).
    + destruct (match_side_total OnSell a s Hw) as [s' Hs].
      rewrite matchSell_side, Hs. by do 2 eexists.
    + by do 2 eexists.
Qed.

(** * Cancel *)

Definition entries (ob : OrderBook) : list addr := bids ob ++ asks ob.

Lemma cancel_target_Some m h orderID a :
  cancel_target m h orderID = Some a ->
  a ∈ h /\ ID (deref m a) = orderID /\ IsActive (deref m a) = true.
Proof.
  unfold cancel_target. intros H. apply find_some in H as [Hin Hb].
  apply andb_true_iff in Hb as [Hid Hact]. apply Z.eqb_eq in Hid.
  by rewrite list_elem_of_In.
Qed.

Lemma cancel_target_None m h orderID a :
  cancel_target m h orderID = None -> a ∈ h ->
  ID (deref m a) = orderID -> IsActive (deref m a) = false.
Proof.
  unfold cancel_target. intros H Hin Hid. rewrite list_elem_of_In in Hin.
  pose proof (find_none _ _ H a Hin) as Hb. cbv beta in Hb.
  apply andb_false_iff in Hb as [Hb|Hb]; [|done].
  apply Z.eqb_neq in Hb. done.
Qed.

(** The three outcomes of [Cancel]. *)
Lemma OrderBook_Cancel_cases orderID b :
  (exists a, a ∈ entries (book b) /\ ID (deref (mem b) a) = orderID /\
             IsActive (deref (mem b) a) = true /\
             OrderBook_Cancel orderID b =
               (true, mkB (update (mem b) a (set_Status StatusCancelled))
                          (globalTradeSeq b) (book b)))
  \/ ((forall a, a ∈ entries (book b) -> ID (deref (mem b) a) = orderID ->
                 IsActive (deref (mem b) a) = false) /\
      OrderBook_Cancel orderID b = (false, b)).
Proof.
  unfold OrderBook_Cancel, entries.
  destruct (cancel_target (mem b) (bids (book b)) orderID) as [a|] eqn:Hb.
  { left. exists a. apply cancel_target_Some in Hb as (? & ? & ?).
    split_and!; try done. apply elem_of_app. by left. }
  destruct (cancel_target (mem b) (asks (book b)) orderID) as [a|] eqn:Ha.
  { left. exists a. apply cancel_target_Some in Ha as (? & ? & ?).
    split_and!; try done. apply elem_of_app. by right. }
  right. split; [|done]. intros a Hin Hid.
  apply elem_of_app in Hin as [Hin|Hin].
  - by apply (cancel_target_None _ _ _ _ Hb).
  - by apply (cancel_target_None _ _ _ _ Ha).
Qed.

Lemma IsActive_cancelled o : IsActive (set_Status StatusCancelled o) = false.
Proof. done. Qed.

(** C9. [Cancel] returns true exactly when the book holds an active order
    with the identifier; it then marks the first such order, bids before
    asks, CANCELLED and changes nothing else.  For any other identifier
    (absent, cancelled, filled) it returns false and the state is
    unchanged, and the gateway reports "non trouve".  Hence a second cancel
    of an order whose identifier no other resting order bears returns false
    and leaves the book as it is. *)
Theorem cancel_semantics orderID b :
  let r := OrderBook_Cancel orderID b in
  (r.1 = true <->
     exists a, a ∈ entries (book b) /\ ID (deref (mem b) a) = orderID /\
               IsActive (deref (mem b) a) = true) /\
  (r.1 = true ->
     exists a, a ∈ entries (book b) /\ ID (deref (mem b) a) = orderID /\
               IsActive (deref (mem b) a) = true /\
               r.2 = mkB (update (mem b) a (set_Status StatusCancelled))
                         (globalTradeSeq b) (book b) /\
               Status (deref (mem r.2) a) = StatusCancelled /\
               ((forall a', a' ∈ entries (book b) ->
                            ID (deref (mem b) a') = orderID -> a' = a) ->
                OrderBook_Cancel orderID r.2 = (false, r.2))) /\
  (r.1 = false -> r.2 = b) /\
  (forall gw sym,
     books gw !! sym = Some (book b) -> g_mem gw = mem b ->
     g_seq gw = globalTradeSeq b ->
     (Gateway_Cancel sym orderID gw).1 =
       (if r.1 then None else Some (ErrNonTrouve orderID)) /\
     (r.1 = false -> (Gateway_Cancel sym orderID gw).2 = gw)).
Proof.
  cbv zeta.
  destruct (OrderBook_Cancel_cases orderID b)
    as [(a & Hin & Hid & Hact & E)|[Hnone E]]; rewrite E; cbn [fst snd].
  - split_and!.
    + split; [eauto|done].
    + intros _. exists a. split_and!; try done.
      * cbn [mem]. by rewrite deref_update_eq.
      * intros Huniq.
        destruct (OrderBook_Cancel_cases orderID
                    (mkB (update (mem b) a (set_Status StatusCancelled))
                         (globalTradeSeq b) (book b)))
          as [(a' & Hin' & Hid' & Hact' & _)|[_ E']]; [|done].
        cbn [mem book] in *. exfalso.
        rewrite deref_update in Hid', Hact'.
        destruct (decide (a = a')) as [<-|Hne]; [done|].
        apply Hne. symmetry. by apply Huniq.
    + done.
    + intros gw sym Hb Hm Hs. unfold Gateway_Cancel. rewrite Hb, Hm, Hs.
      destruct b as [m sq ob]. cbn [mem globalTradeSeq book] in *.
      rewrite E. done.
  - split_and!.
    + split; [done|]. intros (a & Hin & Hid & Hact).
      rewrite (Hnone a Hin Hid) in Hact. done.
    + done.
    + done.
    + intros gw sym Hb Hm Hs. unfold Gateway_Cancel. rewrite Hb, Hm, Hs.
      destruct b as [m sq ob]. cbn [mem globalTradeSeq book] in *.
      rewrite E. cbn [negb fst snd mem globalTradeSeq book].
      split; [done|]. intros _. destruct gw as [gm gs gb gl].
      cbn in *. subst. by rewrite insert_id.
Qed.

(** C10. [Cancel] adds no entry to and removes none from either heap, and
    writes no field of any order but the [Status] of at most one order,
    the active one it targets, which becomes CANCELLED. *)
Theorem cancel_frame orderID b :
  let b' := (OrderBook_Cancel orderID b).2 in
  book b' = book b /\
  globalTradeSeq b' = globalTradeSeq b /\
  (forall a, is_Some (mem b' !! a) <-> is_Some (mem b !! a)) /\
  (forall a, same_fields (deref (mem b) a) (deref (mem b') a) /\
             Filled (deref (mem b') a) = Filled (deref (mem b) a)) /\
  (forall a, Status (deref (mem b') a) <> Status (deref (mem b) a) ->
             Status (deref (mem b') a) = StatusCancelled /\
             IsActive (deref (mem b) a) = true /\
             ID (deref (mem b) a) = orderID /\
             a ∈ entries (book b) /\
             forall a', Status (deref (mem b') a') <> Status (deref (mem b) a') ->
                        a' = a).
Proof.
  cbv zeta.
  destruct (OrderBook_Cancel_cases orderID b)
    as [(a & Hin & Hid & Hact & E)|[Hnone E]]; rewrite E; cbn [fst snd].
  2: { split_and!; done. }
  cbn [mem globalTradeSeq book].
  assert (is_Some (mem b !! a)) as Halloc.
  { unfold deref in Hact. destruct (mem b !! a); [by eexists|done]. }
  split_and!; try done.
  - intros x. unfold update. rewrite lookup_insert_is_Some.
    split; [intros [<-|[_ ?]]; done|]. intros ?.
    destruct (decide (a = x)); [by left|by right].
  - intros x. rewrite deref_update. case_decide; subst; [|split; [apply same_fields_refl|done]].
    split; [apply same_fields_set_Status|done].
  - intros x. rewrite deref_update. case_decide; [subst|done]. intros _.
    split_and!; try done.
    intros a'. rewrite deref_update. case_decide; done.
Qed.

(** * The gateway *)

(** The checks a submitted order goes through. *)
Inductive rule : Type :=
  | RuleSymbolEmpty
  | RuleSymbolRegistered
  | RuleSide
  | RuleType
  | RuleQuantity
  | RulePriceLow
  | RulePriceHigh.

(** The test the code makes for each check: the conditions of the [if]s of
    [validateOrder] and the map lookup of [Submit], as they are written.
    The two price tests are Go comparisons, false when the price is NaN. *)
Definition violates (gw : Gateway) (o : Order) (r : rule) : bool :=
  match r with
  | RuleSymbolEmpty => String.eqb (Symbol o) EmptyString
  | RuleSymbolRegistered => bool_decide (books gw !! Symbol o = None)
  | RuleSide => negb (String.eqb (OSide o) Buy) && negb (String.eqb (OSide o) Sell)
  | RuleType => negb (String.eqb (OType o) Limit)
                && negb (String.eqb (OType o) Market)
                && negb (String.eqb (OType o) IOC)
  | RuleQuantity => (Quantity o <=? 0)%Z
  | RulePriceLow => String.eqb (OType o) Limit && f64_le (Price o) f64_zero
  | RulePriceHigh => String.eqb (OType o) Limit && f64_gt (Price o) f64_1e6
  end.

(** The order of the specification's table: the symbol's two checks come
    second. *)
Definition table_order : list rule :=
  [RuleSymbolEmpty; RuleSymbolRegistered; RuleSide; RuleType; RuleQuantity;
   RulePriceLow; RulePriceHigh].

(** The order of [validateOrder] followed by the lookup in [Submit]. *)
Definition code_order : list rule :=
  [RuleSymbolEmpty; RuleSide; RuleType; RuleQuantity; RulePriceLow;
   RulePriceHigh; RuleSymbolRegistered].

Definition first_failure (rules : list rule) (gw : Gateway) (o : Order)
  : option rule :=
  find (violates gw o) rules.

(** The rule an error of [Submit] reports. *)
Definition rule_of_error (e : SubmitError) : option rule :=
  match e with
  | ErrNonSupporte _ _ => Some RuleSymbolRegistered
  | ErrRejete _ err =>
      match Message err with
      | msg_ordre_nil => None
      | msg_symbole_vide => Some RuleSymbolEmpty
      | msg_cote_invalide _ => Some RuleSide
      | msg_type_invalide _ => Some RuleType
      | msg_quantite _ => Some RuleQuantity
      | msg_prix_limite _ => Some RulePriceLow
      | msg_prix_eleve _ => Some RulePriceHigh
      end
  end.

(** The gateway after a rejection: the order is marked, nothing else moves. *)
Definition rejected (a : addr) (gw : Gateway) : Gateway :=
  mkGateway (update (g_mem gw) a (set_Status StatusRejected)) (g_seq gw)
            (books gw) (log gw).

Lemma validateOrder_first_failure gw a :
  match validateOrder (g_mem gw) (Some a) with
  | Some err =>
      exists r, first_failure code_order gw (deref (g_mem gw) a) = Some r /\
                r <> RuleSymbolRegistered /\
                forall id, rule_of_error (ErrRejete id err) = Some r
  | None =>
      first_failure code_order gw (deref (g_mem gw) a) =
        if bool_decide (books gw !! Symbol (deref (g_mem gw) a) = None)
        then Some RuleSymbolRegistered else None
  end.
Proof.
  unfold validateOrder, first_failure, code_order. cbn [find violates].
  set (o := deref (g_mem gw) a).
  destruct (String.eqb (Symbol o) EmptyString); [by eexists|].
  destruct (negb (String.eqb (OSide o) Buy) && negb (String.eqb (OSide o) Sell));
    [by eexists|].
  destruct (negb (String.eqb (OType o) Limit) && negb (String.eqb (OType o) Market)
            && negb (String.eqb (OType o) IOC)); [by eexists|].
  destruct (Quantity o <=? 0)%Z; [by eexists|].
  destruct (String.eqb (OType o) Limit && f64_le (Price o) f64_zero); [by eexists|].
  destruct (String.eqb (OType o) Limit && f64_gt (Price o) f64_1e6); [by eexists|].
  done.
Qed.

(** C6. A nil order: [validateOrder] answers with the error on the field
    "order", and [Submit] then writes [o.Status] through the nil pointer:
    the call panics instead of returning the rejection. *)
Theorem Gateway_Submit_nil_panics gw :
  validateOrder (g_mem gw) None = Some (mkValidationError "order" msg_ordre_nil)
  /\ Gateway_Submit None gw = Panic.
Proof. split; reflexivity. Qed.

(** ** The rules as the specification words them

    The table of the specification asks of a LIMIT price that it be > 0 and
    that it be <= 1,000,000; a NaN price is neither.  The other rules read
    as the code tests them. *)
Definition breaks (gw : Gateway) (o : Order) (r : rule) : bool :=
  match r with
  | RuleSymbolEmpty => String.eqb (Symbol o) EmptyString
  | RuleSymbolRegistered => bool_decide (books gw !! Symbol o = None)
  | RuleSide => negb (String.eqb (OSide o) Buy || String.eqb (OSide o) Sell)
  | RuleType => negb (String.eqb (OType o) Limit || String.eqb (OType o) Market
                      || String.eqb (OType o) IOC)
  | RuleQuantity => negb (0 <? Quantity o)%Z
  | RulePriceLow =>
      String.eqb (OType o) Limit && negb (f64_gt (Price o) f64_zero)
  | RulePriceHigh =>
      String.eqb (OType o) Limit && negb (f64_le (Price o) f64_1e6)
  end.

(** The first rule of a list that an order breaks. *)
Definition first_broken (rules : list rule) (gw : Gateway) (o : Order)
  : option rule :=
  find (breaks gw o) rules.

(** For numbers, [x <= y] is the negation of [y < x]. *)
Lemma f64_le_not_lt x y :
  is_nan x = false -> is_nan y = false -> f64_le x y = negb (f64_lt y x).
Proof.
  intros Hx Hy.
  pose proof (f64_le_key x y Hx Hy) as Hle.
  pose proof (f64_lt_key y x Hy Hx) as Hlt.
  unfold key_lt, key_eq in *.
  destruct (fkey x) as [x1 [x2 x3]], (fkey y) as [y1 [y2 y3]]; simpl in *.
  destruct (f64_le x y), (f64_lt y x); simpl; try done.
  - exfalso. destruct Hle as [Hle _]. destruct Hlt as [Hlt _].
    specialize (Hle eq_refl). specialize (Hlt eq_refl). lia.
  - exfalso. destruct Hle as [_ Hle]. destruct Hlt as [_ Hlt].
    assert ((x1 < y1 \/ x1 = y1 /\ (x2 < y2 \/ x2 = y2 /\ x3 < y3)) \/
            x1 = y1 /\ x2 = y2 /\ x3 = y3 \/
            (y1 < x1 \/ y1 = x1 /\ (y2 < x2 \/ y2 = x2 /\ y3 < x3)))%Z
      as [H|[H|H]] by lia.
    + by specialize (Hle (or_introl H)).
    + by specialize (Hle (or_intror H)).
    + by specialize (Hlt H).
Qed.

(** When the price of a LIMIT order is a number, the code's tests are the
    rules of the table. *)
Lemma breaks_violates gw o r :
  (OType o = Limit -> is_nan (Price o) = false) ->
  breaks gw o r = violates gw o r.
Proof.
  intros Hn. destruct r; cbn [breaks violates]; try done.
  - by rewrite negb_orb.
  - by rewrite !negb_orb.
  - by rewrite Z.leb_antisym.
  - destruct (String.eqb_spec (OType o) Limit) as [HL|]; [|done].
    cbn [andb]. unfold f64_gt. fold (f64_lt f64_zero (Price o)).
    by rewrite (f64_le_not_lt (Price o) f64_zero (Hn HL) eq_refl).
  - destruct (String.eqb_spec (OType o) Limit) as [HL|]; [|done].
    cbn [andb]. unfold f64_gt. fold (f64_lt f64_1e6 (Price o)).
    by rewrite (f64_le_not_lt (Price o) f64_1e6 (Hn HL) eq_refl), negb_involutive.
Qed.

Lemma first_broken_failure rules gw o :
  (OType o = Limit -> is_nan (Price o) = false) ->
  first_broken rules gw o = first_failure rules gw o.
Proof.
  intros Hn. unfold first_broken, first_failure.
  induction rules as [|r rules IH]; [done|]. cbn [find].
  by rewrite (breaks_violates gw o r Hn), IH.
Qed.

(** [Submit] rejects by the first test of the code that fails. *)
Lemma Gateway_Submit_first_failure gw a :
  (forall r, first_failure code_order gw (deref (g_mem gw) a) = Some r ->
     exists e, Gateway_Submit (Some a) gw = Ok (inr e, rejected a gw) /\
               rule_of_error e = Some r) /\
  (first_failure code_order gw (deref (g_mem gw) a) = None ->
     forall e gw', Gateway_Submit (Some a) gw <> Ok (inr e, gw')).
Proof.
  pose proof (validateOrder_first_failure gw a) as Hv.
  unfold Gateway_Submit.
  destruct (validateOrder (g_mem gw) (Some a)) as [err|].
  - destruct Hv as (r & -> & Hne & Hr). split; [|done].
    intros r' [= <-]. eexists. split; [reflexivity|]. apply Hr.
  - rewrite Hv. case_bool_decide as Hb.
    + rewrite Hb. split; [|done]. intros r [= <-]. eexists. split; reflexivity.
    + split; [done|]. intros _ e gw'.
      destruct (books gw !! Symbol (deref (g_mem gw) a)) as [ob|]; [|done].
      destruct (OrderBook_Submit _ _) as [[trades b']| |]; done.
Qed.




(** * Re-submitting an order *)

Definition terminal (st : OrderStatus) : bool :=
  String.eqb st StatusFilled || String.eqb st StatusCancelled
  || String.eqb st StatusRejected.

Lemma match_body_exit sd incoming s :
  (Remaining (deref (m_mem s) incoming) <= 0)%Z ->
  match_body sd incoming s = Ok (Break s).
Proof.
  intros H. unfold match_body. apply Z.ltb_ge in H. rewrite H.
  by rewrite andb_false_r.
Qed.

Lemma match_side_filled sd incoming s :
  IsFilled (deref (m_mem s) incoming) = true ->
  (Remaining (deref (m_mem s) incoming) <= 0)%Z ->
  match_side sd incoming s =
    Ok (mkM (update (m_mem s) incoming (set_Status StatusFilled)) (m_seq s)
            (m_book s) (m_trades s)).
Proof.
  intros Hf Hr. unfold match_side. rewrite loop_S, match_body_exit by done.
  cbn [rbind]. unfold finalizeOrder. by rewrite Hf.
Qed.

Lemma first_failure_None gw o r :
  first_failure code_order gw o = None -> violates gw o r = false.
Proof.
  intros H. apply (find_none _ _ H). destruct r; simpl; tauto.
Qed.


Lemma well_typed_insert m a o :
  well_typed m -> in_int64 (Quantity o) -> in_int64 (Filled o) ->
  well_typed (<[a := o]> m).
Proof.
  intros Hm HQ HF x o'. rewrite lookup_insert. case_decide; [|by apply Hm].
  by intros [= <-].
Qed.

Lemma well_typed_empty : well_typed ∅.
Proof. intros x o. by rewrite lookup_empty. Qed.

Lemma in_int64_small z : (- 1000000 <= z <= 1000000)%Z -> in_int64 z.
Proof. unfold in_int64. pow_norm. lia. Qed.



(** * What [Submit] does, turn by turn *)

Definition side_of (sd : side) : Side :=
  match sd with OnBuy => Buy | OnSell => Sell end.

(** The trade of an incoming order against the resting order [r]. *)
Definition trade_against (sd : side) (m : gmap addr Order) (sym : string)
    (incoming : addr) (r : addr) (t : Trade) : Prop :=
  TPrice t = Price (deref m r) /\
  TSymbol t = sym /\
  TTimestamp t = Timestamp (deref m incoming) /\
  match sd with
  | OnBuy => BuyOrderID t = ID (deref m incoming) /\ SellOrderID t = ID (deref m r)
  | OnSell => BuyOrderID t = ID (deref m r) /\ SellOrderID t = ID (deref m incoming)
  end.

Lemma trade_of_against sd m seq sym incoming best qty trade seq' :
  trade_of sd seq sym (deref m incoming) (deref m best) qty = (trade, seq') ->
  trade_against sd m sym incoming best trade /\ TQuantity trade = qty.
Proof.
  unfold trade_of, newTrade, nextTradeID, trade_against.
  destruct sd; intros [= <- <-]; done.
Qed.

Lemma trade_against_frame sd m m' sym incoming r t :
  frame m' m -> trade_against sd m sym incoming r t ->
  trade_against sd m' sym incoming r t.
Proof.
  intros [F _] (Hp & Hs & Ht & Hid).
  pose proof (F incoming) as (Hi1 & _ & _ & _ & _ & _ & Hi7).
  pose proof (F r) as (Hr1 & _ & _ & _ & Hr5 & _).
  unfold trade_against. rewrite <- Hr5, <- Hi7, <- Hi1, <- Hr1. done.
Qed.

(** A turn changes no status but that of an active resting order. *)
Lemma body_step_active sd incoming s c x :
  body_step sd incoming s c ->
  IsActive (deref (m_mem (ctl_state c)) x) = true ->
  IsActive (deref (m_mem s) x) = true.
Proof.
  intros [Hex|best p Htop Hrem Hact Hpop|best Htop Hrem Hact HL Hg
         |best qty trade seq' m2 m3 ob' Htop Hrem Hact Hg Hq Ht Hm2 Hcase];
    cbn [ctl_state m_mem]; try done.
  assert (deref m3 x = deref (m_mem s) x
          \/ (x = best) \/ Status (deref m3 x) = Status (deref (m_mem s) x))
    as Hx.
  { destruct (decide (x = best)) as [->|Hne]; [by right; left|].
    right. right.
    destruct Hcase as [(_ & -> & _)|(_ & -> & _)]; subst m2;
      rewrite !deref_update; repeat case_decide; subst; done. }
  destruct Hx as [->|[->|Hst]]; [done|done|].
  unfold IsActive. by rewrite Hst.
Qed.

(** The trades a turn appends. *)
Lemma body_step_trades sd incoming s c :
  body_step sd incoming s c ->
  m_trades (ctl_state c) = m_trades s \/
  exists best t,
    opp sd (m_book s) !! 0 = Some best /\
    IsActive (deref (m_mem s) best) = true /\
    trade_against sd (m_mem s) (symbol (m_book s)) incoming best t /\
    m_trades (ctl_state c) = m_trades s ++ [t].
Proof.
  intros [Hex|best p Htop Hrem Hact Hpop|best Htop Hrem Hact HL Hg
         |best qty trade seq' m2 m3 ob' Htop Hrem Hact Hg Hq Ht Hm2 Hcase];
    cbn [ctl_state m_trades]; try by left.
  right. exists best, trade. split_and!; try done.
  by apply trade_of_against in Ht as [? _].
Qed.

(** All the trades of a loop are against orders that rested, active, on
    the opposite side when the loop started. *)
Definition loop_trades_inv (sd : side) (incoming : addr) (s0 s : mstate) : Prop :=
  frame (m_mem s0) (m_mem s) /\
  symbol (m_book s) = symbol (m_book s0) /\
  own sd (m_book s) = own sd (m_book s0) /\
  (forall x, x ∈ opp sd (m_book s) -> x ∈ opp sd (m_book s0)) /\
  (forall x, IsActive (deref (m_mem s) x) = true ->
             IsActive (deref (m_mem s0) x) = true) /\
  (forall t, t ∈ m_trades s -> t ∈ m_trades s0 \/
     exists r, r ∈ opp sd (m_book s0) /\
               IsActive (deref (m_mem s0) r) = true /\
               trade_against sd (m_mem s0) (symbol (m_book s0)) incoming r t).

Lemma loop_trades sd incoming fuel s0 s1 :
  loop (match_body sd incoming) fuel s0 = Ok s1 ->
  loop_trades_inv sd incoming s0 s1.
Proof.
  apply (loop_inv (match_body sd incoming) (loop_trades_inv sd incoming s0)).
  - intros s c (Hf & Hsym & Hown & Hsub & Hact & Htr) Hc.
    apply match_body_step in Hc.
    destruct (body_step_frame _ _ _ _ Hc) as (Hf' & Hown' & Hsym' & Hsub' & _).
    split_and!.
    + by eapply frame_trans.
    + by rewrite Hsym'.
    + by rewrite Hown'.
    + auto.
    + intros x Hx. apply Hact. by eapply body_step_active.
    + intros t Ht.
      destruct (body_step_trades _ _ _ _ Hc) as [E|(best & t' & Htop & Hb & Hta & E)];
        rewrite E in Ht; [by apply Htr|].
      apply elem_of_app in Ht as [Ht|Ht]; [by apply Htr|].
      apply list_elem_of_singleton in Ht as ->. right. exists best.
      split_and!.
      * apply Hsub. by eapply list_elem_of_lookup_2.
      * by apply Hact.
      * rewrite <- Hsym. by eapply trade_against_frame.
  - split_and!; try done; try apply frame_refl. intros; by left.
Qed.

(** The cases of [finalizeOrder]. *)
Lemma finalizeOrder_cases sd o s s' :
  finalizeOrder o (push_own sd o) s = Ok s' ->
  m_trades s' = m_trades s /\ m_seq s' = m_seq s /\
  opp sd (m_book s') = opp sd (m_book s) /\
  symbol (m_book s') = symbol (m_book s) /\
  frame (m_mem s) (m_mem s') /\
  (well_typed (m_mem s) -> well_typed (m_mem s')) /\
  Remaining (deref (m_mem s') o) = Remaining (deref (m_mem s) o) /\
  ((m_book s' = m_book s /\
    ((IsFilled (deref (m_mem s) o) = true /\
      m_mem s' = update (m_mem s) o (set_Status StatusFilled))
     \/ (IsFilled (deref (m_mem s) o) = false /\
         (OType (deref (m_mem s) o) = IOC \/
          OType (deref (m_mem s) o) = Market) /\
         m_mem s' = update (m_mem s) o (set_Status StatusCancelled))
     \/ (IsFilled (deref (m_mem s) o) = false /\
         OType (deref (m_mem s) o) <> IOC /\ m_mem s' = m_mem s)))
   \/ (IsFilled (deref (m_mem s) o) = false /\
       OType (deref (m_mem s) o) = Limit /\
       (0 < Remaining (deref (m_mem s) o))%Z /\
       m_mem s' = (if (0 <? Filled (deref (m_mem s) o))%Z
                   then update (m_mem s) o (set_Status StatusPartial)
                   else m_mem s) /\
       heap_Push (own_less sd (m_mem s')) (own sd (m_book s)) o
         = Ok (own sd (m_book s')))).
Proof.
  unfold finalizeOrder.
  assert (forall st, Remaining (deref (update (m_mem s) o (set_Status st)) o)
                     = Remaining (deref (m_mem s) o)) as Hrem
    by (intros; by rewrite deref_update_eq).
  assert (forall st, frame (m_mem s) (update (m_mem s) o (set_Status st))) as Hfr
    by (intros; apply frame_update, same_fields_set_Status).
  destruct (IsFilled (deref (m_mem s) o)) eqn:Hf.
  { intros [= <-]. cbn [m_trades m_seq m_book m_mem].
    split_and!; [done|done|done|done|apply Hfr|by apply well_typed_set_Status
                |apply Hrem|]. left. split; [done|]. left. done. }
  destruct (String.eqb_spec (OType (deref (m_mem s) o)) IOC) as [HI|HI].
  { intros [= <-]. cbn [m_trades m_seq m_book m_mem].
    split_and!; [done|done|done|done|apply Hfr|by apply well_typed_set_Status
                |apply Hrem|]. left. split; [done|]. right. left. split_and!; auto. }
  destruct (String.eqb_spec (OType (deref (m_mem s) o)) Market) as [HM|HM];
    cbn [andb].
  - destruct (0 <? Remaining (deref (m_mem s) o))%Z eqn:Hr.
    { intros [= <-]. cbn [m_trades m_seq m_book m_mem].
      split_and!; [done|done|done|done|apply Hfr|by apply well_typed_set_Status
                |apply Hrem|]. left. split; [done|]. right. left. split_and!; auto. }
    rewrite andb_false_r. intros [= <-]. split_and!; [done|done|done|done|apply frame_refl|done|done|].
    left. split; [done|]. right. right. done.
  - destruct (String.eqb_spec (OType (deref (m_mem s) o)) Limit) as [HL|HL];
      cbn [andb].
    2: { intros [= <-]. split_and!; [done|done|done|done|apply frame_refl|done|done|].
         left. split; [done|]. right. right. done. }
    destruct (0 <? Remaining (deref (m_mem s) o))%Z eqn:Hr.
    2: { intros [= <-]. split_and!; [done|done|done|done|apply frame_refl|done|done|].
         left. split; [done|]. right. right. done. }
    apply Z.ltb_lt in Hr.
    set (m' := if (0 <? Filled (deref (m_mem s) o))%Z
               then update (m_mem s) o (set_Status StatusPartial) else m_mem s).
    assert (frame (m_mem s) m' /\ (well_typed (m_mem s) -> well_typed m') /\
            Remaining (deref m' o) = Remaining (deref (m_mem s) o))
      as (Hfm & Hwm & Hrm).
    { subst m'. destruct (0 <? Filled (deref (m_mem s) o))%Z;
        split_and!; try done; try apply frame_refl;
        try (intros; by apply well_typed_set_Status). }
    destruct (push_own sd o m' (m_book s)) as [ob'| |] eqn:Hp; try done.
    intros [= <-]. cbn [m_trades m_seq m_book m_mem].
    assert (opp sd ob' = opp sd (m_book s) /\ symbol ob' = symbol (m_book s) /\
            heap_Push (own_less sd m') (own sd (m_book s)) o = Ok (own sd ob'))
      as (Ho & Hs & Hpush).
    { destruct sd; unfold push_own, push_bid, push_ask in Hp; cbn [own_less own opp].
      - destruct (heap_Push (bid_less m') (bids (m_book s)) o) as [h| |]; try done.
        by injection Hp as <-.
      - destruct (heap_Push (ask_less m') (asks (m_book s)) o) as [h| |]; try done.
        by injection Hp as <-. }
    split_and!; try done. right. done.
Qed.

(** [Submit] is the loop of the incoming order's side, then
    [finalizeOrder]; an order of neither side changes nothing. *)
Lemma OrderBook_Submit_inv a b trades b' :
  OrderBook_Submit (Some a) b = Ok (trades, b') ->
  (exists sd s1 s',
     OSide (deref (mem b) a) = side_of sd /\
     loop (match_body sd a) (S (length (opp sd (book b))))
          (mkM (mem b) (globalTradeSeq b) (book b) []) = Ok s1 /\
     finalizeOrder a (push_own sd a) s1 = Ok s' /\
     trades = m_trades s' /\
     b' = mkB (m_mem s') (m_seq s') (m_book s'))
  \/ (OSide (deref (mem b) a) <> Buy /\ OSide (deref (mem b) a) <> Sell /\
      trades = [] /\ b' = b).
Proof.
  unfold OrderBook_Submit, match_. cbn [m_mem].
  destruct (String.eqb_spec (OSide (deref (mem b) a)) Buy) as [HB|HB].
  { rewrite matchBuy_side. unfold match_side. cbn [m_book].
    destruct (loop _ _ _) as [s1| |] eqn:Hl; try done. cbn [rbind].
    destruct (finalizeOrder _ _ _) as [s'| |] eqn:Hfin; try done. cbn [rbind].
    intros [= <- <-]. left. exists OnBuy, s1, s'. done. }
  destruct (String.eqb_spec (OSide (deref (mem b) a)) Sell) as [HS|HS].
  { rewrite matchSell_side. unfold match_side. cbn [m_book].
    destruct (loop _ _ _) as [s1| |] eqn:Hl; try done. cbn [rbind].
    destruct (finalizeOrder _ _ _) as [s'| |] eqn:Hfin; try done. cbn [rbind].
    intros [= <- <-]. left. exists OnSell, s1, s'. done. }
  cbn [rbind m_trades m_mem m_seq m_book]. intros [= <- <-].
  right. by destruct b.
Qed.

(** C2. Every trade of a [Submit] call carries the price of an order that
    rested, active, on the opposite side when the call began, and names
    that order as the counterparty.  No call writes a price, so this is the
    resting order's price at the moment of the match. *)
Theorem passive_pricing a b trades b' :
  OrderBook_Submit (Some a) b = Ok (trades, b') ->
  forall t, t ∈ trades ->
  exists r,
    IsActive (deref (mem b) r) = true /\
    TPrice t = Price (deref (mem b) r) /\
    Price (deref (mem b') r) = Price (deref (mem b) r) /\
    ((OSide (deref (mem b) a) = Buy /\ r ∈ asks (book b) /\
      BuyOrderID t = ID (deref (mem b) a) /\
      SellOrderID t = ID (deref (mem b) r))
     \/ (OSide (deref (mem b) a) = Sell /\ r ∈ bids (book b) /\
         BuyOrderID t = ID (deref (mem b) r) /\
         SellOrderID t = ID (deref (mem b) a))).
Proof.
  intros Hsub t Ht.
  apply OrderBook_Submit_inv in Hsub
    as [(sd & s1 & s' & Hside & Hloop & Hfin & -> & ->)|(_ & _ & -> & _)];
    [|by apply elem_of_nil in Ht].
  apply loop_trades in Hloop as (Hf & _ & _ & _ & _ & Htr).
  apply finalizeOrder_cases in Hfin as (Etr & _ & _ & _ & Hf' & _).
  rewrite Etr in Ht. cbn [m_mem m_book m_trades] in *.
  destruct (Htr t Ht) as [Hnil|(r & Hin & Hact & Hp & _ & _ & Hid)];
    [by apply elem_of_nil in Hnil|].
  exists r. split_and!; try done.
  - destruct (frame_trans _ _ _ Hf Hf') as [F _].
    destruct (F r) as (_ & _ & _ & _ & E & _). exact E.
  - destruct sd; [left|right]; done.
Qed.

Lemma passive_pricing_witness :
  let sell := NewLimitOrder 1 10 "AAPL" Sell (f64 189 0) 100 in
  let buy := NewLimitOrder 2 20 "AAPL" Buy (f64 379 (-1)) 100 in
  let b := mkB (<[1%positive := sell]> (<[2%positive := buy]> ∅)) 0
               (mkBook "AAPL" [] [1%positive]) in
  exists t b',
    OrderBook_Submit (Some 2%positive) b = Ok ([t], b') /\
    TPrice t = f64 189 0 /\
    exists r, IsActive (deref (mem b) r) = true /\
              TPrice t = Price (deref (mem b) r).
Proof.
  cbv zeta.
  set (b := mkB (<[1%positive := NewLimitOrder 1 10 "AAPL" Sell (f64 189 0) 100]>
                   (<[2%positive := NewLimitOrder 2 20 "AAPL" Buy (f64 379 (-1)) 100]> ∅))
                0 (mkBook "AAPL" [] [1%positive])).
  destruct (OrderBook_Submit (Some 2%positive) b) as [[trades b']| |] eqn:E;
    [|vm_compute in E; discriminate..].
  pose proof E as E'. vm_compute in E'.
  destruct trades as [|t [|]]; try discriminate.
  exists t, b'. split; [reflexivity|].
  split; [by injection E' as <- _|].
  destruct (passive_pricing 2%positive b [t] b' E t (list_elem_of_here _ _))
    as (r & Hact & Hp & _).
  exists r. split; [exact Hact|exact Hp].
Defined.

(** ** The sweep of an order that passes no price test

    The matching of an IOC order, in the words of the amended claim.  While
    the opposite side has entries and something of the order [a] remains,
    the entry [top] at index 0 of the opposite side is looked at, whatever
    the two prices.  An inactive [top] is popped.  An active [top] is
    traded against, for the smaller of the two remaining quantities, at the
    price of [top]; both orders are filled by that quantity, and [top] is
    then FILLED and popped if it is full, PARTIAL otherwise.  The sweep
    ends when the opposite side is empty or nothing of [a] remains. *)
Inductive sweep (sd : side) (a : addr) : mstate -> mstate -> Prop :=
  | sweep_end s :
      opp sd (m_book s) = [] \/ (Remaining (deref (m_mem s) a) <= 0)%Z ->
      sweep sd a s s
  | sweep_discard s top h s1 :
      opp sd (m_book s) !! 0 = Some top ->
      (0 < Remaining (deref (m_mem s) a))%Z ->
      IsActive (deref (m_mem s) top) = false ->
      heap_Pop (opp_less sd (m_mem s)) (opp sd (m_book s)) = Ok (top, h) ->
      sweep sd a (mkM (m_mem s) (m_seq s) (set_opp sd (m_book s) h)
                      (m_trades s)) s1 ->
      sweep sd a s s1
  | sweep_trade s top qty t m2 m3 ob' s1 :
      opp sd (m_book s) !! 0 = Some top ->
      (0 < Remaining (deref (m_mem s) a))%Z ->
      IsActive (deref (m_mem s) top) = true ->
      qty = min64 (Remaining (deref (m_mem s) a))
                  (Remaining (deref (m_mem s) top)) ->
      t = mkTrade (wrapU64 (m_seq s + 1)) (symbol (m_book s))
            (match sd with
             | OnBuy => ID (deref (m_mem s) a)
             | OnSell => ID (deref (m_mem s) top)
             end)
            (match sd with
             | OnBuy => ID (deref (m_mem s) top)
             | OnSell => ID (deref (m_mem s) a)
             end)
            (Price (deref (m_mem s) top)) qty
            (Timestamp (deref (m_mem s) a)) ->
      m2 = update (update (m_mem s) a (add_Filled qty)) top (add_Filled qty) ->
      (IsFilled (deref m2 top) = true /\
       m3 = update m2 top (set_Status StatusFilled) /\
       exists h, heap_Pop (opp_less sd m3) (opp sd (m_book s)) = Ok (top, h) /\
                 ob' = set_opp sd (m_book s) h)
      \/ (IsFilled (deref m2 top) = false /\
          m3 = update m2 top (set_Status StatusPartial) /\
          ob' = m_book s) ->
      sweep sd a (mkM m3 (wrapU64 (m_seq s + 1)) ob' (m_trades s ++ [t])) s1 ->
      sweep sd a s s1.

(** The loop of an order that is not a LIMIT order is a sweep. *)
Lemma loop_sweep sd a fuel s s1 :
  OType (deref (m_mem s) a) <> Limit ->
  loop (match_body sd a) fuel s = Ok s1 ->
  sweep sd a s s1.
Proof.
  revert s. induction fuel as [|fuel IH]; intros s HT Hloop; [done|].
  rewrite loop_S in Hloop.
  destruct (match_body sd a s) as [c| |] eqn:Hc; cbn [rbind] in Hloop;
    [|done..].
  pose proof (match_body_step _ _ _ _ Hc) as Hstep.
  destruct (body_step_frame _ _ _ _ Hstep) as ([Hf _] & _).
  assert (OType (deref (m_mem (ctl_state c)) a) <> Limit) as HT'.
  { destruct (Hf a) as (_ & _ & _ & -> & _). done. }
  destruct Hstep as [Hex|best p Htop Hrem Hact Hpop|best Htop Hrem Hact HL Hg
         |best qty trade seq' m2 m3 ob' Htop Hrem Hact Hg Hq Ht Hm2 Hcase];
    cbn [ctl_state] in HT'.
  - injection Hloop as <-. by apply sweep_end.
  - destruct (heap_Pop_top _ _ _ _ Htop Hpop) as [Hfst _].
    destruct p as [x h]. cbn [fst snd] in *. subst x.
    eapply sweep_discard; eauto.
  - done.
  - assert (seq' = wrapU64 (m_seq s + 1) /\
            trade = mkTrade (wrapU64 (m_seq s + 1)) (symbol (m_book s))
              (match sd with
               | OnBuy => ID (deref (m_mem s) a)
               | OnSell => ID (deref (m_mem s) best)
               end)
              (match sd with
               | OnBuy => ID (deref (m_mem s) best)
               | OnSell => ID (deref (m_mem s) a)
               end)
              (Price (deref (m_mem s) best)) qty
              (Timestamp (deref (m_mem s) a))) as [-> Htr].
    { unfold trade_of, newTrade, nextTradeID in Ht.
      destruct sd; injection Ht as <- <-; done. }
    apply (sweep_trade sd a s best qty trade m2 m3 ob' s1 Htop Hrem Hact Hq
             Htr Hm2).
    + destruct Hcase as [(Hfl & Hm3 & p & Hpop & Hob)|?]; [|by right].
      left. split; [done|]. split; [done|].
      destruct (heap_Pop_top _ _ _ _ Htop Hpop) as [Hfst _].
      destruct p as [x h]. cbn [fst snd] in *. subst x. by exists h.
    + by apply IH.
Qed.

(** C3, as the code has it.  An IOC order passes no price test.  Its
    [Submit] is a sweep of the opposite side: turn by turn, whatever the
    order's own price, the top of the opposite side is popped if inactive
    and traded against at its own price if active, until that side is empty
    or nothing of the order remains.  The trades returned are those of the
    sweep, each at the price of an order that was active on the opposite
    side.  The order then ends FILLED if it is filled and CANCELLED
    otherwise, and is not put on its own side. *)
Theorem ioc_has_no_price_gate sd a b :
  well_typed (mem b) ->
  OSide (deref (mem b) a) = side_of sd ->
  OType (deref (mem b) a) = IOC ->
  exists trades b' s1,
    OrderBook_Submit (Some a) b = Ok (trades, b') /\
    sweep sd a (mkM (mem b) (globalTradeSeq b) (book b) []) s1 /\
    trades = m_trades s1 /\
    globalTradeSeq b' = m_seq s1 /\
    book b' = m_book s1 /\
    mem b' = update (m_mem s1) a
               (set_Status (if IsFilled (deref (m_mem s1) a)
                            then StatusFilled else StatusCancelled)) /\
    own sd (book b') = own sd (book b) /\
    (opp sd (book b') = [] \/ (Remaining (deref (mem b') a) <= 0)%Z) /\
    (Status (deref (mem b') a) = StatusFilled \/
     Status (deref (mem b') a) = StatusCancelled) /\
    (forall t, t ∈ trades ->
       exists r, r ∈ opp sd (book b) /\
                 IsActive (deref (mem b) r) = true /\
                 TPrice t = Price (deref (mem b) r)).
Proof.
  intros Hw Hside HI.
  destruct (OrderBook_Submit_total a b Hw) as (trades & b' & Hsub).
  pose proof Hsub as Hsub'.
  apply OrderBook_Submit_inv in Hsub'
    as [(sd' & s1 & s' & Hside' & Hloop & Hfin & -> & ->)|(HB & HS & _)].
  2: { rewrite Hside in HB, HS. by destruct sd. }
  rewrite Hside in Hside'.
  assert (sd' = sd) as -> by (by destruct sd, sd').
  exists (m_trades s'), (mkB (m_mem s') (m_seq s') (m_book s')), s1.
  split; [done|].
  pose proof (loop_exit _ _ _ _ _ Hloop) as Hexit.
  pose proof (loop_trades _ _ _ _ _ Hloop) as (Hf & _ & Hown & _ & _ & Htr).
  cbn [m_mem m_book m_trades] in *.
  assert (OType (deref (m_mem s1) a) = IOC) as HI1.
  { destruct Hf as [F _]. destruct (F a) as (_ & _ & _ & -> & _). done. }
  assert (opp sd (m_book s1) = [] \/ (Remaining (deref (m_mem s1) a) <= 0)%Z)
    as Hdone.
  { inversion Hexit as [Hex| |best Htop Hrem Hact HL Hg|]; [done|].
    rewrite HI1 in HL. done. }
  assert (s' = mkM (update (m_mem s1) a
                      (set_Status (if IsFilled (deref (m_mem s1) a)
                                   then StatusFilled else StatusCancelled)))
                   (m_seq s1) (m_book s1) (m_trades s1)) as ->.
  { unfold finalizeOrder in Hfin.
    destruct (IsFilled (deref (m_mem s1) a)); [by injection Hfin as <-|].
    rewrite HI1 in Hfin. cbn in Hfin. by injection Hfin as <-. }
  cbn [mem book globalTradeSeq m_mem m_book m_trades m_seq].
  split_and!; try done.
  - refine (loop_sweep sd a _ _ s1 _ Hloop). cbn [m_mem]. by rewrite HI.
  - by rewrite deref_update_eq, Remaining_set_Status.
  - rewrite deref_update_eq.
    destruct (IsFilled (deref (m_mem s1) a)); [by left|by right].
  - intros t Ht. destruct (Htr t Ht) as [?%elem_of_nil|(r & Hr & Hact & Hp & _)];
      [done|]. by exists r.
Qed.

(** A BUY IOC of 10 at 100 meets a seller of 10 at 200. *)
Lemma ioc_has_no_price_gate_witness :
  let sell := NewLimitOrder 1 10 "AAPL" Sell (f64 200 0) 10 in
  let ioc := mkOrder 2 "AAPL" Buy IOC StatusOpen (f64 100 0) 10 0 20 in
  let b := mkB (<[1%positive := sell]> (<[2%positive := ioc]> ∅)) 0
               (mkBook "AAPL" [] [1%positive]) in
  well_typed (mem b) /\
  OSide (deref (mem b) 2%positive) = side_of OnBuy /\
  OType (deref (mem b) 2%positive) = IOC /\
  exists t b',
    OrderBook_Submit (Some 2%positive) b = Ok ([t], b') /\
    TPrice t = f64 200 0 /\ TQuantity t = 10%Z /\
    Status (deref (mem b') 2%positive) = StatusFilled /\
    asks (book b') = [] /\ bids (book b') = [].
Proof.
  cbv zeta.
  set (b := mkB (<[1%positive := NewLimitOrder 1 10 "AAPL" Sell (f64 200 0) 10]>
                  (<[2%positive := mkOrder 2 "AAPL" Buy IOC StatusOpen
                                     (f64 100 0) 10 0 20]> ∅))
                0 (mkBook "AAPL" [] [1%positive])).
  assert (well_typed (mem b)) as Hw.
  { unfold b. cbn [mem].
    repeat apply well_typed_insert; try apply well_typed_empty;
      apply in_int64_small; simpl; lia. }
  split; [exact Hw|]. split; [reflexivity|]. split; [reflexivity|].
  destruct (ioc_has_no_price_gate OnBuy 2%positive b Hw eq_refl eq_refl)
    as (trades & b' & s1 & E & _ & _ & _ & _ & _ & Hown & _ & _ & Hp).
  pose proof E as E'. vm_compute in E'.
  destruct trades as [|t [|]]; [discriminate| |discriminate].
  exists t, b'. split; [exact E|].
  destruct (Hp t) as (r & Hr & _ & HP); [by left|].
  apply list_elem_of_singleton in Hr as ->.
  split; [exact HP|].
  injection E' as Et Eb. rewrite <- Et, <- Eb.
  split_and!; vm_compute; reflexivity.
Defined.

(** C3, as stated, fails: a BUY IOC at 100 trades against the resting ask
    at 200. *)
Lemma ioc_price_gate_counterexample :
  let sell := NewLimitOrder 1 10 "AAPL" Sell (f64 200 0) 10 in
  let ioc := mkOrder 2 "AAPL" Buy IOC StatusOpen (f64 100 0) 10 0 20 in
  let b0 := mkB (<[1%positive := sell]> (<[2%positive := ioc]> ∅)) 0
                (NewOrderBook "AAPL") in
  exists b1 t b2,
    OrderBook_Submit (Some 1%positive) b0 = Ok ([], b1) /\
    asks (book b1) = [1%positive] /\
    OrderBook_Submit (Some 2%positive) b1 = Ok ([t], b2) /\
    SellOrderID t = 1%Z /\ TPrice t = f64 200 0 /\
    f64_gt (Price (deref (mem b1) 1%positive)) (Price ioc) = true /\
    f64_gt (Price ioc) f64_zero = true.
Proof.
  cbv zeta. do 3 eexists.
  split; [vm_compute; reflexivity|].
  split; [vm_compute; reflexivity|].
  split; [vm_compute; reflexivity|].
  split_and!; vm_compute; reflexivity.
Qed.

(** * The states a book goes through *)

(** What a caller does between two states: build an order (a fresh
    address of the store, with any field values), submit an order it
    holds, cancel by identifier. *)
Inductive call : Type :=
  | CallNew (a : addr) (o : Order)
  | CallSubmit (a : addr)
  | CallCancel (orderID : Z).

(** [None]: not a call the caller can make (the address is taken, or is
    not an order), or one that does not return. *)
Definition exec (c : call) (b : bstate) : option bstate :=
  match c with
  | CallNew a o =>
      match mem b !! a with
      | None => Some (mkB (<[a := o]> (mem b)) (globalTradeSeq b) (book b))
      | Some _ => None
      end
  | CallSubmit a =>
      match mem b !! a with
      | Some _ =>
          match OrderBook_Submit (Some a) b with
          | Ok r => Some r.2
          | _ => None
          end
      | None => None
      end
  | CallCancel orderID => Some (OrderBook_Cancel orderID b).2
  end.

Fixpoint run (cs : list call) (b : bstate) : option bstate :=
  match cs with
  | [] => Some b
  | c :: cs' =>
      match exec c b with
      | Some b' => run cs' b'
      | None => None
      end
  end.

(** The states reachable by submits and cancels from a new book. *)
Definition reachable (b : bstate) : Prop :=
  exists sym seq cs, run cs (mkB ∅ seq (NewOrderBook sym)) = Some b.

(** The turns of a matching loop that has not ended. *)
Inductive turns (sd : side) (incoming : addr) : mstate -> mstate -> Prop :=
  | turns_here s : turns sd incoming s s
  | turns_next s s' s'' :
      match_body sd incoming s = Ok (Continue s') ->
      turns sd incoming s' s'' -> turns sd incoming s s''.

(** The loop is about to trade against [best]: the loop condition holds,
    [best] is the entry at index 0, it is active and the price test does
    not stop the incoming order. *)
Definition selects (sd : side) (incoming : addr) (s : mstate) (best : addr)
  : Prop :=
  opp sd (m_book s) !! 0 = Some best /\
  (0 < Remaining (deref (m_mem s) incoming))%Z /\
  IsActive (deref (m_mem s) best) = true /\
  String.eqb (OType (deref (m_mem s) incoming)) Limit
  && gate sd (Price (deref (m_mem s) incoming)) (Price (deref (m_mem s) best))
  = false.

(** [o] has priority over [x] on the side opposite to [sd], ties allowed. *)
Definition ranks_first (sd : side) (o x : Order) : Prop :=
  match sd with
  | OnBuy => f64_lt (Price o) (Price x) = true
  | OnSell => f64_gt (Price o) (Price x) = true
  end
  \/ (f64_eq (Price o) (Price x) = true /\ (Timestamp o <= Timestamp x)%Z).

(** [o] has priority over [x], strictly. *)
Definition ranks_strictly_first (sd : side) (o x : Order) : Prop :=
  match sd with
  | OnBuy => f64_lt (Price o) (Price x) = true
  | OnSell => f64_gt (Price o) (Price x) = true
  end
  \/ (f64_eq (Price o) (Price x) = true /\ (Timestamp o < Timestamp x)%Z).

(** Every bid is priced below every ask. *)
Definition no_cross (m : gmap addr Order) (ob : OrderBook) : Prop :=
  forall x y, x ∈ bids ob -> y ∈ asks ob ->
    f64_lt (Price (deref m x)) (Price (deref m y)) = true.

(** What the book keeps between calls. *)
Definition book_inv (m : gmap addr Order) (ob : OrderBook) : Prop :=
  (forall x, x ∈ entries ob -> is_Some (m !! x)) /\
  heap_ok (bid_less m) (bids ob) /\
  heap_ok (ask_less m) (asks ob) /\
  no_cross m ob.

(** The same, seen from the side of an incoming order. *)
Definition apart (sd : side) (m : gmap addr Order) (x y : addr) : bool :=
  match sd with
  | OnBuy => f64_lt (Price (deref m x)) (Price (deref m y))
  | OnSell => f64_lt (Price (deref m y)) (Price (deref m x))
  end.

Definition side_inv (sd : side) (m : gmap addr Order) (ob : OrderBook) : Prop :=
  (forall x, x ∈ own sd ob ++ opp sd ob -> is_Some (m !! x)) /\
  heap_ok (own_less sd m) (own sd ob) /\
  heap_ok (opp_less sd m) (opp sd ob) /\
  (forall x y, x ∈ own sd ob -> y ∈ opp sd ob -> apart sd m x y = true).

Lemma book_inv_side sd m ob : book_inv m ob <-> side_inv sd m ob.
Proof.
  unfold book_inv, side_inv, no_cross, entries.
  destruct sd; cbn [own opp own_less opp_less apart].
  - tauto.
  - split; intros (Ha & Hb & Hc & Hd); split_and!; auto;
      intros x Hx; apply Ha; apply elem_of_app; apply elem_of_app in Hx; tauto.
Qed.

Lemma heap_ok_ext {A} (less less' : A -> A -> bool) (h : list A) :
  (forall x y, x ∈ h -> y ∈ h -> less x y = less' x y) ->
  heap_ok less h -> heap_ok less' h.
Proof.
  intros Hext Hh c Hc x y Hx Hy. rewrite <- Hext.
  - by eapply (Hh c).
  - by eapply list_elem_of_lookup_2.
  - by eapply list_elem_of_lookup_2.
Qed.

Lemma less_frame sd m m' x y :
  frame m m' ->
  opp_less sd m' x y = opp_less sd m x y /\
  own_less sd m' x y = own_less sd m x y /\
  apart sd m' x y = apart sd m x y.
Proof.
  intros [F _].
  destruct (F x) as (_ & _ & _ & _ & Hpx & _ & Htx).
  destruct (F y) as (_ & _ & _ & _ & Hpy & _ & Hty).
  destruct sd; cbn [opp_less own_less apart];
    unfold bid_less, ask_less, BidHeap_Less, AskHeap_Less;
    by rewrite Hpx, Hpy, Htx, Hty.
Qed.

Lemma numeric_frame_fwd m m' :
  frame m m' -> numeric_prices m -> numeric_prices m'.
Proof.
  intros [F _] Hn a o Ha. destruct (F a) as (_ & _ & _ & _ & Hp & _).
  unfold deref at 1 in Hp. rewrite Ha in Hp. simpl in Hp.
  rewrite Hp. by apply numeric_deref.
Qed.

Lemma side_inv_frame sd m m' ob :
  frame m m' -> side_inv sd m ob -> side_inv sd m' ob.
Proof.
  intros Hf (Ha & Ho & Hp & Hc). split_and!.
  - intros x Hx. apply Hf. by apply Ha.
  - eapply heap_ok_ext; [|exact Ho]. intros x y _ _. symmetry.
    by apply (less_frame sd m m' x y).
  - eapply heap_ok_ext; [|exact Hp]. intros x y _ _. symmetry.
    by apply (less_frame sd m m' x y).
  - intros x y Hx Hy.
    destruct (less_frame sd m m' x y Hf) as (_ & _ & ->). by apply Hc.
Qed.

Lemma opp_less_asym sd m x y :
  numeric_prices m -> opp_less sd m x y = true -> opp_less sd m y x = false.
Proof. destruct sd; [apply ask_less_asym|apply bid_less_asym]. Qed.

Lemma opp_less_negtrans sd m x y z :
  numeric_prices m ->
  opp_less sd m y x = false -> opp_less sd m z y = false ->
  opp_less sd m z x = false.
Proof. destruct sd; [apply ask_less_negtrans|apply bid_less_negtrans]. Qed.

Lemma own_less_asym sd m x y :
  numeric_prices m -> own_less sd m x y = true -> own_less sd m y x = false.
Proof. destruct sd; [apply bid_less_asym|apply ask_less_asym]. Qed.

Lemma own_less_negtrans sd m x y z :
  numeric_prices m ->
  own_less sd m y x = false -> own_less sd m z y = false ->
  own_less sd m z x = false.
Proof. destruct sd; [apply bid_less_negtrans|apply ask_less_negtrans]. Qed.

(** The entry at index 0 of the opposite side has priority over every
    entry of that side. *)
Lemma top_ranks_first sd m h best x :
  numeric_prices m -> heap_ok (opp_less sd m) h ->
  h !! 0 = Some best -> x ∈ h ->
  ranks_first sd (deref m best) (deref m x).
Proof.
  intros Hn Hh Htop Hx. apply list_elem_of_lookup_1 in Hx as [k Hk].
  pose proof (heap_root_min (opp_less sd m) (fun a b => opp_less_asym sd m a b Hn)
                (fun a b c => opp_less_negtrans sd m a b c Hn) h best Hh Htop k x Hk)
    as Hle.
  unfold ranks_first.
  pose proof (numeric_deref m best Hn) as Nb.
  pose proof (numeric_deref m x Hn) as Nx.
  pose proof (f64_eq_key _ _ Nb Nx) as He.
  destruct sd; cbn [opp_less] in Hle.
  - pose proof (f64_lt_key _ _ Nb Nx) as Hl.
    pose proof (AskHeap_Less_key _ _ Nx Nb) as Hk'.
    fold (ask_less m x best) in Hk'. rewrite Hle in Hk'.
    unfold key_lt, key_eq in *.
    destruct (fkey (Price (deref m best))) as [? [? ?]],
             (fkey (Price (deref m x))) as [? [? ?]]; simpl in *.
    destruct (f64_lt (Price (deref m best)) (Price (deref m x)));
      destruct (f64_eq (Price (deref m best)) (Price (deref m x)));
      intuition (try discriminate; try lia).
  - pose proof (f64_gt_key _ _ Nb Nx) as Hl.
    pose proof (BidHeap_Less_key _ _ Nx Nb) as Hk'.
    fold (bid_less m x best) in Hk'. rewrite Hle in Hk'.
    unfold key_lt, key_eq in *.
    destruct (fkey (Price (deref m best))) as [? [? ?]],
             (fkey (Price (deref m x))) as [? [? ?]]; simpl in *.
    destruct (f64_gt (Price (deref m best)) (Price (deref m x)));
      destruct (f64_eq (Price (deref m best)) (Price (deref m x)));
      intuition (try discriminate; try lia).
Qed.

Lemma heap_Pop_ok (less : addr -> addr -> bool) h best p :
  (forall x y, less x y = true -> less y x = false) ->
  (forall x y z, less y x = false -> less z y = false -> less z x = false) ->
  heap_ok less h -> h !! 0 = Some best -> heap_Pop less h = Ok p ->
  heap_ok less p.2 /\ forall x, x ∈ p.2 -> x ∈ h.
Proof.
  intros Ha Hn Hh Htop Hpop. destruct p as [r h']. cbn [snd]. split.
  - by eapply (heap_Pop_heap less Ha Hn).
  - destruct (heap_Pop_top _ _ _ _ Htop Hpop) as [_ Hperm]. cbn [snd] in Hperm.
    intros x Hx. rewrite Hperm. by apply elem_of_cons; right.
Qed.

(** The opposite side after a turn: as it was, or popped. *)
Lemma body_step_opp sd incoming s c :
  body_step sd incoming s c ->
  m_book (ctl_state c) = m_book s \/
  exists best p,
    opp sd (m_book s) !! 0 = Some best /\
    heap_Pop (opp_less sd (m_mem (ctl_state c))) (opp sd (m_book s)) = Ok p /\
    m_book (ctl_state c) = set_opp sd (m_book s) p.2.
Proof.
  intros [Hex|best p Htop Hrem Hact Hpop|best Htop Hrem Hact HL Hg
         |best qty trade seq' m2 m3 ob' Htop Hrem Hact Hg Hq Ht Hm2 Hcase];
    cbn [ctl_state m_mem m_book]; try by left.
  - right. by exists best, p.
  - destruct Hcase as [(_ & -> & p & Hpop & ->)|(_ & _ & ->)]; [|by left].
    right. by exists best, p.
Qed.

Lemma set_opp_sides sd ob h :
  own sd (set_opp sd ob h) = own sd ob /\ opp sd (set_opp sd ob h) = h.
Proof. by destruct sd. Qed.

Lemma body_step_inv sd incoming s c :
  numeric_prices (m_mem s) -> side_inv sd (m_mem s) (m_book s) ->
  body_step sd incoming s c ->
  numeric_prices (m_mem (ctl_state c)) /\
  side_inv sd (m_mem (ctl_state c)) (m_book (ctl_state c)).
Proof.
  intros Hn Hinv Hstep.
  destruct (body_step_frame _ _ _ _ Hstep) as (Hf & _).
  pose proof (numeric_frame_fwd _ _ Hf Hn) as Hn'. split; [done|].
  pose proof (side_inv_frame _ _ _ _ Hf Hinv) as (Ha & Ho & Hp & Hc).
  destruct (body_step_opp _ _ _ _ Hstep) as [->|(best & p & Htop & Hpop & ->)];
    [done|].
  destruct (set_opp_sides sd (m_book s) p.2) as [Eown Eopp].
  destruct (heap_Pop_ok _ _ _ _
              (fun a b => opp_less_asym sd _ a b Hn')
              (fun a b c => opp_less_negtrans sd _ a b c Hn') Hp Htop Hpop)
    as [Hp' Hsub].
  unfold side_inv. rewrite Eown, Eopp. split_and!; try done.
  - intros x Hx. apply Ha. apply elem_of_app. apply elem_of_app in Hx.
    destruct Hx; auto.
  - intros x y Hx Hy. apply Hc; auto.
Qed.

Lemma gate_apart sd m incoming best y :
  numeric_prices m ->
  gate sd (Price (deref m incoming)) (Price (deref m best)) = true ->
  opp_less sd m y best = false ->
  apart sd m incoming y = true.
Proof.
  intros Hn Hg Hle.
  pose proof (numeric_deref m incoming Hn) as Ni.
  pose proof (numeric_deref m best Hn) as Nb.
  pose proof (numeric_deref m y Hn) as Ny.
  destruct sd; cbn [gate opp_less apart] in *.
  - apply (f64_lt_key _ _ Ni Nb) in Hg. apply (f64_lt_key _ _ Ni Ny).
    pose proof (AskHeap_Less_key _ _ Ny Nb) as Hk.
    fold (ask_less m y best) in Hk. rewrite Hle in Hk.
    unfold key_lt, key_eq in *.
    destruct (fkey (Price (deref m incoming))) as [? [? ?]],
             (fkey (Price (deref m best))) as [? [? ?]],
             (fkey (Price (deref m y))) as [? [? ?]]; simpl in *.
    destruct Hk as [_ Hk].
    assert (forall P : Prop, (P -> false = true) -> ~ P) as Hn0
      by (intros P HP HP'; by specialize (HP HP')).
    apply Hn0 in Hk. lia.
  - apply (f64_gt_key _ _ Ni Nb) in Hg. apply (f64_lt_key _ _ Ny Ni).
    pose proof (BidHeap_Less_key _ _ Ny Nb) as Hk.
    fold (bid_less m y best) in Hk. rewrite Hle in Hk.
    unfold key_lt, key_eq in *.
    destruct (fkey (Price (deref m incoming))) as [? [? ?]],
             (fkey (Price (deref m best))) as [? [? ?]],
             (fkey (Price (deref m y))) as [? [? ?]]; simpl in *.
    destruct Hk as [_ Hk].
    assert (forall P : Prop, (P -> false = true) -> ~ P) as Hn0
      by (intros P HP HP'; by specialize (HP HP')).
    apply Hn0 in Hk. lia.
Qed.

(** A LIMIT order that leaves its loop with a remainder is apart from
    every entry of the opposite side. *)
Lemma exit_apart sd incoming s :
  numeric_prices (m_mem s) ->
  heap_ok (opp_less sd (m_mem s)) (opp sd (m_book s)) ->
  body_step sd incoming s (Break s) ->
  (0 < Remaining (deref (m_mem s) incoming))%Z ->
  forall y, y ∈ opp sd (m_book s) -> apart sd (m_mem s) incoming y = true.
Proof.
  intros Hn Hh Hstep Hrem y Hy.
  inversion Hstep as [[Hnil|Hle]| |best Htop _ Hact HL Hg|].
  - rewrite Hnil in Hy. by apply elem_of_nil in Hy.
  - lia.
  - apply gate_apart with best; [done..|].
    apply list_elem_of_lookup_1 in Hy as [k Hk].
    exact (heap_root_min (opp_less sd (m_mem s))
             (fun a b => opp_less_asym sd _ a b Hn)
             (fun a b c => opp_less_negtrans sd _ a b c Hn)
             _ best Hh Htop k y Hk).
Qed.

Lemma finalizeOrder_inv sd o s s' :
  numeric_prices (m_mem s) -> side_inv sd (m_mem s) (m_book s) ->
  is_Some (m_mem s !! o) ->
  body_step sd o s (Break s) ->
  finalizeOrder o (push_own sd o) s = Ok s' ->
  side_inv sd (m_mem s') (m_book s').
Proof.
  intros Hn Hinv Halloc Hexit Hfin.
  apply finalizeOrder_cases in Hfin
    as (_ & _ & Hopp & _ & Hf & _ & _ & [[-> _]|(_ & HL & Hrem & _ & Hpush)]).
  { by eapply side_inv_frame. }
  pose proof (numeric_frame_fwd _ _ Hf Hn) as Hn'.
  pose proof (exit_apart sd o s Hn (proj1 (proj2 (proj2 Hinv))) Hexit Hrem)
    as Hap.
  pose proof (side_inv_frame _ _ _ _ Hf Hinv) as (Ha & Ho & Hp & Hc).
  destruct (heap_Push_total (own_less sd (m_mem s')) (own sd (m_book s)) o)
    as (h' & Eh & Hperm).
  rewrite Hpush in Eh. injection Eh as <-.
  unfold side_inv. rewrite Hopp. split_and!; try done.
  - intros x Hx. apply elem_of_app in Hx as [Hx|Hx].
    + rewrite Hperm in Hx. apply elem_of_cons in Hx as [->|Hx].
      * by apply Hf.
      * apply Ha. apply elem_of_app. by left.
    + apply Ha. apply elem_of_app. by right.
  - eapply (heap_Push_heap (own_less sd (m_mem s'))
              (fun a b => own_less_asym sd _ a b Hn')
              (fun a b c => own_less_negtrans sd _ a b c Hn')); done.
  - intros x y Hx Hy. rewrite Hperm in Hx. apply elem_of_cons in Hx as [->|Hx].
    + destruct (less_frame sd _ _ o y Hf) as (_ & _ & ->). by apply Hap.
    + by apply Hc.
Qed.

Lemma OrderBook_Submit_frame a b trades b' :
  OrderBook_Submit (Some a) b = Ok (trades, b') -> frame (mem b) (mem b').
Proof.
  intros Hsub. apply OrderBook_Submit_inv in Hsub
    as [(sd & s1 & s' & _ & Hloop & Hfin & _ & ->)|(_ & _ & _ & ->)];
    [|apply frame_refl].
  apply loop_trades in Hloop as (Hf & _).
  apply finalizeOrder_cases in Hfin as (_ & _ & _ & _ & Hf' & _).
  by eapply frame_trans.
Qed.

(** [Submit] keeps the heaps ordered and the book uncrossed, when no price
    is NaN. *)
Lemma OrderBook_Submit_book_inv a b trades b' :
  numeric_prices (mem b) -> is_Some (mem b !! a) ->
  book_inv (mem b) (book b) ->
  OrderBook_Submit (Some a) b = Ok (trades, b') ->
  book_inv (mem b') (book b').
Proof.
  intros Hn Halloc Hinv Hsub.
  apply OrderBook_Submit_inv in Hsub
    as [(sd & s1 & s' & _ & Hloop & Hfin & _ & ->)|(_ & _ & _ & ->)];
    [|done].
  cbn [mem book]. apply (book_inv_side sd).
  apply (book_inv_side sd) in Hinv.
  apply loop_exit in Hloop as Hexit.
  apply loop_trades in Hloop as Htr. destruct Htr as (Hf & _).
  cbn [m_mem] in Hf.
  apply (loop_inv _ (fun s => numeric_prices (m_mem s) /\
                              side_inv sd (m_mem s) (m_book s))) in Hloop
    as [Hn1 Hinv1].
  - eapply finalizeOrder_inv; [exact Hn1|exact Hinv1| |exact Hexit|exact Hfin].
    by apply Hf.
  - intros s c [Hns His] Hc. apply match_body_step in Hc.
    eapply body_step_inv; [exact Hns|exact His|exact Hc].
  - done.
Qed.

Lemma OrderBook_Cancel_frame orderID b :
  frame (mem b) (mem (OrderBook_Cancel orderID b).2) /\
  book (OrderBook_Cancel orderID b).2 = book b.
Proof.
  destruct (OrderBook_Cancel_cases orderID b)
    as [(a & _ & _ & _ & ->)|[_ ->]]; cbn [snd mem book].
  - split; [|done]. apply frame_update, same_fields_set_Status.
  - split; [apply frame_refl|done].
Qed.

Lemma exec_numeric_back c b b' :
  exec c b = Some b' -> numeric_prices (mem b') -> numeric_prices (mem b).
Proof.
  destruct c as [a o|a|orderID]; cbn [exec].
  - destruct (mem b !! a) eqn:Ha; [done|]. intros [= <-] Hn x o' Hx.
    apply (Hn x). cbn [mem]. rewrite lookup_insert_ne; [done|]. congruence.
  - destruct (mem b !! a); [|done].
    destruct (OrderBook_Submit (Some a) b) as [[trades b1]| |] eqn:Hs; try done.
    intros [= <-]. apply numeric_frame. by eapply OrderBook_Submit_frame.
  - intros [= <-]. apply numeric_frame. apply OrderBook_Cancel_frame.
Qed.

Lemma exec_book_inv c b b' :
  exec c b = Some b' -> numeric_prices (mem b) ->
  book_inv (mem b) (book b) -> book_inv (mem b') (book b').
Proof.
  destruct c as [a o|a|orderID]; cbn [exec].
  - destruct (mem b !! a) eqn:Ha; [done|]. intros [= <-] _ (Hal & Hb & Hk & Hc).
    cbn [mem book].
    assert (forall x, x ∈ entries (book b) ->
              deref (<[a := o]> (mem b)) x = deref (mem b) x) as Hd.
    { intros x Hx. unfold deref. rewrite lookup_insert_ne; [done|].
      intros ->. destruct (Hal x Hx) as [? E]. congruence. }
    assert (forall x, x ∈ bids (book b) -> x ∈ entries (book b)) as Hbe
      by (intros; apply elem_of_app; by left).
    assert (forall x, x ∈ asks (book b) -> x ∈ entries (book b)) as Hae
      by (intros; apply elem_of_app; by right).
    split_and!.
    + intros x Hx. rewrite lookup_insert_is_Some. destruct (decide (a = x)); auto.
    + eapply heap_ok_ext; [|exact Hb]. intros x y Hx Hy.
      unfold bid_less. by rewrite !Hd by auto.
    + eapply heap_ok_ext; [|exact Hk]. intros x y Hx Hy.
      unfold ask_less. by rewrite !Hd by auto.
    + intros x y Hx Hy. rewrite !Hd by auto. by apply Hc.
  - destruct (mem b !! a) eqn:Ha; [|done].
    destruct (OrderBook_Submit (Some a) b) as [[trades b1]| |] eqn:Hs; try done.
    intros [= <-] Hn Hinv. eapply OrderBook_Submit_book_inv; eauto.
  - intros [= <-] _ Hinv.
    destruct (OrderBook_Cancel_frame orderID b) as [Hf ->].
    apply (book_inv_side OnBuy). eapply side_inv_frame; [exact Hf|].
    by apply (book_inv_side OnBuy).
Qed.

Lemma run_numeric_back cs b b' :
  run cs b = Some b' -> numeric_prices (mem b') -> numeric_prices (mem b).
Proof.
  revert b. induction cs as [|c cs IH]; intros b; cbn [run].
  - by intros [= <-].
  - destruct (exec c b) as [b1|] eqn:Hc; [|done]. intros Hr Hn.
    eapply exec_numeric_back; [exact Hc|]. by eapply IH.
Qed.

Lemma run_book_inv cs b b' :
  run cs b = Some b' -> numeric_prices (mem b') ->
  book_inv (mem b) (book b) -> book_inv (mem b') (book b').
Proof.
  revert b. induction cs as [|c cs IH]; intros b; cbn [run].
  - by intros [= <-].
  - destruct (exec c b) as [b1|] eqn:Hc; [|done]. intros Hr Hn Hinv.
    eapply IH; [exact Hr|exact Hn|].
    eapply exec_book_inv; [exact Hc| |exact Hinv].
    eapply exec_numeric_back; [exact Hc|]. by eapply run_numeric_back.
Qed.

Lemma heap_ok_nil {A} (less : A -> A -> bool) : heap_ok less [].
Proof. intros c Hc. simpl in Hc. lia. Qed.

(** In every reachable state whose prices are numbers, both heaps are
    ordered, every entry is an order of the store and no bid is priced at
    or above an ask. *)
Lemma reachable_book_inv b :
  reachable b -> numeric_prices (mem b) -> book_inv (mem b) (book b).
Proof.
  intros (sym & seq & cs & Hrun) Hn.
  eapply run_book_inv; [exact Hrun|exact Hn|]. cbn [mem book].
  split_and!.
  - intros x Hx. by apply elem_of_nil in Hx.
  - apply heap_ok_nil.
  - apply heap_ok_nil.
  - intros x y Hx. by apply elem_of_nil in Hx.
Qed.

Lemma turns_inv sd incoming s s' :
  turns sd incoming s s' ->
  numeric_prices (m_mem s) -> side_inv sd (m_mem s) (m_book s) ->
  numeric_prices (m_mem s') /\ side_inv sd (m_mem s') (m_book s').
Proof.
  induction 1 as [s|s s1 s2 Hc _ IH]; [done|]. intros Hn Hinv.
  apply match_body_step in Hc.
  destruct (body_step_inv _ _ _ _ Hn Hinv Hc) as [Hn1 Hinv1]. by apply IH.
Qed.

(** C1, as the code has it.  In a state reached by submits and cancels
    with numeric prices, and at any turn of a matching loop started there,
    the resting order the loop is about to trade against has a strictly
    better price than any other entry of its side (lower for asks, higher
    for bids), or an equal price and a timestamp that is earlier or the
    same.  So of two entries at one price with distinct timestamps the
    earlier is matched first. *)
Theorem price_time_priority b sd incoming s best x :
  reachable b -> numeric_prices (mem b) ->
  turns sd incoming (mkM (mem b) (globalTradeSeq b) (book b) []) s ->
  selects sd incoming s best ->
  x ∈ opp sd (m_book s) ->
  ranks_first sd (deref (m_mem s) best) (deref (m_mem s) x) /\
  (f64_eq (Price (deref (m_mem s) best)) (Price (deref (m_mem s) x)) = true ->
   Timestamp (deref (m_mem s) best) <> Timestamp (deref (m_mem s) x) ->
   (Timestamp (deref (m_mem s) best) < Timestamp (deref (m_mem s) x))%Z).
Proof.
  intros Hr Hn Ht (Htop & _) Hx.
  pose proof (reachable_book_inv b Hr Hn) as Hinv.
  apply (book_inv_side sd) in Hinv.
  destruct (turns_inv _ _ _ _ Ht Hn Hinv) as [Hn' (_ & _ & Hh & _)].
  pose proof (top_ranks_first sd _ _ best x Hn' Hh Htop Hx) as Hrank.
  split; [done|]. intros He Hne.
  destruct Hrank as [Hlt|[_ Hle]]; [|lia].
  exfalso.
  pose proof (numeric_deref _ best Hn') as Nb.
  pose proof (numeric_deref _ x Hn') as Nx.
  apply (f64_eq_key _ _ Nb Nx) in He.
  destruct sd.
  - apply (f64_lt_key _ _ Nb Nx) in Hlt. unfold key_lt, key_eq in *. lia.
  - apply (f64_gt_key _ _ Nb Nx) in Hlt. unfold key_lt, key_eq in *. lia.
Qed.

(** * Concrete runs *)

Definition new_orders_numeric (cs : list call) : Prop :=
  Forall (fun c => match c with
                   | CallNew _ o => is_nan (Price o) = false
                   | _ => True
                   end) cs.

Lemma run_numeric_fwd cs b b' :
  new_orders_numeric cs -> numeric_prices (mem b) ->
  run cs b = Some b' -> numeric_prices (mem b').
Proof.
  intros Hcs. revert b. induction Hcs as [|c cs Hc _ IH]; intros b Hn; cbn [run].
  - by intros [= <-].
  - destruct (exec c b) as [b1|] eqn:He; [|done]. apply IH.
    destruct c as [a o|a|orderID]; cbn [exec] in He.
    + destruct (mem b !! a); [done|]. injection He as <-. cbn [mem].
      intros x o'. rewrite lookup_insert. case_decide; [|by apply Hn].
      by intros [= <-].
    + destruct (mem b !! a); [|done].
      destruct (OrderBook_Submit (Some a) b) as [[trades b2]| |] eqn:Hs; try done.
      injection He as <-. eapply numeric_frame_fwd; [|exact Hn].
      by eapply OrderBook_Submit_frame.
    + injection He as <-. eapply numeric_frame_fwd; [|exact Hn].
      apply OrderBook_Cancel_frame.
Qed.

Lemma numeric_empty : numeric_prices ∅.
Proof. intros x o. by rewrite lookup_empty. Qed.

(** Two sellers at 190, the first earlier, and a buyer at 190. *)
Definition fifo_calls : list call :=
  [CallNew 1%positive (NewLimitOrder 1 1000 "AAPL" Sell (f64 190 0) 100);
   CallNew 2%positive (NewLimitOrder 2 2000 "AAPL" Sell (f64 190 0) 100);
   CallNew 3%positive (NewLimitOrder 3 3000 "AAPL" Buy (f64 190 0) 100);
   CallSubmit 1%positive; CallSubmit 2%positive].

Lemma price_time_priority_witness :
  exists b,
    run fifo_calls (mkB ∅ 0 (NewOrderBook "AAPL")) = Some b /\
    selects OnBuy 3%positive (mkM (mem b) (globalTradeSeq b) (book b) [])
            1%positive /\
    2%positive ∈ asks (book b) /\
    ranks_first OnBuy (deref (mem b) 1%positive) (deref (mem b) 2%positive).
Proof.
  destruct (run fifo_calls (mkB ∅ 0 (NewOrderBook "AAPL"))) as [b|] eqn:E;
    [|vm_compute in E; discriminate].
  exists b.
  assert (numeric_prices (mem b)) as Hn.
  { apply (run_numeric_fwd fifo_calls (mkB ∅ 0 (NewOrderBook "AAPL")) b);
      [repeat constructor|exact numeric_empty|exact E]. }
  assert (reachable b) as Hr by (by exists "AAPL"%string, 0%Z, fifo_calls).
  pose proof E as E'. vm_compute in E'. injection E' as E'.
  assert (selects OnBuy 3%positive (mkM (mem b) (globalTradeSeq b) (book b) [])
                  1%positive) as Hsel.
  { rewrite <- E'. vm_compute. split_and!; reflexivity. }
  assert (2%positive ∈ asks (book b)) as Hin.
  { rewrite <- E'. vm_compute. apply list_elem_of_further, list_elem_of_here. }
  split; [reflexivity|]. split; [exact Hsel|]. split; [exact Hin|].
  exact (proj1 (price_time_priority b OnBuy 3%positive _ 1%positive 2%positive
                  Hr Hn (turns_here _ _ _) Hsel Hin)).
Defined.

(** C1, as stated, fails in two ways.  With two resting asks of one price
    and one timestamp, the loop selects the first, and has neither a
    strictly better price nor a strictly earlier timestamp than the other.
    With a NaN-priced ask in the heap, the loop selects the ask at 100
    while an active ask at 50 rests under the NaN entry. *)
Lemma price_time_priority_counterexample :
  (let cs := [CallNew 1%positive (NewLimitOrder 1 1000 "AAPL" Sell (f64 190 0) 100);
              CallNew 2%positive (NewLimitOrder 2 1000 "AAPL" Sell (f64 190 0) 100);
              CallNew 3%positive (NewLimitOrder 3 3000 "AAPL" Buy (f64 190 0) 100);
              CallSubmit 1%positive; CallSubmit 2%positive] in
   exists b,
     run cs (mkB ∅ 0 (NewOrderBook "AAPL")) = Some b /\
     selects OnBuy 3%positive (mkM (mem b) (globalTradeSeq b) (book b) [])
             1%positive /\
     2%positive ∈ asks (book b) /\
     IsActive (deref (mem b) 2%positive) = true /\
     ~ ranks_strictly_first OnBuy (deref (mem b) 1%positive)
                                  (deref (mem b) 2%positive)) /\
  (let cs := [CallNew 1%positive (NewLimitOrder 1 1000 "AAPL" Sell (f64 100 0) 10);
              CallNew 2%positive (NewLimitOrder 2 2000 "AAPL" Sell f64_nan 10);
              CallNew 3%positive (NewLimitOrder 3 3000 "AAPL" Sell (f64 120 0) 10);
              CallNew 4%positive (NewLimitOrder 4 4000 "AAPL" Sell (f64 50 0) 10);
              CallNew 5%positive (NewLimitOrder 5 5000 "AAPL" Buy (f64 200 0) 10);
              CallSubmit 1%positive; CallSubmit 2%positive; CallSubmit 3%positive; CallSubmit 4%positive] in
   exists b,
     run cs (mkB ∅ 0 (NewOrderBook "AAPL")) = Some b /\
     selects OnBuy 5%positive (mkM (mem b) (globalTradeSeq b) (book b) [])
             1%positive /\
     4%positive ∈ asks (book b) /\
     IsActive (deref (mem b) 4%positive) = true /\
     ~ ranks_first OnBuy (deref (mem b) 1%positive) (deref (mem b) 4%positive)).
Proof.
  split; cbv zeta; eexists; (split; [vm_compute; reflexivity|]).
  - split; [vm_compute; split_and!; reflexivity|].
    split; [vm_compute; apply list_elem_of_further, list_elem_of_here|].
    split; [vm_compute; reflexivity|].
    vm_compute. intros [H|[_ H]]; discriminate.
  - split; [vm_compute; split_and!; reflexivity|].
    split; [vm_compute; do 3 apply list_elem_of_further; apply list_elem_of_here|].
    split; [vm_compute; reflexivity|].
    vm_compute. intros [H|[H _]]; discriminate.
Qed.

(** * Top of book *)

Lemma BestBid_present m ob p :
  BestBid m ob = (p, true) <->
  exists top, bids ob !! 0 = Some top /\ IsActive (deref m top) = true /\
              p = Price (deref m top).
Proof.
  unfold BestBid. destruct (bids ob) as [|top h]; cbn [lookup list_lookup].
  - split; [done|]. by intros (? & ? & _).
  - destruct (IsActive (deref m top)) eqn:Ha.
    + split; [intros [= <-]; eauto|]. intros (t & [= <-] & _ & ->). done.
    + split; [done|]. intros (t & [= <-] & Ha' & _). congruence.
Qed.

Lemma BestAsk_present m ob p :
  BestAsk m ob = (p, true) <->
  exists top, asks ob !! 0 = Some top /\ IsActive (deref m top) = true /\
              p = Price (deref m top).
Proof.
  unfold BestAsk. destruct (asks ob) as [|top h]; cbn [lookup list_lookup].
  - split; [done|]. by intros (? & ? & _).
  - destruct (IsActive (deref m top)) eqn:Ha.
    + split; [intros [= <-]; eauto|]. intros (t & [= <-] & _ & ->). done.
    + split; [done|]. intros (t & [= <-] & Ha' & _). congruence.
Qed.

Lemma BestBid_absent m ob :
  (BestBid m ob).2 = false <->
  bids ob = [] \/
  exists top, bids ob !! 0 = Some top /\ IsActive (deref m top) = false.
Proof.
  unfold BestBid. destruct (bids ob) as [|top h]; cbn [lookup list_lookup].
  - split; [by left|done].
  - destruct (IsActive (deref m top)) eqn:Ha; cbn [snd].
    + split; [done|]. intros [?|(t & [= <-] & ?)]; congruence.
    + split; [|done]. intros _. right. eauto.
Qed.

Lemma BestAsk_absent m ob :
  (BestAsk m ob).2 = false <->
  asks ob = [] \/
  exists top, asks ob !! 0 = Some top /\ IsActive (deref m top) = false.
Proof.
  unfold BestAsk. destruct (asks ob) as [|top h]; cbn [lookup list_lookup].
  - split; [by left|done].
  - destruct (IsActive (deref m top)) eqn:Ha; cbn [snd].
    + split; [done|]. intros [?|(t & [= <-] & ?)]; congruence.
    + split; [|done]. intros _. right. eauto.
Qed.

(** No entry of a side is priced strictly better than the entry that
    ranks first. *)
Lemma ranks_first_price sd o x :
  is_nan (Price o) = false -> is_nan (Price x) = false ->
  ranks_first sd o x ->
  match sd with
  | OnBuy => f64_lt (Price x) (Price o) = false
  | OnSell => f64_gt (Price x) (Price o) = false
  end.
Proof.
  intros No Nx Hr.
  pose proof (f64_lt_key _ _ No Nx) as H1.
  pose proof (f64_lt_key _ _ Nx No) as H2.
  pose proof (f64_eq_key _ _ No Nx) as H3.
  unfold ranks_first in Hr. change f64_gt with (fun a b => f64_lt b a) in *.
  cbv beta in *. unfold key_lt, key_eq in *.
  destruct (fkey (Price o)) as [? [? ?]], (fkey (Price x)) as [? [? ?]];
    simpl in *.
  destruct sd.
  - destruct (f64_lt (Price x) (Price o)); [exfalso|done].
    apply proj1 in H2. specialize (H2 eq_refl).
    destruct Hr as [Hr|[Hr _]]; [apply H1 in Hr|apply H3 in Hr]; lia.
  - destruct (f64_lt (Price o) (Price x)); [exfalso|done].
    apply proj1 in H1. specialize (H1 eq_refl).
    destruct Hr as [Hr|[Hr _]]; [apply H2 in Hr|apply H3 in Hr]; lia.
Qed.

(** C5, as the code has it.  The best-price queries read the entry at
    index 0 of the heap only.  If that entry is active they return its
    price with present = true, and (in a reachable state with numeric
    prices) no entry of the side has a better price; if the side is empty
    or that entry is inactive they return (0, false), whatever rests
    beneath it. *)
Theorem best_price_top_only b :
  reachable b -> numeric_prices (mem b) ->
  (forall p, BestBid (mem b) (book b) = (p, true) <->
     exists top, bids (book b) !! 0 = Some top /\
                 IsActive (deref (mem b) top) = true /\
                 p = Price (deref (mem b) top)) /\
  (forall p x, BestBid (mem b) (book b) = (p, true) -> x ∈ bids (book b) ->
     f64_gt (Price (deref (mem b) x)) p = false) /\
  ((BestBid (mem b) (book b)).2 = false <->
     bids (book b) = [] \/
     exists top, bids (book b) !! 0 = Some top /\
                 IsActive (deref (mem b) top) = false) /\
  ((BestBid (mem b) (book b)).2 = false ->
     (BestBid (mem b) (book b)).1 = f64_zero) /\
  (forall p, BestAsk (mem b) (book b) = (p, true) <->
     exists top, asks (book b) !! 0 = Some top /\
                 IsActive (deref (mem b) top) = true /\
                 p = Price (deref (mem b) top)) /\
  (forall p x, BestAsk (mem b) (book b) = (p, true) -> x ∈ asks (book b) ->
     f64_lt (Price (deref (mem b) x)) p = false) /\
  ((BestAsk (mem b) (book b)).2 = false <->
     asks (book b) = [] \/
     exists top, asks (book b) !! 0 = Some top /\
                 IsActive (deref (mem b) top) = false) /\
  ((BestAsk (mem b) (book b)).2 = false ->
     (BestAsk (mem b) (book b)).1 = f64_zero).
Proof.
  intros Hr Hn.
  pose proof (reachable_book_inv b Hr Hn) as (_ & Hb & Ha & _).
  split_and!.
  - apply BestBid_present.
  - intros p x Hp Hx. apply BestBid_present in Hp as (top & Htop & _ & ->).
    apply (ranks_first_price OnSell); [by apply numeric_deref..|].
    by apply (top_ranks_first OnSell _ (bids (book b))).
  - apply BestBid_absent.
  - unfold BestBid. destruct (bids (book b)) as [|top h]; [done|].
    by destruct (IsActive (deref (mem b) top)).
  - apply BestAsk_present.
  - intros p x Hp Hx. apply BestAsk_present in Hp as (top & Htop & _ & ->).
    apply (ranks_first_price OnBuy); [by apply numeric_deref..|].
    by apply (top_ranks_first OnBuy _ (asks (book b))).
  - apply BestAsk_absent.
  - unfold BestAsk. destruct (asks (book b)) as [|top h]; [done|].
    by destruct (IsActive (deref (mem b) top)).
Qed.

(** Two buyers, the better one cancelled. *)
Definition cancelled_top_calls : list call :=
  [CallNew 1%positive (NewLimitOrder 1 1000 "AAPL" Buy (f64 190 0) 100);
   CallNew 2%positive (NewLimitOrder 2 2000 "AAPL" Buy (f64 189 0) 100);
   CallSubmit 1%positive; CallSubmit 2%positive; CallCancel 1].

Lemma best_price_top_only_witness :
  exists b,
    run cancelled_top_calls (mkB ∅ 0 (NewOrderBook "AAPL")) = Some b /\
    numeric_prices (mem b) /\
    (BestBid (mem b) (book b)).2 = false /\
    (BestBid (mem b) (book b)).1 = f64_zero.
Proof.
  destruct (run cancelled_top_calls (mkB ∅ 0 (NewOrderBook "AAPL")))
    as [b|] eqn:E; [|vm_compute in E; discriminate].
  exists b.
  assert (numeric_prices (mem b)) as Hn.
  { apply (run_numeric_fwd cancelled_top_calls
             (mkB ∅ 0 (NewOrderBook "AAPL")) b);
      [repeat constructor|exact numeric_empty|exact E]. }
  assert (reachable b) as Hr
    by (by exists "AAPL"%string, 0%Z, cancelled_top_calls).
  pose proof E as E'. vm_compute in E'. injection E' as E'.
  assert ((BestBid (mem b) (book b)).2 = false) as Habs
    by (rewrite <- E'; vm_compute; reflexivity).
  split; [reflexivity|]. split; [exact Hn|]. split; [exact Habs|].
  destruct (best_price_top_only b Hr Hn) as (_ & _ & _ & H & _).
  exact (H Habs).
Defined.

(** C5, as stated, fails: after the better of two resting buyers is
    cancelled, an active buyer rests on the side and [BestBid] answers
    (0, false). *)
Lemma best_price_skips_counterexample :
  exists b,
    run cancelled_top_calls (mkB ∅ 0 (NewOrderBook "AAPL")) = Some b /\
    2%positive ∈ bids (book b) /\
    IsActive (deref (mem b) 2%positive) = true /\
    Price (deref (mem b) 2%positive) = f64 189 0 /\
    BestBid (mem b) (book b) = (f64_zero, false).
Proof.
  eexists. split; [vm_compute; reflexivity|].
  split; [vm_compute; apply list_elem_of_further, list_elem_of_here|].
  split_and!; vm_compute; reflexivity.
Qed.

(** * The book at rest *)

(** Between calls, with numeric prices, a best bid and a best ask that are
    both present are not crossed. *)
Theorem no_crossed_book b pb pa :
  reachable b -> numeric_prices (mem b) ->
  BestBid (mem b) (book b) = (pb, true) ->
  BestAsk (mem b) (book b) = (pa, true) ->
  f64_lt pb pa = true.
Proof.
  intros Hr Hn Hb Ha.
  pose proof (reachable_book_inv b Hr Hn) as (_ & _ & _ & Hc).
  apply BestBid_present in Hb as (tb & Htb & _ & ->).
  apply BestAsk_present in Ha as (ta & Hta & _ & ->).
  apply Hc; by eapply list_elem_of_lookup_2.
Qed.

(** A run of [Gateway.Submit] calls, with what each one returned. *)
Fixpoint submit_each (os : list addr) (gw : Gateway)
  : result (list (list Trade + SubmitError) * Gateway) :=
  match os with
  | [] => Ok ([], gw)
  | a :: os =>
      do r <- Gateway_Submit (Some a) gw;
      do rs <- submit_each os (snd r);
      Ok (fst r :: fst rs, snd rs)
  end.

Definition accepted (out : list Trade + SubmitError) : bool :=
  match out with inl _ => true | inr _ => false end.

(** Four sellers, the second with a NaN price, a buyer at 60 and a market
    buyer. *)
Definition nan_orders : gmap addr Order :=
  <[1%positive := NewLimitOrder 1 1000 "AAPL" Sell (f64 100 0) 10]>
  (<[2%positive := NewLimitOrder 2 2000 "AAPL" Sell f64_nan 10]>
  (<[3%positive := NewLimitOrder 3 3000 "AAPL" Sell (f64 120 0) 10]>
  (<[4%positive := NewLimitOrder 4 4000 "AAPL" Sell (f64 50 0) 10]>
  (<[5%positive := NewLimitOrder 5 5000 "AAPL" Buy (f64 60 0) 10]>
  (<[6%positive := NewMarketOrder 6 6000 "AAPL" Buy 10]> ∅))))).

(** C4 fails on the code: [validateOrder] lets a LIMIT order with a NaN
    price through (both of its price comparisons are false on NaN), the NaN
    entry hides the seller at 50 beneath it in the ask heap, the buyer at 60
    rests, and once the market buyer has consumed the seller at 100 both
    top-of-book queries answer: best bid 60, best ask 50. *)
Theorem nan_price_crosses_book :
  let gw0 := NewGateway nan_orders 0 ["AAPL"]%string (Some []) in
  validateOrder nan_orders (Some 2%positive) = None /\
  exists outs gw ob,
    submit_each [1; 2; 3; 4; 5; 6]%positive gw0 = Ok (outs, gw) /\
    forallb accepted outs = true /\
    books gw !! "AAPL"%string = Some ob /\
    BestBid (g_mem gw) ob = (f64 60 0, true) /\
    BestAsk (g_mem gw) ob = (f64 50 0, true) /\
    f64_lt (f64 60 0) (f64 50 0) = false.
Proof.
  cbv zeta. split; [vm_compute; reflexivity|].
  destruct (submit_each [1; 2; 3; 4; 5; 6]%positive
              (NewGateway nan_orders 0 ["AAPL"]%string (Some [])))
    as [[outs gw]| |] eqn:E; [|vm_compute in E; discriminate..].
  exists outs, gw. vm_compute in E. injection E as <- <-.
  eexists. split; [reflexivity|]. split; [vm_compute; reflexivity|].
  split; [vm_compute; reflexivity|].
  split_and!; vm_compute; reflexivity.
Qed.

(** * What a [Submit] fills *)

(** Every order is filled between nothing and its quantity. *)
Definition fills_ok (m : gmap addr Order) : Prop :=
  forall a o, m !! a = Some o ->
    (0 <= Filled o <= Quantity o)%Z /\ (Quantity o < 2 ^ 63)%Z.

(** The quantities of a list of trades, added up without wrap-around. *)
Definition quantities (ts : list Trade) : Z :=
  foldr (fun t z => (TQuantity t + z)%Z) 0%Z ts.

Lemma quantities_app ts ts' :
  quantities (ts ++ ts') = (quantities ts + quantities ts')%Z.
Proof. induction ts as [|t ts IH]; simpl; [done|]. rewrite IH. lia. Qed.

Lemma fills_ok_deref m a :
  fills_ok m ->
  (0 <= Filled (deref m a) <= Quantity (deref m a))%Z /\
  (Quantity (deref m a) < 2 ^ 63)%Z.
Proof.
  intros H. unfold deref. destruct (m !! a) as [o|] eqn:E; simpl.
  - by apply (H a).
  - pow_norm. lia.
Qed.

Lemma fills_ok_well_typed m : fills_ok m -> well_typed m.
Proof.
  intros H a o E. destruct (H a o E) as [? ?]. unfold in_int64. pow_norm. lia.
Qed.

Lemma fills_ok_Remaining m a :
  fills_ok m ->
  Remaining (deref m a) = (Quantity (deref m a) - Filled (deref m a))%Z.
Proof.
  intros H. destruct (fills_ok_deref m a H) as [? ?].
  unfold Remaining, sub64. apply wrap64_id. unfold in_int64. pow_norm. lia.
Qed.

Lemma fills_ok_update m a f :
  fills_ok m ->
  ((0 <= Filled (f (deref m a)) <= Quantity (f (deref m a)))%Z /\
   (Quantity (f (deref m a)) < 2 ^ 63)%Z) ->
  fills_ok (update m a f).
Proof.
  intros H Hf x o. unfold update. rewrite lookup_insert. case_decide.
  - by intros [= <-].
  - apply H.
Qed.

Lemma fills_ok_set_Status m a st : fills_ok m -> fills_ok (update m a (set_Status st)).
Proof. intros H. apply fills_ok_update; [done|]. by apply fills_ok_deref. Qed.

Lemma min64_spec a b : min64 a b = Z.min a b.
Proof. unfold min64. destruct (a <? b)%Z eqn:E; lia. Qed.

(** One turn of the loop, for an incoming order that does not rest on the
    opposite side. *)
Lemma body_step_fills sd incoming s c :
  fills_ok (m_mem s) -> incoming ∉ opp sd (m_book s) ->
  body_step sd incoming s c ->
  fills_ok (m_mem (ctl_state c)) /\
  exists ts,
    m_trades (ctl_state c) = m_trades s ++ ts /\
    Forall (fun t => (0 <= TQuantity t)%Z) ts /\
    Filled (deref (m_mem (ctl_state c)) incoming) =
      (Filled (deref (m_mem s) incoming) + quantities ts)%Z.
Proof.
  intros Hok Hnot
    [Hex|best p Htop Hrem Hact Hpop|best Htop Hrem Hact HL Hg
    |best qty trade seq' m2 m3 ob' Htop Hrem Hact Hg Hq Ht Hm2 Hcase];
    cbn [ctl_state m_mem m_book m_trades].
  1-3: split; [done|]; exists []; rewrite app_nil_r; simpl;
       split_and!; [done|constructor|lia].
  assert (incoming <> best) as Hne.
  { intros ->. apply Hnot. by eapply list_elem_of_lookup_2. }
  destruct (fills_ok_deref _ incoming Hok) as [Hi1 Hi2].
  destruct (fills_ok_deref _ best Hok) as [Hb1 Hb2].
  rewrite (fills_ok_Remaining _ incoming Hok) in Hq, Hrem.
  rewrite (fills_ok_Remaining _ best Hok) in Hq.
  rewrite min64_spec in Hq.
  destruct (trade_of_against _ _ _ _ _ _ _ _ _ Ht) as [_ Hqty].
  assert (0 <= qty)%Z as Hq0 by lia.
  assert (fills_ok (update (m_mem s) incoming (add_Filled qty))) as Hok1.
  { apply fills_ok_update; [done|]. unfold add_Filled, add64. simpl.
    rewrite wrap64_id; [lia|]. unfold in_int64. pow_norm. lia. }
  assert (fills_ok m2) as Hok2.
  { subst m2. apply fills_ok_update; [done|].
    rewrite deref_update_ne by done. unfold add_Filled, add64. simpl.
    rewrite wrap64_id; [lia|]. unfold in_int64. pow_norm. lia. }
  assert (Filled (deref m2 incoming) =
          (Filled (deref (m_mem s) incoming) + qty)%Z) as HF.
  { subst m2. rewrite deref_update_ne by done. rewrite deref_update_eq.
    unfold add_Filled, add64. simpl.
    apply wrap64_id. unfold in_int64. pow_norm. lia. }
  assert (m3 = update m2 best (set_Status StatusFilled) \/
          m3 = update m2 best (set_Status StatusPartial)) as Hm3.
  { destruct Hcase as [(_ & -> & _)|(_ & -> & _)]; auto. }
  split.
  - destruct Hm3 as [-> | ->]; (by apply fills_ok_set_Status).
  - exists [trade]. split; [done|]. split; [constructor; [lia|constructor]|].
    simpl. rewrite Hqty.
    destruct Hm3 as [-> | ->]; rewrite deref_update_ne by done; lia.
Qed.

(** What the loop has done when it ends. *)
Definition loop_fills_inv (sd : side) (incoming : addr) (s0 s : mstate) : Prop :=
  fills_ok (m_mem s) /\ (incoming ∉ opp sd (m_book s)) /\
  exists ts,
    m_trades s = m_trades s0 ++ ts /\
    Forall (fun t => (0 <= TQuantity t)%Z) ts /\
    Filled (deref (m_mem s) incoming) =
      (Filled (deref (m_mem s0) incoming) + quantities ts)%Z.

Lemma loop_fills sd incoming fuel s0 s1 :
  fills_ok (m_mem s0) -> incoming ∉ opp sd (m_book s0) ->
  loop (match_body sd incoming) fuel s0 = Ok s1 ->
  loop_fills_inv sd incoming s0 s1.
Proof.
  intros Hok Hnot.
  apply (loop_inv (match_body sd incoming) (loop_fills_inv sd incoming s0)).
  - intros s c (Hok' & Hnot' & ts & Hts & Hpos & HF) Hc.
    apply match_body_step in Hc.
    destruct (body_step_fills _ _ _ _ Hok' Hnot' Hc)
      as (Hok'' & ts' & Hts' & Hpos' & HF').
    destruct (body_step_frame _ _ _ _ Hc) as (_ & _ & _ & Hsub & _).
    split; [done|]. split; [intros Hin; by apply Hnot', Hsub|].
    exists (ts ++ ts'). rewrite Hts', Hts, app_assoc. split; [done|].
    split; [by apply Forall_app|]. rewrite quantities_app. lia.
  - split; [done|]. split; [done|]. exists []. rewrite app_nil_r.
    split; [done|]. split; [constructor|simpl; lia].
Qed.

Lemma finalizeOrder_fills sd o s s' :
  finalizeOrder o (push_own sd o) s = Ok s' ->
  (fills_ok (m_mem s) -> fills_ok (m_mem s')) /\
  Filled (deref (m_mem s') o) = Filled (deref (m_mem s) o).
Proof.
  intros H. destruct (finalizeOrder_cases _ _ _ _ H)
    as (_ & _ & _ & _ & _ & _ & _ & Hcase).
  assert (m_mem s' = m_mem s \/
          exists st, m_mem s' = update (m_mem s) o (set_Status st)) as [->|[st ->]].
  { destruct Hcase as [[_ [[_ ->]|[(_ & _ & ->)|(_ & _ & ->)]]]
                      |(_ & _ & _ & -> & _)]; eauto.
    destruct (0 <? Filled (deref (m_mem s) o))%Z; eauto. }
  - done.
  - split; [apply fills_ok_set_Status|]. by rewrite deref_update_eq.
Qed.

(** The side an incoming order is matched against. *)
Definition facing (m : gmap addr Order) (ob : OrderBook) (a : addr) : list addr :=
  if String.eqb (OSide (deref m a)) Buy then asks ob
  else if String.eqb (OSide (deref m a)) Sell then bids ob
  else [].

Lemma facing_side sd m ob a :
  OSide (deref m a) = side_of sd -> facing m ob a = opp sd ob.
Proof. unfold facing. intros ->. by destruct sd. Qed.

Lemma submit_fills a b trades b' :
  fills_ok (mem b) -> (a ∉ facing (mem b) (book b) a) ->
  OrderBook_Submit (Some a) b = Ok (trades, b') ->
  fills_ok (mem b') /\
  Forall (fun t => (0 <= TQuantity t)%Z) trades /\
  Filled (deref (mem b') a) = (Filled (deref (mem b) a) + quantities trades)%Z.
Proof.
  intros Hok Hnot Hsub.
  destruct (OrderBook_Submit_inv _ _ _ _ Hsub)
    as [(sd & s1 & s' & Hsd & Hloop & Hfin & -> & ->)|(_ & _ & -> & ->)].
  2: { split; [done|]. split; [constructor|simpl; lia]. }
  rewrite (facing_side sd) in Hnot by done.
  destruct (loop_fills sd a _ (mkM (mem b) (globalTradeSeq b) (book b) []) s1
              Hok Hnot Hloop) as (Hok1 & _ & ts & Hts & Hpos & HF).
  destruct (finalizeOrder_fills _ _ _ _ Hfin) as [Hok' HF'].
  destruct (finalizeOrder_cases _ _ _ _ Hfin) as (Htr & _).
  cbn [mem m_trades] in *. rewrite Htr, Hts. cbn [app].
  split; [auto|]. split; [done|]. rewrite HF'. exact HF.
Qed.

(** ** Trade identifiers *)

Lemma wrapU64_succ z : wrapU64 (wrapU64 z + 1) = wrapU64 (z + 1).
Proof. unfold wrapU64. by rewrite Zplus_mod_idemp_l. Qed.

Lemma wrapU64_id z : (0 <= z < 2 ^ 64)%Z -> wrapU64 z = z.
Proof. intros. unfold wrapU64. by apply Z.mod_small. Qed.

Lemma body_step_seq sd incoming s c :
  body_step sd incoming s c ->
  (m_trades (ctl_state c) = m_trades s /\ m_seq (ctl_state c) = m_seq s) \/
  exists t, m_trades (ctl_state c) = m_trades s ++ [t] /\
            TradeID t = wrapU64 (m_seq s + 1) /\
            m_seq (ctl_state c) = wrapU64 (m_seq s + 1).
Proof.
  intros [Hex|best p Htop Hrem Hact Hpop|best Htop Hrem Hact HL Hg
         |best qty trade seq' m2 m3 ob' Htop Hrem Hact Hg Hq Ht Hm2 Hcase];
    cbn [ctl_state m_seq m_trades]; [by left..|].
  right. exists trade. split; [done|].
  unfold trade_of, newTrade, nextTradeID in Ht.
  destruct sd; injection Ht as <- <-; done.
Qed.

Definition loop_seq_inv (s0 s : mstate) : Prop :=
  exists ts,
    m_trades s = m_trades s0 ++ ts /\
    m_seq s = wrapU64 (m_seq s0 + Z.of_nat (length ts)) /\
    forall (i : nat) t, ts !! i = Some t ->
      TradeID t = wrapU64 (m_seq s0 + Z.of_nat i + 1).

Lemma loop_seq sd incoming fuel s0 s1 :
  (0 <= m_seq s0 < 2 ^ 64)%Z ->
  loop (match_body sd incoming) fuel s0 = Ok s1 ->
  loop_seq_inv s0 s1.
Proof.
  intros Hseq.
  apply (loop_inv (match_body sd incoming) (loop_seq_inv s0)).
  - intros s c (ts & Hts & Hs & Hid) Hc. apply match_body_step in Hc.
    destruct (body_step_seq _ _ _ _ Hc) as [[Ht' Hs']|(t & Ht' & Hi & Hs')].
    + exists ts. rewrite Ht', Hs'. done.
    + exists (ts ++ [t]). rewrite Ht', Hts, app_assoc. split; [done|].
      rewrite Hs', Hs, wrapU64_succ, length_app. simpl.
      split; [f_equal; lia|].
      intros i t' Hl. apply lookup_app_Some in Hl as [Hl|[Hge Hl]]; [by apply Hid|].
      apply list_lookup_singleton_Some in Hl as [Hi0 <-].
      rewrite Hi, Hs, wrapU64_succ. f_equal. lia.
  - exists []. rewrite app_nil_r. simpl. rewrite Z.add_0_r.
    split; [done|]. split; [by rewrite wrapU64_id|]. intros i t Hl. done.
Qed.

(** ** How far the loop goes *)

Lemma body_step_shrinks sd incoming s c :
  body_step sd incoming s c ->
  opp sd (m_book (ctl_state c)) ⊆+ opp sd (m_book s).
Proof.
  intros [Hex|best p Htop Hrem Hact Hpop|best Htop Hrem Hact HL Hg
         |best qty trade seq' m2 m3 ob' Htop Hrem Hact Hg Hq Ht Hm2 Hcase];
    cbn [ctl_state m_book]; try done.
  - destruct (set_opp_sides sd (m_book s) (snd p)) as [_ ->].
    destruct (heap_Pop_top _ _ _ _ Htop Hpop) as [_ Hperm].
    rewrite Hperm. by apply submseteq_cons.
  - destruct Hcase as [(_ & _ & p & Hpop & ->)|(_ & _ & ->)]; [|done].
    destruct (set_opp_sides sd (m_book s) (snd p)) as [_ ->].
    destruct (heap_Pop_top _ _ _ _ Htop Hpop) as [_ Hperm].
    rewrite Hperm. by apply submseteq_cons.
Qed.

(** Each turn that trades either removes the resting order or leaves the
    incoming order with nothing to fill. *)
Definition loop_count_inv (sd : side) (incoming : addr) (s0 s : mstate) : Prop :=
  well_typed (m_mem s) /\
  opp sd (m_book s) ⊆+ opp sd (m_book s0) /\
  exists ts,
    m_trades s = m_trades s0 ++ ts /\
    (length ts + length (opp sd (m_book s)) <= length (opp sd (m_book s0)) \/
     ((Remaining (deref (m_mem s) incoming) <= 0)%Z /\
      0 < length (opp sd (m_book s)) /\
      length ts + length (opp sd (m_book s)) <= S (length (opp sd (m_book s0))))).

Lemma loop_count sd incoming fuel s0 s1 :
  well_typed (m_mem s0) ->
  loop (match_body sd incoming) fuel s0 = Ok s1 ->
  loop_count_inv sd incoming s0 s1.
Proof.
  intros Hw.
  apply (loop_inv (match_body sd incoming) (loop_count_inv sd incoming s0)).
  2: { split; [done|]. split; [done|]. exists []. rewrite app_nil_r.
       split; [done|]. left. simpl. lia. }
  intros s c (Hw' & Hsub & ts & Hts & Hcount) Hc. apply match_body_step in Hc.
  destruct (body_step_frame _ _ _ _ Hc) as (_ & _ & _ & _ & Hwc).
  pose proof (body_step_shrinks _ _ _ _ Hc) as Hsh.
  split; [auto|]. split; [by etrans|].
  destruct Hc as [Hex|best p Htop Hrem Hact Hpop|best Htop Hrem Hact HL Hg
         |best qty trade seq' m2 m3 ob' Htop Hrem Hact Hg Hq Ht Hm2 Hcase];
    cbn [ctl_state m_book m_trades m_mem] in *.
  - by exists ts.
  - exists ts. split; [done|]. left.
    destruct Hcount as [Hcount|[Hneg _]]; [|lia].
    destruct (set_opp_sides sd (m_book s) (snd p)) as [_ Ho]. rewrite Ho in *.
    destruct (heap_Pop_top _ _ _ _ Htop Hpop) as [_ Hperm].
    apply Permutation_length in Hperm. simpl in Hperm. lia.
  - by exists ts.
  - exists (ts ++ [trade]). rewrite Hts, app_assoc. split; [done|].
    rewrite length_app. simpl.
    destruct Hcount as [Hcount|[Hneg _]]; [|lia].
    destruct Hcase as [(_ & _ & p & Hpop & ->)|(Hnf & -> & ->)].
    + left. destruct (set_opp_sides sd (m_book s) (snd p)) as [_ ->].
      destruct (heap_Pop_top _ _ _ _ Htop Hpop) as [_ Hperm].
      apply Permutation_length in Hperm. simpl in Hperm. lia.
    + right. split.
      { pose proof (trade_fills_incoming (m_mem s) incoming best Hw' Hrem) as Hfill.
        cbv zeta in Hfill. rewrite <- Hq, <- Hm2 in Hfill. specialize (Hfill Hnf).
        rewrite deref_update. case_decide; [subst|done].
        by rewrite Remaining_set_Status. }
      apply lookup_lt_Some in Htop. lia.
Qed.

(** How the loop ends. *)
Lemma loop_end sd incoming fuel s s1 :
  loop (match_body sd incoming) fuel s = Ok s1 ->
  opp sd (m_book s1) = [] \/
  (Remaining (deref (m_mem s1) incoming) <= 0)%Z \/
  exists best,
    opp sd (m_book s1) !! 0 = Some best /\
    (0 < Remaining (deref (m_mem s1) incoming))%Z /\
    IsActive (deref (m_mem s1) best) = true /\
    OType (deref (m_mem s1) incoming) = Limit /\
    gate sd (Price (deref (m_mem s1) incoming))
            (Price (deref (m_mem s1) best)) = true.
Proof.
  intros H. apply loop_exit in H. inversion H as [Hex| |best Htop Hrem Hact HL Hg|].
  - destruct Hex; auto.
  - right. right. by exists best.
Qed.

(** ** What the loop leaves alone *)

Lemma lookup_update_ne m a f x : a <> x -> update m a f !! x = m !! x.
Proof. intros. unfold update. by rewrite lookup_insert_ne. Qed.

Lemma body_step_touch sd incoming s c x :
  body_step sd incoming s c ->
  x <> incoming -> x ∉ opp sd (m_book s) ->
  m_mem (ctl_state c) !! x = m_mem s !! x.
Proof.
  intros [Hex|best p Htop Hrem Hact Hpop|best Htop Hrem Hact HL Hg
         |best qty trade seq' m2 m3 ob' Htop Hrem Hact Hg Hq Ht Hm2 Hcase]
         Hx Hnot; cbn [ctl_state m_mem]; try done.
  assert (best <> x) as Hb.
  { intros ->. apply Hnot. by eapply list_elem_of_lookup_2. }
  assert (m3 !! x = m2 !! x) as ->.
  { destruct Hcase as [(_ & -> & _)|(_ & -> & _)]; by apply lookup_update_ne. }
  subst m2. rewrite !lookup_update_ne by done. done.
Qed.

Lemma body_step_status sd incoming s c :
  incoming ∉ opp sd (m_book s) ->
  body_step sd incoming s c ->
  Status (deref (m_mem (ctl_state c)) incoming) =
    Status (deref (m_mem s) incoming).
Proof.
  intros Hnot
    [Hex|best p Htop Hrem Hact Hpop|best Htop Hrem Hact HL Hg
    |best qty trade seq' m2 m3 ob' Htop Hrem Hact Hg Hq Ht Hm2 Hcase];
    cbn [ctl_state m_mem]; try done.
  assert (best <> incoming) as Hb.
  { intros ->. apply Hnot. by eapply list_elem_of_lookup_2. }
  assert (deref m3 incoming = deref m2 incoming) as ->.
  { destruct Hcase as [(_ & -> & _)|(_ & -> & _)]; by apply deref_update_ne. }
  subst m2. rewrite deref_update_ne by done. by rewrite deref_update_eq.
Qed.

Definition loop_touch_inv (sd : side) (incoming : addr) (s0 s : mstate) : Prop :=
  (forall x, x ∈ opp sd (m_book s) -> x ∈ opp sd (m_book s0)) /\
  (forall x, x <> incoming -> x ∉ opp sd (m_book s0) ->
             m_mem s !! x = m_mem s0 !! x) /\
  (incoming ∉ opp sd (m_book s0) ->
   Status (deref (m_mem s) incoming) = Status (deref (m_mem s0) incoming)).

Lemma loop_touch sd incoming fuel s0 s1 :
  loop (match_body sd incoming) fuel s0 = Ok s1 ->
  loop_touch_inv sd incoming s0 s1.
Proof.
  apply (loop_inv (match_body sd incoming) (loop_touch_inv sd incoming s0)).
  2: { split_and!; done. }
  intros s c (Hsub & Hsame & Hst) Hc. apply match_body_step in Hc.
  destruct (body_step_frame _ _ _ _ Hc) as (_ & _ & _ & Hsub' & _).
  split_and!.
  - auto.
  - intros x Hx Hnot. rewrite <- (Hsame x Hx Hnot).
    apply (body_step_touch sd incoming s c x Hc Hx). intros Hin. by apply Hnot, Hsub.
  - intros Hnot. rewrite <- (Hst Hnot).
    apply (body_step_status sd); [|done]. intros Hin. by apply Hnot, Hsub.
Qed.

Lemma finalizeOrder_touch sd o s s' x :
  finalizeOrder o (push_own sd o) s = Ok s' ->
  x <> o -> m_mem s' !! x = m_mem s !! x.
Proof.
  intros H Hx. destruct (finalizeOrder_cases _ _ _ _ H)
    as (_ & _ & _ & _ & _ & _ & _ & Hcase).
  assert (m_mem s' = m_mem s \/
          exists st, m_mem s' = update (m_mem s) o (set_Status st)) as [->|[st ->]].
  { destruct Hcase as [[_ [[_ ->]|[(_ & _ & ->)|(_ & _ & ->)]]]
                      |(_ & _ & _ & -> & _)]; eauto.
    destruct (0 <? Filled (deref (m_mem s) o))%Z; eauto. }
  - done.
  - by apply lookup_update_ne.
Qed.

(** * Properties of [Submit] *)

Lemma fills_ok_empty : fills_ok ∅.
Proof. intros a o. by rewrite lookup_empty. Qed.

Lemma fills_ok_insert m a o :
  fills_ok m -> (0 <= Filled o <= Quantity o)%Z -> (Quantity o < 2 ^ 63)%Z ->
  fills_ok (<[a := o]> m).
Proof.
  intros Hm H1 H2 x o'. rewrite lookup_insert. case_decide; [|by apply Hm].
  by intros [= <-].
Qed.

(** A seller of 10 at 100 rests; a buyer of 4 at 101, a market buyer of 25
    and a buyer of 5 at 99 have not been submitted yet. *)
Definition resting_seller : bstate :=
  mkB (<[1%positive := NewLimitOrder 1 1000 "AAPL" Sell (f64 100 0) 10]>
      (<[2%positive := NewLimitOrder 2 2000 "AAPL" Buy (f64 101 0) 4]>
      (<[3%positive := NewMarketOrder 3 3000 "AAPL" Buy 25]>
      (<[4%positive := NewLimitOrder 4 4000 "AAPL" Buy (f64 99 0) 5]> ∅))))
      0 (mkBook "AAPL" [] [1%positive]).

Lemma resting_seller_fills_ok : fills_ok (mem resting_seller).
Proof.
  unfold resting_seller; cbn [mem].
  repeat (apply fills_ok_insert; [|simpl; lia|simpl; pow_norm; lia]).
  apply fills_ok_empty.
Qed.

Lemma resting_seller_facing a :
  a <> 1%positive -> a ∉ facing (mem resting_seller) (book resting_seller) a.
Proof.
  intros Ha Hin. unfold facing in Hin.
  destruct (String.eqb _ Buy); [|destruct (String.eqb _ Sell)];
    cbn in Hin;
    first [by apply list_elem_of_singleton in Hin|by apply elem_of_nil in Hin].
Qed.

Lemma OrderBook_Submit_well_typed a b trades b' :
  well_typed (mem b) -> OrderBook_Submit (Some a) b = Ok (trades, b') ->
  well_typed (mem b').
Proof.
  intros Hw Hsub.
  destruct (OrderBook_Submit_inv _ _ _ _ Hsub)
    as [(sd & s1 & s' & Hsd & Hloop & Hfin & -> & ->)|(_ & _ & -> & ->)]; [|done].
  destruct (loop_count sd a _ (mkM (mem b) (globalTradeSeq b) (book b) []) s1
              Hw Hloop) as (Hw1 & _).
  destruct (finalizeOrder_cases _ _ _ _ Hfin) as (_ & _ & _ & _ & _ & Hw' & _).
  cbn [mem]. auto.
Qed.

(** [Submit] returns.  For a store whose quantities are [int64] values,
    submitting any order of the store neither panics (the heap is never
    popped empty) nor loops for ever (the loop ends within one turn more
    than the entries of the opposite side), and the store it leaves is again
    one whose quantities are [int64] values, so a next call returns too. *)
Theorem submit_returns a b :
  well_typed (mem b) ->
  exists trades b',
    OrderBook_Submit (Some a) b = Ok (trades, b') /\ well_typed (mem b').
Proof.
  intros Hw. destruct (OrderBook_Submit_total a b Hw) as (trades & b' & Hsub).
  exists trades, b'. split; [done|]. by eapply OrderBook_Submit_well_typed.
Qed.

Lemma submit_returns_witness :
  well_typed (mem resting_seller) /\
  exists trades b',
    OrderBook_Submit (Some 3%positive) resting_seller = Ok (trades, b') /\
    well_typed (mem b').
Proof.
  assert (well_typed (mem resting_seller)) as Hw
    by apply fills_ok_well_typed, resting_seller_fills_ok.
  split; [exact Hw|]. exact (submit_returns 3%positive resting_seller Hw).
Defined.

(** [Submit] writes only [Status] and [Filled], and only of the incoming
    order and of orders on the side it is matched against: every other
    field of every order, and every order that is neither the incoming one
    nor an entry of the opposite side, is as before; no order leaves the
    store. *)
Theorem submit_touches_only a b trades b' :
  OrderBook_Submit (Some a) b = Ok (trades, b') ->
  (forall x, ID (deref (mem b') x) = ID (deref (mem b) x) /\
             Symbol (deref (mem b') x) = Symbol (deref (mem b) x) /\
             OSide (deref (mem b') x) = OSide (deref (mem b) x) /\
             OType (deref (mem b') x) = OType (deref (mem b) x) /\
             Price (deref (mem b') x) = Price (deref (mem b) x) /\
             Quantity (deref (mem b') x) = Quantity (deref (mem b) x) /\
             Timestamp (deref (mem b') x) = Timestamp (deref (mem b) x)) /\
  (forall x, is_Some (mem b !! x) -> is_Some (mem b' !! x)) /\
  (forall x, x <> a -> x ∉ facing (mem b) (book b) a ->
             mem b' !! x = mem b !! x).
Proof.
  intros Hsub. destruct (OrderBook_Submit_frame _ _ _ _ Hsub) as [Hf Hdom].
  split; [exact Hf|]. split; [exact Hdom|].
  intros x Hx Hnot.
  destruct (OrderBook_Submit_inv _ _ _ _ Hsub)
    as [(sd & s1 & s' & Hsd & Hloop & Hfin & -> & ->)|(_ & _ & -> & ->)]; [|done].
  rewrite (facing_side sd) in Hnot by done.
  destruct (loop_touch _ _ _ _ _ Hloop) as (_ & Hsame & _).
  cbn [mem]. rewrite (finalizeOrder_touch _ _ _ _ x Hfin Hx).
  by apply Hsame.
Qed.

Lemma submit_touches_only_witness :
  exists trades b',
    OrderBook_Submit (Some 2%positive) resting_seller = Ok (trades, b') /\
    mem b' !! 4%positive = mem resting_seller !! 4%positive /\
    Filled (deref (mem b') 1%positive) = 4%Z.
Proof.
  destruct (OrderBook_Submit (Some 2%positive) resting_seller)
    as [[trades b']| |] eqn:E; [|vm_compute in E; discriminate..].
  exists trades, b'. split; [reflexivity|].
  destruct (submit_touches_only 2%positive resting_seller trades b' E)
    as (_ & _ & H).
  assert (facing (mem resting_seller) (book resting_seller) 2%positive
          = [1%positive]) as Hf by (vm_compute; reflexivity).
  split; [apply H; [done|rewrite Hf; by intros ?%list_elem_of_singleton]|].
  vm_compute in E. injection E as <- <-. reflexivity.
Defined.

(** [Submit] never overfills.  If every order of the store is filled
    between nothing and its quantity, and the incoming order does not
    itself rest on the side it is matched against, the same holds of every
    order after the call. *)
Theorem submit_never_overfills a b trades b' :
  fills_ok (mem b) -> a ∉ facing (mem b) (book b) a ->
  OrderBook_Submit (Some a) b = Ok (trades, b') ->
  forall x, (0 <= Filled (deref (mem b') x) <= Quantity (deref (mem b') x))%Z.
Proof.
  intros Hok Hnot Hsub x.
  destruct (submit_fills _ _ _ _ Hok Hnot Hsub) as (Hok' & _).
  by destruct (fills_ok_deref _ x Hok').
Qed.

Lemma submit_never_overfills_witness :
  exists trades b',
    OrderBook_Submit (Some 3%positive) resting_seller = Ok (trades, b') /\
    forall x, (0 <= Filled (deref (mem b') x) <= Quantity (deref (mem b') x))%Z.
Proof.
  destruct (OrderBook_Submit (Some 3%positive) resting_seller)
    as [[trades b']| |] eqn:E; [|vm_compute in E; discriminate..].
  exists trades, b'. split; [reflexivity|].
  exact (submit_never_overfills 3%positive resting_seller trades b'
           resting_seller_fills_ok (resting_seller_facing 3%positive ltac:(done)) E).
Defined.

(** Quantities are conserved.  Under the same conditions, the trades of a
    [Submit] have non-negative quantities, the incoming order's [Filled]
    grows by exactly their sum, and that sum is at most what remained of
    the incoming order. *)
Theorem submit_fill_conservation a b trades b' :
  fills_ok (mem b) -> a ∉ facing (mem b) (book b) a ->
  OrderBook_Submit (Some a) b = Ok (trades, b') ->
  Forall (fun t => (0 <= TQuantity t)%Z) trades /\
  Filled (deref (mem b') a) = (Filled (deref (mem b) a) + quantities trades)%Z /\
  (quantities trades <= Remaining (deref (mem b) a))%Z.
Proof.
  intros Hok Hnot Hsub.
  destruct (submit_fills _ _ _ _ Hok Hnot Hsub) as (Hok' & Hpos & HF).
  split; [done|]. split; [done|].
  destruct (fills_ok_deref _ a Hok') as [[_ Hle] _].
  destruct (OrderBook_Submit_frame _ _ _ _ Hsub) as [Hf _].
  destruct (Hf a) as (_ & _ & _ & _ & _ & HQ & _).
  rewrite (fills_ok_Remaining _ a Hok). lia.
Qed.

Lemma submit_fill_conservation_witness :
  exists trades b',
    OrderBook_Submit (Some 3%positive) resting_seller = Ok (trades, b') /\
    Filled (deref (mem b') 3%positive) = quantities trades /\
    quantities trades = 10%Z.
Proof.
  destruct (OrderBook_Submit (Some 3%positive) resting_seller)
    as [[trades b']| |] eqn:E; [|vm_compute in E; discriminate..].
  exists trades, b'. split; [reflexivity|].
  destruct (submit_fill_conservation 3%positive resting_seller trades b'
              resting_seller_fills_ok
              (resting_seller_facing 3%positive ltac:(done)) E) as (_ & H & _).
  split; [exact H|]. vm_compute in E. injection E as <- <-. reflexivity.
Defined.

(** Trade identifiers are consecutive, for calls that do not overlap.  The
    trade counter is one for the whole process, shared by all books, and
    the lock of a book does not cover it: [globalTradeSeq] is here the
    value the counter has when the call starts, and no other call draws
    from it while this one runs.  Then the trades of one [Submit] carry, in
    order, the identifiers that follow that value (modulo 2^64), and the
    counter ends advanced by their number. *)
Theorem trade_ids_consecutive a b trades b' :
  (0 <= globalTradeSeq b < 2 ^ 64)%Z ->
  OrderBook_Submit (Some a) b = Ok (trades, b') ->
  globalTradeSeq b' = wrapU64 (globalTradeSeq b + Z.of_nat (length trades)) /\
  forall (i : nat) t, trades !! i = Some t ->
    TradeID t = wrapU64 (globalTradeSeq b + Z.of_nat i + 1).
Proof.
  intros Hseq Hsub.
  destruct (OrderBook_Submit_inv _ _ _ _ Hsub)
    as [(sd & s1 & s' & Hsd & Hloop & Hfin & -> & ->)|(_ & _ & -> & ->)].
  2: { simpl. rewrite Z.add_0_r. split; [by rewrite wrapU64_id|done]. }
  destruct (loop_seq sd a _ (mkM (mem b) (globalTradeSeq b) (book b) []) s1
              Hseq Hloop) as (ts & Hts & Hs & Hid).
  destruct (finalizeOrder_cases _ _ _ _ Hfin) as (Htr & Hsq & _).
  cbn [globalTradeSeq m_trades m_seq app] in *.
  rewrite Htr, Hsq, Hts. done.
Qed.

(** Sellers of 10 at 100 and at 101 rest, in heap order; a buyer of 15 at
    101 has not been submitted yet. *)
Definition two_resting_sellers : bstate :=
  mkB (<[1%positive := NewLimitOrder 1 1000 "AAPL" Sell (f64 100 0) 10]>
      (<[2%positive := NewLimitOrder 2 2000 "AAPL" Sell (f64 101 0) 10]>
      (<[3%positive := NewLimitOrder 3 3000 "AAPL" Buy (f64 101 0) 15]> ∅)))
      7 (mkBook "AAPL" [] [1%positive; 2%positive]).

Lemma trade_ids_consecutive_witness :
  exists t1 t2 b',
    OrderBook_Submit (Some 3%positive) two_resting_sellers
      = Ok ([t1; t2], b') /\
    TradeID t1 = 8%Z /\ TradeID t2 = 9%Z /\ globalTradeSeq b' = 9%Z.
Proof.
  destruct (OrderBook_Submit (Some 3%positive) two_resting_sellers)
    as [[trades b']| |] eqn:E; [|vm_compute in E; discriminate..].
  assert (0 <= globalTradeSeq two_resting_sellers < 2 ^ 64)%Z as Hseq
    by (simpl; pow_norm; lia).
  destruct (trade_ids_consecutive 3%positive two_resting_sellers trades b'
              Hseq E) as [Hs Hid].
  pose proof E as E'. vm_compute in E'.
  destruct trades as [|t1 [|t2 [|]]]; try discriminate.
  exists t1, t2, b'. split; [reflexivity|].
  split; [exact (Hid 0 t1 eq_refl)|]. split; [exact (Hid 1 t2 eq_refl)|exact Hs].
Defined.

(** ** How [Submit] leaves the incoming order *)

Lemma side_of_inj sd sd' : side_of sd = side_of sd' -> sd = sd'.
Proof. by destruct sd, sd'. Qed.

Lemma push_own_perm sd o m ob ob' :
  push_own sd o m ob = Ok ob' ->
  own sd ob' ≡ₚ o :: own sd ob /\ opp sd ob' = opp sd ob.
Proof.
  destruct sd; cbn [push_own own opp]; unfold push_bid, push_ask.
  - destruct (heap_Push_total (bid_less m) (bids ob) o) as (h' & -> & Hp).
    cbn [rbind]. by intros [= <-].
  - destruct (heap_Push_total (ask_less m) (asks ob) o) as (h' & -> & Hp).
    cbn [rbind]. by intros [= <-].
Qed.

(** [finalizeOrder] on an order filled between nothing and its quantity. *)
Lemma finalizeOrder_sound sd o s s' :
  fills_ok (m_mem s) ->
  finalizeOrder o (push_own sd o) s = Ok s' ->
  (IsFilled (deref (m_mem s) o) = true /\
   Filled (deref (m_mem s) o) = Quantity (deref (m_mem s) o) /\
   m_book s' = m_book s /\
   m_mem s' = update (m_mem s) o (set_Status StatusFilled))
  \/ ((Filled (deref (m_mem s) o) < Quantity (deref (m_mem s) o))%Z /\
      ((OType (deref (m_mem s) o) = IOC \/ OType (deref (m_mem s) o) = Market) /\
       m_book s' = m_book s /\
       m_mem s' = update (m_mem s) o (set_Status StatusCancelled)
       \/ (OType (deref (m_mem s) o) = Limit /\
           m_mem s' = (if (0 <? Filled (deref (m_mem s) o))%Z
                       then update (m_mem s) o (set_Status StatusPartial)
                       else m_mem s) /\
           own sd (m_book s') ≡ₚ o :: own sd (m_book s) /\
           opp sd (m_book s') = opp sd (m_book s))
       \/ (OType (deref (m_mem s) o) <> IOC /\
           OType (deref (m_mem s) o) <> Market /\
           OType (deref (m_mem s) o) <> Limit /\ s' = s))).
Proof.
  intros Hok. unfold finalizeOrder.
  destruct (fills_ok_deref _ o Hok) as [[HF0 HFQ] HQ].
  pose proof (fills_ok_Remaining _ o Hok) as HR.
  destruct (IsFilled (deref (m_mem s) o)) eqn:Hf.
  { intros [= <-]. left. unfold IsFilled in Hf. apply Z.leb_le in Hf.
    split_and!; [done|lia|done|done]. }
  unfold IsFilled in Hf. apply Z.leb_gt in Hf.
  assert ((0 <? Remaining (deref (m_mem s) o))%Z = true) as ->
    by (apply Z.ltb_lt; lia).
  rewrite !andb_true_r.
  destruct (String.eqb_spec (OType (deref (m_mem s) o)) IOC) as [HI|HI].
  { intros [= <-]. right. split; [done|]. left. auto. }
  destruct (String.eqb_spec (OType (deref (m_mem s) o)) Market) as [HM|HM].
  { intros [= <-]. right. split; [done|]. left. auto. }
  destruct (String.eqb_spec (OType (deref (m_mem s) o)) Limit) as [HL|HL].
  2: { intros [= <-]. right. split; [done|]. right. right. done. }
  set (m' := if (0 <? Filled (deref (m_mem s) o))%Z
             then update (m_mem s) o (set_Status StatusPartial) else m_mem s).
  destruct (push_own sd o m' (m_book s)) as [ob'| |] eqn:Hp; cbn [rbind];
    [|done..].
  intros [= <-]. right. split; [done|]. right. left. cbn [m_mem m_book].
  destruct (push_own_perm _ _ _ _ _ Hp) as [? ?]. done.
Qed.

(** What the whole call tells about the incoming order [a] matched on side
    [sd]. *)
Lemma submit_outcome sd a b trades b' :
  fills_ok (mem b) -> a ∉ opp sd (book b) ->
  OSide (deref (mem b) a) = side_of sd ->
  OrderBook_Submit (Some a) b = Ok (trades, b') ->
  exists s1,
    fills_ok (m_mem s1) /\
    (a ∉ opp sd (m_book s1)) /\
    own sd (m_book s1) = own sd (book b) /\
    OType (deref (m_mem s1) a) = OType (deref (mem b) a) /\
    Price (deref (m_mem s1) a) = Price (deref (mem b) a) /\
    Status (deref (m_mem s1) a) = Status (deref (mem b) a) /\
    (opp sd (m_book s1) = [] \/
     (Remaining (deref (m_mem s1) a) <= 0)%Z \/
     exists best,
       opp sd (m_book s1) !! 0 = Some best /\
       IsActive (deref (m_mem s1) best) = true /\
       OType (deref (m_mem s1) a) = Limit /\
       gate sd (Price (deref (m_mem s1) a))
               (Price (deref (m_mem s1) best)) = true) /\
    finalizeOrder a (push_own sd a)  s1 =
      Ok (mkM (mem b') (globalTradeSeq b') (book b') trades).
Proof.
  intros Hok Hnot Hsd Hsub.
  destruct (OrderBook_Submit_inv _ _ _ _ Hsub)
    as [(sd' & s1 & s' & Hsd' & Hloop & Hfin & -> & ->)|(H1 & H2 & _)].
  2: { rewrite Hsd in H1, H2. by destruct sd. }
  rewrite Hsd in Hsd'. apply side_of_inj in Hsd' as <-.
  exists s1.
  destruct (loop_fills sd a _ (mkM (mem b) (globalTradeSeq b) (book b) []) s1
              Hok Hnot Hloop) as (Hok1 & Hnot1 & _).
  destruct (loop_trades _ _ _ _ _ Hloop) as (Hfr & _ & Hown & _).
  destruct (loop_touch _ _ _ _ _ Hloop) as (_ & _ & Hst).
  destruct Hfr as [Hsame _].
  destruct (Hsame a) as (_ & _ & _ & HT & HP & _).
  cbn [m_mem m_book] in *.
  split_and!; try done.
  - by apply Hst.
  - destruct (loop_end _ _ _ _ _ Hloop) as [?|[?|(best & ? & ? & ? & ? & ?)]];
      eauto 10.
  - rewrite Hfin. by destruct s'.
Qed.

(** A [Submit] emits at most one trade per entry of the side it is matched
    against; that side only loses entries, and the incoming order's own
    side either stays as it is or gains the incoming order and nothing
    else. *)
Theorem submit_trades_bounded sd a b trades b' :
  well_typed (mem b) ->
  OSide (deref (mem b) a) = side_of sd ->
  OrderBook_Submit (Some a) b = Ok (trades, b') ->
  length trades <= length (opp sd (book b)) /\
  opp sd (book b') ⊆+ opp sd (book b) /\
  (own sd (book b') = own sd (book b) \/
   own sd (book b') ≡ₚ a :: own sd (book b)).
Proof.
  intros Hw Hsd Hsub.
  destruct (OrderBook_Submit_inv _ _ _ _ Hsub)
    as [(sd' & s1 & s' & Hsd' & Hloop & Hfin & -> & ->)|(H1 & H2 & _)].
  2: { rewrite Hsd in H1, H2. by destruct sd. }
  rewrite Hsd in Hsd'. apply side_of_inj in Hsd' as <-.
  destruct (loop_count sd a _ (mkM (mem b) (globalTradeSeq b) (book b) []) s1
              Hw Hloop) as (_ & Hsub1 & ts & Hts & Hcount).
  destruct (loop_trades _ _ _ _ _ Hloop) as (_ & _ & Hown & _).
  destruct (finalizeOrder_cases _ _ _ _ Hfin)
    as (Htr & _ & Hopp & _ & _ & _ & _ & Hcase).
  cbn [m_trades m_book book app] in *. rewrite Htr, Hts, Hopp.
  split; [lia|]. split; [done|].
  destruct Hcase as [[-> _]|(_ & _ & _ & _ & Hpush)]; [by left|].
  right. rewrite <- Hown.
  destruct (heap_Push_total (own_less sd (m_mem s')) (own sd (m_book s1)) a)
    as (h' & Hp & Hperm).
  rewrite Hp in Hpush. by injection Hpush as <-.
Qed.

Lemma submit_trades_bounded_witness :
  exists trades b',
    OrderBook_Submit (Some 3%positive) resting_seller = Ok (trades, b') /\
    length trades <= 1 /\ asks (book b') ⊆+ [1%positive].
Proof.
  destruct (OrderBook_Submit (Some 3%positive) resting_seller)
    as [[trades b']| |] eqn:E; [|vm_compute in E; discriminate..].
  exists trades, b'. split; [reflexivity|].
  destruct (submit_trades_bounded OnBuy 3%positive resting_seller trades b'
              (fills_ok_well_typed _ resting_seller_fills_ok) eq_refl E)
    as (H1 & H2 & _).
  split; [exact H1|exact H2].
Defined.

(** A MARKET order never rests.  Its own side of the book is left as it
    was, and the order ends FILLED, filled to its quantity, or CANCELLED
    short of it; it is cancelled short only when the side it was matched
    against has run out of entries. *)
Theorem market_order_never_rests sd a b trades b' :
  fills_ok (mem b) -> a ∉ opp sd (book b) ->
  OSide (deref (mem b) a) = side_of sd ->
  OType (deref (mem b) a) = Market ->
  OrderBook_Submit (Some a) b = Ok (trades, b') ->
  own sd (book b') = own sd (book b) /\
  ((Status (deref (mem b') a) = StatusFilled /\
    Filled (deref (mem b') a) = Quantity (deref (mem b') a))
   \/ (Status (deref (mem b') a) = StatusCancelled /\
       (Filled (deref (mem b') a) < Quantity (deref (mem b') a))%Z /\
       opp sd (book b') = [])).
Proof.
  intros Hok Hnot Hsd Hty Hsub.
  destruct (submit_outcome _ _ _ _ _ Hok Hnot Hsd Hsub)
    as (s1 & Hok1 & Hnot1 & Hown & HT & _ & _ & Hend & Hfin).
  rewrite Hty in HT.
  destruct (finalizeOrder_sound _ _ _ _ Hok1 Hfin)
    as [(_ & HFQ & Hb & Hm)|(Hlt & [(_ & Hb & Hm)|[(HL & _)|(_ & HM & _)]])];
    cbn [m_mem m_book] in *.
  - rewrite Hb, Hm, deref_update_eq. split; [done|]. left. done.
  - rewrite Hb, Hm, deref_update_eq. split; [done|]. right.
    split; [done|]. split; [done|].
    destruct Hend as [?|[Hr|(best & _ & _ & HL & _)]]; [done| |].
    + rewrite (fills_ok_Remaining _ a Hok1) in Hr. lia.
    + rewrite HT in HL. discriminate.
  - rewrite HT in HL. discriminate.
  - by rewrite HT in HM.
Qed.

Lemma market_order_never_rests_witness :
  exists trades b',
    OrderBook_Submit (Some 3%positive) resting_seller = Ok (trades, b') /\
    bids (book b') = [] /\
    Status (deref (mem b') 3%positive) = StatusCancelled /\
    asks (book b') = [].
Proof.
  destruct (OrderBook_Submit (Some 3%positive) resting_seller)
    as [[trades b']| |] eqn:E; [|vm_compute in E; discriminate..].
  exists trades, b'. split; [reflexivity|].
  assert (3%positive ∉ opp OnBuy (book resting_seller)) as Hnot
    by (by intros ?%list_elem_of_singleton).
  destruct (market_order_never_rests OnBuy 3%positive resting_seller trades b'
              resting_seller_fills_ok Hnot eq_refl eq_refl E)
    as [Hown [[Hst _]|(Hst & _ & Hopp)]].
  - exfalso. vm_compute in E. injection E as <- <-. discriminate Hst.
  - split; [exact Hown|]. split; [exact Hst|exact Hopp].
Defined.

(** What is left of a LIMIT order rests.  A LIMIT order ends either FILLED,
    filled to its quantity, with its own side of the book unchanged; or
    short of its quantity and added to its own side, PARTIAL if anything of
    it has been filled and with its status unchanged otherwise.  It is left
    short only when the side it was matched against is empty or has at its
    top an active order whose price is beyond the limit. *)
Theorem limit_residual_rests sd a b trades b' :
  fills_ok (mem b) -> a ∉ opp sd (book b) ->
  OSide (deref (mem b) a) = side_of sd ->
  OType (deref (mem b) a) = Limit ->
  OrderBook_Submit (Some a) b = Ok (trades, b') ->
  (Status (deref (mem b') a) = StatusFilled /\
   Filled (deref (mem b') a) = Quantity (deref (mem b') a) /\
   own sd (book b') = own sd (book b))
  \/ ((Filled (deref (mem b') a) < Quantity (deref (mem b') a))%Z /\
      own sd (book b') ≡ₚ a :: own sd (book b) /\
      Status (deref (mem b') a) =
        (if (0 <? Filled (deref (mem b') a))%Z then StatusPartial
         else Status (deref (mem b) a)) /\
      (opp sd (book b') = [] \/
       exists best,
         opp sd (book b') !! 0 = Some best /\
         IsActive (deref (mem b') best) = true /\
         gate sd (Price (deref (mem b) a)) (Price (deref (mem b') best))
           = true)).
Proof.
  intros Hok Hnot Hsd Hty Hsub.
  destruct (submit_outcome _ _ _ _ _ Hok Hnot Hsd Hsub)
    as (s1 & Hok1 & Hnot1 & Hown & HT & HP & HS & Hend & Hfin).
  rewrite Hty in HT.
  destruct (finalizeOrder_sound _ _ _ _ Hok1 Hfin)
    as [(_ & HFQ & Hb & Hm)
       |(Hlt & [([HI|HM] & _)|[(_ & Hm & Hperm & Hopp)|(_ & _ & HL & _)]])];
    cbn [m_mem m_book] in *.
  - left. rewrite Hb, Hm, deref_update_eq. done.
  - rewrite HT in HI. discriminate.
  - rewrite HT in HM. discriminate.
  - right.
    assert (Filled (deref (mem b') a) = Filled (deref (m_mem s1) a) /\
            Quantity (deref (mem b') a) = Quantity (deref (m_mem s1) a) /\
            Status (deref (mem b') a) =
              (if (0 <? Filled (deref (m_mem s1) a))%Z then StatusPartial
               else Status (deref (m_mem s1) a)) /\
            forall x, x <> a -> deref (mem b') x = deref (m_mem s1) x)
      as (HF' & HQ' & HS' & Hother).
    { rewrite Hm. destruct (0 <? Filled (deref (m_mem s1) a))%Z; [|done].
      rewrite deref_update_eq. split_and!; try done.
      intros x Hx. by apply deref_update_ne. }
    rewrite HF', HQ', HS', HS, Hopp, <- Hown. split_and!; try done.
    destruct Hend as [?|[Hr|(best & Htop & Hact & _ & Hg)]]; [by left| |].
    + rewrite (fills_ok_Remaining _ a Hok1) in Hr. lia.
    + right. exists best. rewrite Hother, <- HP; [done|].
      intros ->. apply Hnot1. by eapply list_elem_of_lookup_2.
  - by rewrite HT in HL.
Qed.

Lemma limit_residual_rests_witness :
  exists trades b',
    OrderBook_Submit (Some 4%positive) resting_seller = Ok (trades, b') /\
    bids (book b') ≡ₚ [4%positive] /\
    Status (deref (mem b') 4%positive) = StatusOpen.
Proof.
  destruct (OrderBook_Submit (Some 4%positive) resting_seller)
    as [[trades b']| |] eqn:E; [|vm_compute in E; discriminate..].
  exists trades, b'. split; [reflexivity|].
  assert (4%positive ∉ opp OnBuy (book resting_seller)) as Hnot
    by (by intros ?%list_elem_of_singleton).
  destruct (limit_residual_rests OnBuy 4%positive resting_seller trades b'
              resting_seller_fills_ok Hnot eq_refl eq_refl E)
    as [(Hst & _)|(_ & Hown & Hst & _)].
  - exfalso. vm_compute in E. injection E as <- <-. discriminate Hst.
  - split; [exact Hown|]. rewrite Hst.
    vm_compute in E. injection E as <- <-. reflexivity.
Defined.

(** * The two heaps *)

Lemma numeric_insert m a o :
  numeric_prices m -> is_nan (Price o) = false ->
  numeric_prices (<[a := o]> m).
Proof.
  intros Hm Ho x o'. rewrite lookup_insert. case_decide; [|by apply Hm].
  by intros [= <-].
Qed.

Lemma resting_seller_numeric : numeric_prices (mem resting_seller).
Proof.
  unfold resting_seller; cbn [mem].
  repeat (apply numeric_insert; [|reflexivity]). apply numeric_empty.
Qed.

(** [heap.Push] on the bid heap.  With numeric prices, pushing an order on
    a well-formed bid heap returns (no index is out of range), keeps the
    heap well formed, adds the order and nothing else, and leaves at index
    0 an order that no entry beats: none has a higher price, and none with
    the same price has an earlier timestamp. *)
Theorem bid_heap_push m h o :
  numeric_prices m -> heap_ok (bid_less m) h ->
  exists h',
    heap_Push (bid_less m) h o = Ok h' /\
    heap_ok (bid_less m) h' /\
    h' ≡ₚ o :: h /\
    forall top x, h' !! 0 = Some top -> x ∈ h' ->
      f64_gt (Price (deref m top)) (Price (deref m x)) = true \/
      (f64_eq (Price (deref m top)) (Price (deref m x)) = true /\
       (Timestamp (deref m top) <= Timestamp (deref m x))%Z).
Proof.
  intros Hn Hh.
  destruct (heap_Push_total (bid_less m) h o) as (h' & Hp & Hperm).
  assert (heap_ok (bid_less m) h') as Hh'.
  { apply (heap_Push_heap (bid_less m) (fun a b => bid_less_asym m a b Hn)
             (fun a b c => bid_less_negtrans m a b c Hn) h h' o Hh Hp). }
  exists h'. split_and!; try done.
  intros top x Htop Hx. exact (top_ranks_first OnSell m h' top x Hn Hh' Htop Hx).
Qed.

Lemma bid_heap_push_witness :
  let m := mem resting_seller in
  exists h',
    heap_Push (bid_less m) [4%positive] 2%positive = Ok h' /\
    h' !! 0 = Some 2%positive.
Proof.
  cbv zeta.
  pose proof resting_seller_numeric as Hn.
  assert (heap_ok (bid_less (mem resting_seller)) [4%positive]) as Hh.
  { intros c Hc. simpl in Hc. lia. }
  destruct (bid_heap_push (mem resting_seller) [4%positive] 2%positive Hn Hh)
    as (h' & Hp & _).
  exists h'. split; [exact Hp|].
  vm_compute in Hp. injection Hp as <-. reflexivity.
Defined.

(** [heap.Pop] on the ask heap.  With numeric prices, popping a well-formed
    ask heap that is not empty returns the entry at index 0, keeps the heap
    well formed, removes that entry and nothing else, and the entry
    returned is beaten by none that stays: none has a lower price, and
    none with the same price has an earlier timestamp.  Popping the empty
    heap panics. *)
Theorem ask_heap_pop m h top :
  numeric_prices m -> heap_ok (ask_less m) h -> h !! 0 = Some top ->
  heap_Pop (ask_less m) ([] : list addr) = Panic /\
  exists h',
    heap_Pop (ask_less m) h = Ok (top, h') /\
    heap_ok (ask_less m) h' /\
    h ≡ₚ top :: h' /\
    forall x, x ∈ h' ->
      f64_lt (Price (deref m top)) (Price (deref m x)) = true \/
      (f64_eq (Price (deref m top)) (Price (deref m x)) = true /\
       (Timestamp (deref m top) <= Timestamp (deref m x))%Z).
Proof.
  intros Hn Hh Htop. split; [reflexivity|].
  destruct (heap_Pop_total (ask_less m) h top Htop) as (h' & Hp & Hperm).
  exists h'. split_and!; try done.
  - apply (heap_Pop_heap (ask_less m) (fun a b => ask_less_asym m a b Hn)
             (fun a b c => ask_less_negtrans m a b c Hn) h h' top Hh Hp).
  - intros x Hx. apply (top_ranks_first OnBuy m h top x Hn Hh Htop).
    rewrite Hperm. by apply elem_of_cons; right.
Qed.

Lemma ask_heap_pop_witness :
  exists h',
    heap_Pop (ask_less (mem resting_seller)) [1%positive] = Ok (1%positive, h')
    /\ h' = [].
Proof.
  assert (heap_ok (ask_less (mem resting_seller)) [1%positive]) as Hh.
  { intros c Hc. simpl in Hc. lia. }
  destruct (ask_heap_pop (mem resting_seller) [1%positive] 1%positive
              resting_seller_numeric Hh eq_refl) as (_ & h' & Hp & _ & Hperm & _).
  exists h'. split; [exact Hp|].
  apply Permutation_length in Hperm. simpl in Hperm.
  destruct h'; [done|simpl in Hperm; lia].
Defined.

(** * The book at rest, continued *)

(** A buyer at 99 and a seller at 101 rest. *)
Definition two_sided_calls : list call :=
  [CallNew 1%positive (NewLimitOrder 1 1000 "AAPL" Buy (f64 99 0) 10);
   CallNew 2%positive (NewLimitOrder 2 2000 "AAPL" Sell (f64 101 0) 10);
   CallSubmit 1%positive; CallSubmit 2%positive].

Lemma no_crossed_book_witness :
  exists b,
    run two_sided_calls (mkB ∅ 0 (NewOrderBook "AAPL")) = Some b /\
    BestBid (mem b) (book b) = (f64 99 0, true) /\
    BestAsk (mem b) (book b) = (f64 101 0, true) /\
    f64_lt (f64 99 0) (f64 101 0) = true.
Proof.
  destruct (run two_sided_calls (mkB ∅ 0 (NewOrderBook "AAPL")))
    as [b|] eqn:E; [|vm_compute in E; discriminate].
  exists b.
  assert (numeric_prices (mem b)) as Hn.
  { apply (run_numeric_fwd two_sided_calls
             (mkB ∅ 0 (NewOrderBook "AAPL")) b);
      [repeat constructor|exact numeric_empty|exact E]. }
  assert (reachable b) as Hr
    by (by exists "AAPL"%string, 0%Z, two_sided_calls).
  pose proof E as E'. vm_compute in E'. injection E' as E'.
  assert (BestBid (mem b) (book b) = (f64 99 0, true)) as Hb
    by (rewrite <- E'; vm_compute; reflexivity).
  assert (BestAsk (mem b) (book b) = (f64 101 0, true)) as Ha
    by (rewrite <- E'; vm_compute; reflexivity).
  split; [reflexivity|]. split; [exact Hb|]. split; [exact Ha|].
  exact (no_crossed_book b (f64 99 0) (f64 101 0) Hr Hn Hb Ha).
Defined.

(** * Cancelling and the top of the book *)

(** Deletion is lazy.  Cancelling the active order at the top of the bids
    succeeds and leaves it in place, so that [BestBid] then answers
    (0, false), whatever rests beneath it; the same holds of the asks when
    no active bid carries the identifier. *)
Theorem cancel_top_hides_best orderID b top :
  IsActive (deref (mem b) top) = true ->
  ID (deref (mem b) top) = orderID ->
  (bids (book b) !! 0 = Some top ->
     (OrderBook_Cancel orderID b).1 = true /\
     bids (book (OrderBook_Cancel orderID b).2) = bids (book b) /\
     BestBid (mem (OrderBook_Cancel orderID b).2)
             (book (OrderBook_Cancel orderID b).2) = (f64_zero, false)) /\
  (asks (book b) !! 0 = Some top ->
   (forall x, x ∈ bids (book b) -> ID (deref (mem b) x) = orderID ->
              IsActive (deref (mem b) x) = false) ->
     (OrderBook_Cancel orderID b).1 = true /\
     asks (book (OrderBook_Cancel orderID b).2) = asks (book b) /\
     BestAsk (mem (OrderBook_Cancel orderID b).2)
             (book (OrderBook_Cancel orderID b).2) = (f64_zero, false)).
Proof.
  intros Hact Hid.
  assert (forall h, h !! 0 = Some top ->
            cancel_target (mem b) h orderID = Some top) as Hfind.
  { intros [|x h] Hh; [done|]. injection Hh as ->. unfold cancel_target.
    cbn [find]. rewrite Hid, Z.eqb_refl, Hact. done. }
  split.
  - intros Htop. unfold OrderBook_Cancel. rewrite (Hfind _ Htop).
    cbn [fst snd book mem]. split_and!; try done.
    unfold BestBid. destruct (bids (book b)) as [|x h]; [done|].
    injection Htop as ->. by rewrite deref_update_eq, IsActive_cancelled.
  - intros Htop Hbids. unfold OrderBook_Cancel.
    destruct (cancel_target (mem b) (bids (book b)) orderID) as [x|] eqn:Hb.
    { destruct (cancel_target_Some _ _ _ _ Hb) as (Hx & Hxid & Hxa).
      rewrite (Hbids x Hx Hxid) in Hxa. discriminate. }
    rewrite (Hfind _ Htop). cbn [fst snd book mem]. split_and!; try done.
    unfold BestAsk. destruct (asks (book b)) as [|x h]; [done|].
    injection Htop as ->. by rewrite deref_update_eq, IsActive_cancelled.
Qed.

Lemma cancel_top_hides_best_witness :
  (OrderBook_Cancel 1 resting_seller).1 = true /\
  BestAsk (mem (OrderBook_Cancel 1 resting_seller).2)
          (book (OrderBook_Cancel 1 resting_seller).2) = (f64_zero, false).
Proof.
  destruct (cancel_top_hides_best 1 resting_seller 1%positive eq_refl eq_refl)
    as [_ H].
  destruct H as (H1 & _ & H2); [reflexivity| |by split].
  intros x Hx. by apply elem_of_nil in Hx.
Defined.

(** ** [Depth] *)

Lemma count_active_cons m x h :
  count_active m (x :: h) =
    (if IsActive (deref m x) then 1 else 0) + count_active m h.
Proof.
  unfold count_active. rewrite filter_cons.
  destruct (IsActive (deref m x)); by case_decide.
Qed.

Lemma count_active_app m h h' :
  count_active m (h ++ h') = count_active m h + count_active m h'.
Proof. unfold count_active. by rewrite filter_app, length_app. Qed.

Lemma count_active_same m m' h :
  (forall x, x ∈ h -> IsActive (deref m' x) = IsActive (deref m x)) ->
  count_active m' h = count_active m h.
Proof.
  induction h as [|x h IH]; intros H; [done|].
  rewrite !count_active_cons, (H x), IH; [done| |by left].
  intros y Hy. apply H. by right.
Qed.

Lemma count_active_cancel m a h :
  NoDup h -> a ∈ h -> IsActive (deref m a) = true ->
  S (count_active (update m a (set_Status StatusCancelled)) h) =
    count_active m h.
Proof.
  induction h as [|x h IH]; intros Hnd Hin Hact; [by apply elem_of_nil in Hin|].
  apply NoDup_cons in Hnd as [Hx Hnd]. rewrite !count_active_cons.
  destruct (decide (x = a)) as [->|Hne].
  - rewrite deref_update_eq, IsActive_cancelled, Hact.
    rewrite (count_active_same m); [done|].
    intros y Hy. rewrite deref_update_ne; [done|]. by intros ->.
  - apply elem_of_cons in Hin as [->|Hin]; [done|].
    rewrite deref_update_ne by done. rewrite <- (IH Hnd Hin Hact). lia.
Qed.

(** [Cancel] and [Depth].  In a book that holds no order twice, a cancel
    that succeeds lowers the number of active orders [Depth] counts by
    exactly one, on the side the order rests on; a cancel that fails
    leaves both counts as they were. *)
Theorem cancel_lowers_depth orderID b :
  NoDup (entries (book b)) ->
  let r := OrderBook_Cancel orderID b in
  (r.1 = true ->
     (Depth (mem r.2) (book r.2)).1 + (Depth (mem r.2) (book r.2)).2 + 1 =
       (Depth (mem b) (book b)).1 + (Depth (mem b) (book b)).2 /\
     (Depth (mem r.2) (book r.2)).1 <= (Depth (mem b) (book b)).1 /\
     (Depth (mem r.2) (book r.2)).2 <= (Depth (mem b) (book b)).2) /\
  (r.1 = false -> Depth (mem r.2) (book r.2) = Depth (mem b) (book b)).
Proof.
  intros Hnd. cbv zeta.
  destruct (OrderBook_Cancel_cases orderID b)
    as [(a & Hin & Hid & Hact & ->)|[_ ->]]; cbn [fst snd mem book].
  2: { split; [done|]. done. }
  split; [intros _|done].
  unfold Depth. cbn [fst snd].
  pose proof (count_active_cancel (mem b) a (entries (book b)) Hnd Hin Hact)
    as Hc.
  unfold entries in Hc, Hnd, Hin. rewrite !count_active_app in Hc.
  apply NoDup_app in Hnd as (Hnb & Hdis & Hna).
  apply elem_of_app in Hin as [Hin|Hin].
  - pose proof (count_active_cancel (mem b) a (bids (book b)) Hnb Hin Hact).
    lia.
  - pose proof (count_active_cancel (mem b) a (asks (book b)) Hna Hin Hact).
    lia.
Qed.

Lemma cancel_lowers_depth_witness :
  NoDup (entries (book resting_seller)) /\
  Depth (mem resting_seller) (book resting_seller) = (0, 1) /\
  Depth (mem (OrderBook_Cancel 1 resting_seller).2)
        (book (OrderBook_Cancel 1 resting_seller).2) = (0, 0).
Proof.
  assert (NoDup (entries (book resting_seller))) as Hnd.
  { apply NoDup_singleton. }
  split; [exact Hnd|]. split; [reflexivity|].
  destruct (cancel_lowers_depth 1 resting_seller Hnd) as [H _].
  destruct (H eq_refl) as (H0 & _).
  change (Depth (mem resting_seller) (book resting_seller)) with (0, 1) in H0.
  destruct (Depth (mem (OrderBook_Cancel 1 resting_seller).2)
                  (book (OrderBook_Cancel 1 resting_seller).2)) as [x y].
  cbn [fst snd] in H0.
  assert (x = 0) as -> by lia. assert (y = 0) as -> by lia.
  reflexivity.
Defined.

(** * The gateway, its books and its log *)

Lemma NewGateway_lookup (acc : gmap string OrderBook) symbols sym :
  foldl (fun bs s => <[s := NewOrderBook s]> bs) acc symbols !! sym =
    if decide (sym ∈ symbols) then Some (NewOrderBook sym) else acc !! sym.
Proof.
  revert acc. induction symbols as [|s symbols IH]; intros acc; cbn [foldl].
  - by rewrite decide_False by apply not_elem_of_nil.
  - rewrite IH. destruct (decide (sym ∈ symbols)) as [Hin|Hin].
    + by rewrite decide_True by (by right).
    + rewrite lookup_insert. destruct (decide (s = sym)) as [->|Hne].
      * by rewrite decide_True by (by left).
      * rewrite decide_False; [done|].
        intros [->|?]%elem_of_cons; done.
Qed.

(** [NewGateway] registers exactly the symbols it is given, each with an
    empty book of its own that carries the symbol: [Book] finds a book for
    a symbol if and only if the symbol is in the list, and that book has
    no bid, no ask and nothing at its top. *)
Theorem new_gateway_books m seq symbols log sym :
  let gw := NewGateway m seq symbols log in
  (is_Some (Gateway_Book sym gw) <-> sym ∈ symbols) /\
  (forall ob, Gateway_Book sym gw = Some ob ->
     symbol ob = sym /\ bids ob = [] /\ asks ob = [] /\
     BestBid (g_mem gw) ob = (f64_zero, false) /\
     BestAsk (g_mem gw) ob = (f64_zero, false) /\
     Depth (g_mem gw) ob = (0, 0)).
Proof.
  cbv zeta. unfold Gateway_Book, NewGateway. cbn [books g_mem].
  rewrite NewGateway_lookup, lookup_empty.
  destruct (decide (sym ∈ symbols)) as [Hin|Hin].
  - split; [split; [done|by eexists]|]. by intros ob [= <-].
  - split; [|done]. split; [by intros [? ?]|done].
Qed.

(** The key of every book is the symbol the book carries. *)
Definition books_named (gw : Gateway) : Prop :=
  forall s ob, books gw !! s = Some ob -> symbol ob = s.

Lemma NewGateway_named m seq symbols log :
  books_named (NewGateway m seq symbols log).
Proof.
  intros s ob. unfold NewGateway. cbn [books].
  rewrite NewGateway_lookup, lookup_empty. case_decide; [|done].
  by intros [= <-].
Qed.

Lemma OrderBook_Submit_symbol a b trades b' :
  OrderBook_Submit (Some a) b = Ok (trades, b') ->
  symbol (book b') = symbol (book b) /\
  forall t, t ∈ trades ->
    TSymbol t = symbol (book b) /\
    TTimestamp t = Timestamp (deref (mem b) a).
Proof.
  intros Hsub.
  destruct (OrderBook_Submit_inv _ _ _ _ Hsub)
    as [(sd & s1 & s' & Hsd & Hloop & Hfin & -> & ->)|(_ & _ & -> & ->)].
  2: { split; [done|]. by intros t ?%elem_of_nil. }
  destruct (loop_trades _ _ _ _ _ Hloop) as (_ & Hsym & _ & _ & _ & Htr).
  destruct (finalizeOrder_cases _ _ _ _ Hfin) as (Htr' & _ & _ & Hsym' & _).
  cbn [book m_book m_mem m_trades] in *. split; [by rewrite Hsym'|].
  intros t Ht. rewrite Htr' in Ht.
  destruct (Htr t Ht) as [?%elem_of_nil|(r & _ & _ & _ & Hs & Hts & _)]; done.
Qed.



(** Trades carry the order's symbol.  In a gateway whose books are filed
    under their own symbol (as [NewGateway] files them), every trade of an
    accepted order carries the symbol and the timestamp of that order, and
    the books are again filed under their own symbol after the call. *)
Theorem gateway_trades_symbol gw a trades gw' :
  books_named gw ->
  Gateway_Submit (Some a) gw = Ok (inl trades, gw') ->
  books_named gw' /\
  forall t, t ∈ trades ->
    TSymbol t = Symbol (deref (g_mem gw) a) /\
    TTimestamp t = Timestamp (deref (g_mem gw) a).
Proof.
  intros Hnamed. unfold Gateway_Submit.
  destruct (validateOrder (g_mem gw) (Some a)) as [err|]; [done|].
  destruct (books gw !! Symbol (deref (g_mem gw) a)) as [ob|] eqn:Hb; [|done].
  destruct (OrderBook_Submit (Some a) (mkB (g_mem gw) (g_seq gw) ob))
    as [[ts b']| |] eqn:Hsub; cbn [rbind fst snd]; [|done..].
  intros [= <- <-].
  destruct (OrderBook_Submit_symbol _ _ _ _ Hsub) as [Hsym Htr].
  cbn [book mem] in *. rewrite (Hnamed _ _ Hb) in Hsym, Htr.
  split; [|exact Htr].
  intros s ob'. cbn [books]. rewrite lookup_insert. case_decide.
  - intros [= <-]. by subst.
  - apply Hnamed.
Qed.

Lemma gateway_trades_symbol_witness :
  let buy := NewLimitOrder 1 10 "AAPL" Buy (f64 100 0) 10 in
  let sell := NewLimitOrder 2 20 "AAPL" Sell (f64 100 0) 10 in
  let gw0 := NewGateway (<[1%positive := buy]> (<[2%positive := sell]> ∅)) 0
                        ["AAPL"]%string (Some []) in
  exists gw1 t gw2,
    Gateway_Submit (Some 1%positive) gw0 = Ok (inl [], gw1) /\
    Gateway_Submit (Some 2%positive) gw1 = Ok (inl [t], gw2) /\
    TSymbol t = "AAPL"%string /\ TTimestamp t = 20%Z.
Proof.
  cbv zeta.
  set (gw0 := NewGateway
                (<[1%positive := NewLimitOrder 1 10 "AAPL" Buy (f64 100 0) 10]>
                (<[2%positive := NewLimitOrder 2 20 "AAPL" Sell (f64 100 0) 10]>
                 ∅)) 0 ["AAPL"]%string (Some [])).
  assert (books_named gw0) as H0 by apply NewGateway_named.
  destruct (Gateway_Submit (Some 1%positive) gw0)
    as [[[ts1|e] gw1]| |] eqn:E1; [|vm_compute in E1; discriminate..].
  destruct (gateway_trades_symbol gw0 1%positive ts1 gw1 H0 E1) as [H1 _].
  destruct (Gateway_Submit (Some 2%positive) gw1)
    as [[[ts2|e] gw2]| |] eqn:E2.
  2-4: exfalso; vm_compute in E1; injection E1 as <- <-;
       vm_compute in E2; discriminate.
  destruct (gateway_trades_symbol gw1 2%positive ts2 gw2 H1 E2) as [_ H2].
  assert (ts1 = []) as -> by (vm_compute in E1; by injection E1 as <- _).
  assert (exists t, ts2 = [t]) as [t ->].
  { pose proof E1 as E1'. vm_compute in E1'. injection E1' as E1'.
    pose proof E2 as E2'. rewrite <- E1' in E2'. vm_compute in E2'.
    destruct ts2 as [|t [|]]; [discriminate|by eexists|discriminate]. }
  exists gw1, t, gw2. split; [reflexivity|]. split; [exact E2|].
  destruct (H2 t) as [Hs Ht]; [by left|].
  split.
  - rewrite Hs. vm_compute in E1. injection E1 as <-. reflexivity.
  - rewrite Ht. vm_compute in E1. injection E1 as <-. reflexivity.
Defined.

(** ** What validation lets through *)

Lemma key_trichotomy a b : key_lt a b \/ key_eq a b \/ key_lt b a.
Proof.
  unfold key_lt, key_eq. destruct a as [? [? ?]], b as [? [? ?]]; simpl. lia.
Qed.

(** An order that [validateOrder] accepts has a symbol, one of the two
    sides, one of the three types and a positive quantity; if it is a LIMIT
    order and its price is a number, the price is above 0 and at most
    1,000,000. *)
Theorem validated_order_shape m a :
  validateOrder m (Some a) = None ->
  Symbol (deref m a) <> EmptyString /\
  (OSide (deref m a) = Buy \/ OSide (deref m a) = Sell) /\
  (OType (deref m a) = Limit \/ OType (deref m a) = Market \/
   OType (deref m a) = IOC) /\
  (0 < Quantity (deref m a))%Z /\
  (OType (deref m a) = Limit -> is_nan (Price (deref m a)) = false ->
   f64_gt (Price (deref m a)) f64_zero = true /\
   f64_le (Price (deref m a)) f64_1e6 = true).
Proof.
  unfold validateOrder. set (o := deref m a).
  destruct (String.eqb_spec (Symbol o) EmptyString) as [|Hsym]; [done|].
  destruct (String.eqb_spec (OSide o) Buy) as [HB|HB];
    destruct (String.eqb_spec (OSide o) Sell) as [HS|HS]; cbn [negb andb];
    try done.
  all: destruct (String.eqb_spec (OType o) Limit) as [HL|HL];
    destruct (String.eqb_spec (OType o) Market) as [HM|HM];
    destruct (String.eqb_spec (OType o) IOC) as [HI|HI]; cbn [negb andb];
    try done.
  all: destruct (Quantity o <=? 0)%Z eqn:HQ; [done|]; apply Z.leb_gt in HQ.
  all: try (intros _; split_and!; auto; intros; congruence).
  all: destruct (f64_le (Price o) f64_zero) eqn:H0; [done|].
  all: destruct (f64_gt (Price o) f64_1e6) eqn:H1; [done|].
  all: intros _; split_and!; auto; intros _ Hn.
  all: pose proof (f64_le_key (Price o) f64_zero Hn eq_refl) as K0.
  all: pose proof (f64_gt_key (Price o) f64_zero Hn eq_refl) as K0'.
  all: pose proof (f64_gt_key (Price o) f64_1e6 Hn eq_refl) as K1.
  all: pose proof (f64_le_key (Price o) f64_1e6 Hn eq_refl) as K1'.
  all: pose proof (key_trichotomy (fkey (Price o)) (fkey f64_zero)) as T0.
  all: pose proof (key_trichotomy (fkey (Price o)) (fkey f64_1e6)) as T1.
  all: split; [apply K0'|apply K1'].
  all: rewrite H0 in K0; rewrite H1 in K1.
  all: try (destruct T0 as [?|[?|?]]; [exfalso|exfalso|done];
            (assert (false = true) by (apply K0; auto)); discriminate).
  all: destruct T1 as [?|[?|?]]; [auto|auto|exfalso];
       (assert (false = true) by (by apply K1)); discriminate.
Qed.

Lemma validated_order_shape_witness :
  validateOrder (mem resting_seller) (Some 2%positive) = None /\
  f64_gt (f64 101 0) f64_zero = true /\ f64_le (f64 101 0) f64_1e6 = true.
Proof.
  assert (validateOrder (mem resting_seller) (Some 2%positive) = None) as Hv
    by (vm_compute; reflexivity).
  split; [exact Hv|].
  destruct (validated_order_shape (mem resting_seller) 2%positive Hv)
    as (_ & _ & _ & _ & H).
  exact (H eq_refl eq_refl).
Defined.

(** * The trade log *)

(** [TradeLog.Add], [TradeLog.Count] and [TradeLog.TotalVolume], whose
    total is an [int64]. *)
Definition TradeLog_Add (tl : list Trade) (t : Trade) : list Trade := tl ++ [t].

Definition TradeLog_Count (tl : list Trade) : nat := length tl.

Definition TotalVolume (tl : list Trade) : Z :=
  fold_left (fun total t => add64 total (TQuantity t)) tl 0%Z.

Lemma wrap64_add_l a b : wrap64 (wrap64 a + b) = wrap64 (a + b).
Proof.
  unfold wrap64. f_equal.
  replace ((a + 2 ^ 63) mod 2 ^ 64 - 2 ^ 63 + b + 2 ^ 63)%Z
    with ((a + 2 ^ 63) mod 2 ^ 64 + b)%Z by lia.
  rewrite Zplus_mod_idemp_l. f_equal. lia.
Qed.

Lemma fold_volume tl acc :
  fold_left (fun total t => add64 total (TQuantity t)) tl (wrap64 acc) =
    wrap64 (acc + quantities tl).
Proof.
  revert acc. induction tl as [|t tl IH]; intros acc; cbn [fold_left quantities foldr].
  - by rewrite Z.add_0_r.
  - unfold add64 at 2. rewrite wrap64_add_l, IH. f_equal.
    fold (quantities tl). lia.
Qed.

(** The volume of the log.  [TotalVolume] is the sum of the quantities
    logged, reduced to an [int64] by wrap-around, so it is the exact sum
    whenever that fits; [AddAll] adds the volumes of its two arguments the
    same way and their counts exactly, and [Add] is [AddAll] of one
    trade. *)
Theorem total_volume_sum tl ts t :
  TotalVolume tl = wrap64 (quantities tl) /\
  (in_int64 (quantities tl) -> TotalVolume tl = quantities tl) /\
  TotalVolume (AddAll tl ts) = add64 (TotalVolume tl) (TotalVolume ts) /\
  TradeLog_Count (AddAll tl ts) = TradeLog_Count tl + TradeLog_Count ts /\
  TradeLog_Add tl t = AddAll tl [t].
Proof.
  assert (forall l, TotalVolume l = wrap64 (quantities l)) as Hsum.
  { intros l. unfold TotalVolume.
    pose proof (fold_volume l 0) as H. rewrite Z.add_0_l in H. exact H. }
  split_and!.
  - apply Hsum.
  - intros H. rewrite Hsum. by apply wrap64_id.
  - rewrite (Hsum (AddAll tl ts)), (Hsum tl), (Hsum ts). unfold AddAll, add64.
    rewrite quantities_app, wrap64_add_l.
    rewrite (Z.add_comm (quantities tl) (wrap64 (quantities ts))).
    rewrite wrap64_add_l. f_equal. lia.
  - unfold TradeLog_Count, AddAll. by rewrite length_app.
  - done.
Qed.

(** * Runs of calls *)

(** Bids are buy orders and asks are sell orders. *)
Definition sided (m : gmap addr Order) (ob : OrderBook) : Prop :=
  (forall x, x ∈ bids ob -> OSide (deref m x) = Buy) /\
  (forall x, x ∈ asks ob -> OSide (deref m x) = Sell).

(** What a run of calls keeps, when the orders it builds are filled between
    nothing and their quantity. *)
Definition run_inv (b : bstate) : Prop :=
  fills_ok (mem b) /\ sided (mem b) (book b) /\
  forall x, x ∈ entries (book b) -> is_Some (mem b !! x).

Definition new_orders_sound (cs : list call) : Prop :=
  Forall (fun c => match c with
                   | CallNew _ o =>
                       (0 <= Filled o <= Quantity o)%Z /\
                       (Quantity o < 2 ^ 63)%Z
                   | _ => True
                   end) cs.

Lemma OrderBook_Submit_entries a b trades b' :
  OrderBook_Submit (Some a) b = Ok (trades, b') ->
  (forall x, x ∈ bids (book b') ->
     x ∈ bids (book b) \/ (x = a /\ OSide (deref (mem b) a) = Buy)) /\
  (forall x, x ∈ asks (book b') ->
     x ∈ asks (book b) \/ (x = a /\ OSide (deref (mem b) a) = Sell)).
Proof.
  intros Hsub.
  destruct (OrderBook_Submit_inv _ _ _ _ Hsub)
    as [(sd & s1 & s' & Hsd & Hloop & Hfin & -> & ->)|(_ & _ & -> & ->)];
    [|split; auto].
  destruct (loop_trades _ _ _ _ _ Hloop) as (_ & _ & Hown & Hopp & _).
  destruct (finalizeOrder_cases _ _ _ _ Hfin)
    as (_ & _ & Hopp' & _ & _ & _ & _ & Hcase).
  cbn [book m_book] in *.
  assert (forall x, x ∈ own sd (m_book s') ->
            x ∈ own sd (book b) \/ x = a) as Hown'.
  { intros x Hx. rewrite <- Hown.
    destruct Hcase as [[Hbk _]|(_ & _ & _ & _ & Hpush)];
      [rewrite Hbk in Hx; by left|].
    destruct (heap_Push_total (own_less sd (m_mem s')) (own sd (m_book s1)) a)
      as (h' & Hp & Hperm).
    rewrite Hp in Hpush. injection Hpush as Hpush. rewrite <- Hpush in Hx.
    rewrite Hperm in Hx. apply elem_of_cons in Hx as [->|Hx]; auto. }
  assert (forall x, x ∈ opp sd (m_book s') -> x ∈ opp sd (book b)) as Hopp''
    by (intros x Hx; apply Hopp; by rewrite <- Hopp').
  clear Hopp Hopp' Hcase Hown.
  destruct sd; cbn [own opp side_of] in *; split; intros x Hx.
  - destruct (Hown' x Hx); auto.
  - left. by apply Hopp''.
  - left. by apply Hopp''.
  - destruct (Hown' x Hx); auto.
Qed.

Lemma sided_facing m ob a :
  sided m ob -> a ∉ facing m ob a.
Proof.
  intros [Hb Ha] Hin. unfold facing in Hin.
  destruct (String.eqb_spec (OSide (deref m a)) Buy) as [E|E].
  - rewrite (Ha a Hin) in E. discriminate.
  - destruct (String.eqb_spec (OSide (deref m a)) Sell) as [E'|E'].
    + rewrite (Hb a Hin) in E'. discriminate.
    + by apply elem_of_nil in Hin.
Qed.

Lemma exec_run_inv c b b' :
  match c with
  | CallNew _ o => (0 <= Filled o <= Quantity o)%Z /\ (Quantity o < 2 ^ 63)%Z
  | _ => True
  end ->
  exec c b = Some b' -> run_inv b -> run_inv b'.
Proof.
  intros Hc He (Hok & [Hsb Hsa] & Hal). unfold run_inv, sided.
  destruct c as [a o|a|orderID]; cbn [exec] in He.
  - destruct (mem b !! a) eqn:Ha; [done|]. injection He as <-.
    cbn [mem book].
    assert (forall x, x ∈ entries (book b) ->
              deref (<[a := o]> (mem b)) x = deref (mem b) x) as Hd.
    { intros x Hx. unfold deref. rewrite lookup_insert_ne; [done|].
      intros ->. destruct (Hal x Hx) as [? ?]. congruence. }
    split; [destruct Hc; by apply fills_ok_insert|]. split; [split|].
    + intros x Hx. rewrite Hd; [auto|]. apply elem_of_app. by left.
    + intros x Hx. rewrite Hd; [auto|]. apply elem_of_app. by right.
    + intros x Hx. rewrite lookup_insert. case_decide; [by eexists|auto].
  - destruct (mem b !! a) eqn:Ha; [|done].
    destruct (OrderBook_Submit (Some a) b) as [[trades b1]| |] eqn:Hsub;
      [|done..].
    injection He as <-. cbn [snd].
    destruct (submit_fills a b trades b1 Hok
                (sided_facing _ _ _ (conj Hsb Hsa)) Hsub) as (Hok' & _).
    destruct (OrderBook_Submit_frame _ _ _ _ Hsub) as [Hf Hdom].
    destruct (OrderBook_Submit_entries _ _ _ _ Hsub) as [Hb' Ha'].
    assert (forall x, OSide (deref (mem b1) x) = OSide (deref (mem b) x)) as HS
      by (intros x; by destruct (Hf x) as (_ & _ & ? & _)).
    split; [done|]. split; [split|].
    + intros x Hx. rewrite HS. destruct (Hb' x Hx) as [?|[-> ?]]; auto.
    + intros x Hx. rewrite HS. destruct (Ha' x Hx) as [?|[-> ?]]; auto.
    + intros x Hx. apply elem_of_app in Hx as [Hx|Hx].
      * destruct (Hb' x Hx) as [?|[-> ?]].
        -- apply Hdom, Hal, elem_of_app. by left.
        -- apply Hdom. by eexists.
      * destruct (Ha' x Hx) as [?|[-> ?]].
        -- apply Hdom, Hal, elem_of_app. by right.
        -- apply Hdom. by eexists.
  - injection He as <-.
    destruct (OrderBook_Cancel_frame orderID b) as [[Hf Hdom] Hbk].
    assert (forall x, OSide (deref (mem (OrderBook_Cancel orderID b).2) x)
                      = OSide (deref (mem b) x)) as HS
      by (intros x; by destruct (Hf x) as (_ & _ & ? & _)).
    rewrite Hbk. split; [|split; [split|]].
    + destruct (OrderBook_Cancel_cases orderID b)
        as [(a & _ & _ & _ & ->)|[_ ->]]; cbn [snd mem]; [|done].
      by apply fills_ok_set_Status.
    + intros x Hx. rewrite HS. auto.
    + intros x Hx. rewrite HS. auto.
    + intros x Hx. apply Hdom. auto.
Qed.

Lemma run_run_inv cs b b' :
  new_orders_sound cs -> run cs b = Some b' -> run_inv b -> run_inv b'.
Proof.
  revert b. induction cs as [|c cs IH]; intros b Hcs Hrun Hinv;
    cbn [run] in Hrun.
  - by injection Hrun as <-.
  - apply Forall_cons in Hcs as [Hc Hcs].
    destruct (exec c b) as [b1|] eqn:He; [|done].
    apply (IH b1 Hcs Hrun). by eapply exec_run_inv.
Qed.

(** No order is ever overfilled.  Start from a new book and let the caller
    build orders filled between nothing and their quantity, submit them
    (also more than once) and cancel, in any order: in the state reached
    every order is still filled between nothing and its quantity, every
    bid is a buy order and every ask a sell order. *)
Theorem run_never_overfills cs sym seq b :
  new_orders_sound cs ->
  run cs (mkB ∅ seq (NewOrderBook sym)) = Some b ->
  (forall x, (0 <= Filled (deref (mem b) x) <= Quantity (deref (mem b) x))%Z) /\
  (forall x, x ∈ bids (book b) -> OSide (deref (mem b) x) = Buy) /\
  (forall x, x ∈ asks (book b) -> OSide (deref (mem b) x) = Sell).
Proof.
  intros Hcs Hrun.
  destruct (run_run_inv cs _ b Hcs Hrun) as (Hok & [Hb Ha] & _).
  { split; [apply fills_ok_empty|]. split; [split|];
      intros x Hx; by apply elem_of_nil in Hx. }
  split; [|done]. intros x. by destruct (fills_ok_deref _ x Hok).
Qed.

Lemma run_never_overfills_witness :
  exists b,
    run two_sided_calls (mkB ∅ 0 (NewOrderBook "AAPL")) = Some b /\
    forall x, (0 <= Filled (deref (mem b) x) <= Quantity (deref (mem b) x))%Z.
Proof.
  destruct (run two_sided_calls (mkB ∅ 0 (NewOrderBook "AAPL")))
    as [b|] eqn:E; [|vm_compute in E; discriminate].
  exists b. split; [reflexivity|].
  assert (new_orders_sound two_sided_calls) as Hcs.
  { repeat constructor; simpl; pow_norm; lia. }
  destruct (run_never_overfills two_sided_calls "AAPL" 0 b Hcs E) as [H _].
  exact H.
Defined.

(** ** [Spread] *)

(** [Spread] answers exactly when both best prices are present, with the
    best ask minus the best bid; between calls, with numeric prices, the
    best bid it subtracts is then strictly below the best ask. *)
Theorem spread_of_book b :
  reachable b -> numeric_prices (mem b) ->
  ((Spread (mem b) (book b)).2 = true <->
     (BestBid (mem b) (book b)).2 = true /\
     (BestAsk (mem b) (book b)).2 = true) /\
  ((Spread (mem b) (book b)).2 = false ->
     (Spread (mem b) (book b)).1 = f64_zero) /\
  ((Spread (mem b) (book b)).2 = true ->
     (Spread (mem b) (book b)).1 =
       SFsub 53 1024 (BestAsk (mem b) (book b)).1 (BestBid (mem b) (book b)).1
     /\ f64_lt (BestBid (mem b) (book b)).1 (BestAsk (mem b) (book b)).1
        = true).
Proof.
  intros Hr Hn.
  pose proof (reachable_book_inv b Hr Hn) as (_ & _ & _ & Hc).
  unfold Spread.
  destruct (BestBid (mem b) (book b)) as [pb hb] eqn:Eb.
  destruct (BestAsk (mem b) (book b)) as [pa ha] eqn:Ea.
  destruct hb, ha; cbn [negb orb fst snd]; split_and!; try done;
    try (split; [done|by intros [? ?]]).
  intros _. split; [done|].
  apply BestBid_present in Eb as (tb & Htb & _ & ->).
  apply BestAsk_present in Ea as (ta & Hta & _ & ->).
  apply Hc; by eapply list_elem_of_lookup_2.
Qed.

Lemma spread_of_book_witness :
  exists b,
    run two_sided_calls (mkB ∅ 0 (NewOrderBook "AAPL")) = Some b /\
    (Spread (mem b) (book b)).2 = true /\
    f64_lt (BestBid (mem b) (book b)).1 (BestAsk (mem b) (book b)).1 = true.
Proof.
  destruct (run two_sided_calls (mkB ∅ 0 (NewOrderBook "AAPL")))
    as [b|] eqn:E; [|vm_compute in E; discriminate].
  exists b.
  assert (numeric_prices (mem b)) as Hn.
  { apply (run_numeric_fwd two_sided_calls
             (mkB ∅ 0 (NewOrderBook "AAPL")) b);
      [repeat constructor|exact numeric_empty|exact E]. }
  assert (reachable b) as Hr
    by (by exists "AAPL"%string, 0%Z, two_sided_calls).
  pose proof E as E'. vm_compute in E'. injection E' as E'.
  assert ((Spread (mem b) (book b)).2 = true) as Hs
    by (rewrite <- E'; vm_compute; reflexivity).
  split; [reflexivity|]. split; [exact Hs|].
  destruct (spread_of_book b Hr Hn) as (_ & _ & H).
  exact (proj2 (H Hs)).
Defined.

(** * The price a LIMIT order accepts *)

Lemma body_step_gate sd incoming s c :
  body_step sd incoming s c ->
  m_trades (ctl_state c) = m_trades s \/
  exists t, m_trades (ctl_state c) = m_trades s ++ [t] /\
    (OType (deref (m_mem s) incoming) = Limit ->
     gate sd (Price (deref (m_mem s) incoming)) (TPrice t) = false).
Proof.
  intros [Hex|best p Htop Hrem Hact Hpop|best Htop Hrem Hact HL Hg
         |best qty trade seq' m2 m3 ob' Htop Hrem Hact Hg Hq Ht Hm2 Hcase];
    cbn [ctl_state m_trades]; [by left..|].
  right. exists trade. split; [done|]. intros HL.
  destruct (trade_of_against _ _ _ _ _ _ _ _ _ Ht) as [(-> & _) _].
  destruct Hg as [?|?]; done.
Qed.

(** A LIMIT order never trades beyond its limit: no trade of a LIMIT buy
    is priced above the order's price, and none of a LIMIT sell below it
    (the comparison that stops the loop is false of every trade). *)
Theorem limit_price_respected sd a b trades b' :
  OSide (deref (mem b) a) = side_of sd ->
  OType (deref (mem b) a) = Limit ->
  OrderBook_Submit (Some a) b = Ok (trades, b') ->
  forall t, t ∈ trades ->
    gate sd (Price (deref (mem b) a)) (TPrice t) = false /\
    match sd with
    | OnBuy => f64_gt (TPrice t) (Price (deref (mem b) a)) = false
    | OnSell => f64_lt (TPrice t) (Price (deref (mem b) a)) = false
    end.
Proof.
  intros Hsd Hty Hsub.
  assert (forall t, t ∈ trades ->
            gate sd (Price (deref (mem b) a)) (TPrice t) = false) as H.
  2: { intros t Ht. split; [by apply H|]. specialize (H t Ht).
       by destruct sd. }
  destruct (OrderBook_Submit_inv _ _ _ _ Hsub)
    as [(sd' & s1 & s' & Hsd' & Hloop & Hfin & -> & ->)|(H1 & H2 & _)].
  2: { rewrite Hsd in H1, H2. by destruct sd. }
  rewrite Hsd in Hsd'. apply side_of_inj in Hsd' as <-.
  destruct (finalizeOrder_cases _ _ _ _ Hfin) as (-> & _).
  set (s0 := mkM (mem b) (globalTradeSeq b) (book b) []) in *.
  assert (frame (m_mem s0) (m_mem s1) /\
          forall t, t ∈ m_trades s1 ->
            gate sd (Price (deref (mem b) a)) (TPrice t) = false) as [_ Hall].
  { revert Hloop. apply (loop_inv (match_body sd a)
      (fun s => frame (m_mem s0) (m_mem s) /\
                forall t, t ∈ m_trades s ->
                  gate sd (Price (deref (mem b) a)) (TPrice t) = false)).
    - intros s c [Hf Hs] Hc. apply match_body_step in Hc.
      destruct (body_step_frame _ _ _ _ Hc) as (Hf' & _).
      split; [by eapply frame_trans|].
      destruct Hf as [Hf _]. destruct (Hf a) as (_ & _ & _ & HT & HP & _).
      cbn [m_mem s0] in HT, HP.
      destruct (body_step_gate _ _ _ _ Hc) as [->|(t & -> & Hg)]; [done|].
      intros t' [Ht'|Ht']%elem_of_app; [by apply Hs|].
      apply list_elem_of_singleton in Ht' as ->.
      rewrite <- HP. apply Hg. by rewrite HT.
    - split; [apply frame_refl|]. by intros t ?%elem_of_nil. }
  exact Hall.
Qed.

Lemma limit_price_respected_witness :
  exists t b',
    OrderBook_Submit (Some 2%positive) resting_seller = Ok ([t], b') /\
    TPrice t = f64 100 0 /\
    f64_gt (TPrice t) (f64 101 0) = false.
Proof.
  destruct (OrderBook_Submit (Some 2%positive) resting_seller)
    as [[trades b']| |] eqn:E; [|vm_compute in E; discriminate..].
  pose proof (limit_price_respected OnBuy 2%positive resting_seller trades b'
                eq_refl eq_refl E) as H.
  pose proof E as E'. vm_compute in E'.
  destruct trades as [|t [|]]; [discriminate| |discriminate].
  exists t, b'. split; [reflexivity|].
  split; [injection E' as Et _; rewrite <- Et; vm_compute; reflexivity|].
  destruct (H t) as [_ Hp]; [by left|]. exact Hp.
Defined.

(** * Resting orders after a [Submit] *)

(** The status of a resting order follows its fill. *)
Definition settled (m0 m : gmap addr Order) (ob0 : list addr) (x : addr)
  : Prop :=
  m !! x = m0 !! x \/
  (x ∈ ob0 /\ IsActive (deref m0 x) = true /\
   ((Status (deref m x) = StatusFilled /\
     Filled (deref m x) = Quantity (deref m x)) \/
    (Status (deref m x) = StatusPartial /\
     (Filled (deref m x) < Quantity (deref m x))%Z))).

Lemma body_step_settled sd incoming s c x :
  fills_ok (m_mem s) -> incoming ∉ opp sd (m_book s) -> x <> incoming ->
  body_step sd incoming s c ->
  m_mem (ctl_state c) !! x = m_mem s !! x \/
  (x ∈ opp sd (m_book s) /\ IsActive (deref (m_mem s) x) = true /\
   ((Status (deref (m_mem (ctl_state c)) x) = StatusFilled /\
     Filled (deref (m_mem (ctl_state c)) x) =
       Quantity (deref (m_mem (ctl_state c)) x)) \/
    (Status (deref (m_mem (ctl_state c)) x) = StatusPartial /\
     (Filled (deref (m_mem (ctl_state c)) x) <
        Quantity (deref (m_mem (ctl_state c)) x))%Z))).
Proof.
  intros Hok Hnot Hx Hc.
  destruct (decide (x ∈ opp sd (m_book s))) as [Hin|Hin].
  2: { left. by apply (body_step_touch sd incoming). }
  destruct (body_step_fills _ _ _ _ Hok Hnot Hc) as (Hok' & _).
  destruct Hc as [Hex|best p Htop Hrem Hact Hpop|best Htop Hrem Hact HL Hg
         |best qty trade seq' m2 m3 ob' Htop Hrem Hact Hg Hq Ht Hm2 Hcase];
    cbn [ctl_state m_mem] in *; [by left..|].
  destruct (decide (x = best)) as [->|Hne].
  2: { left.
       assert (m3 !! x = m2 !! x) as ->.
       { destruct Hcase as [(_ & -> & _)|(_ & -> & _)];
           by apply lookup_update_ne. }
       subst m2. rewrite !lookup_update_ne by done. done. }
  right. split; [done|]. split; [done|].
  destruct (fills_ok_deref _ best Hok') as [[_ Hle] _].
  destruct Hcase as [(Hf & -> & _)|(Hf & -> & _)];
    rewrite deref_update_eq in *; unfold IsFilled in Hf; cbn in Hle |- *.
  - left. apply Z.leb_le in Hf. split; [done|lia].
  - right. apply Z.leb_gt in Hf. split; [done|lia].
Qed.

(** What a [Submit] does to the other orders.  With every order filled
    between nothing and its quantity, an order other than the incoming one
    is either left exactly as it was, or it was an active entry of the
    side the incoming order was matched against and is now FILLED and
    filled to its quantity, or PARTIAL and short of it. *)
Theorem submit_settles_resting sd a b trades b' x :
  fills_ok (mem b) -> a ∉ opp sd (book b) ->
  OSide (deref (mem b) a) = side_of sd ->
  OrderBook_Submit (Some a) b = Ok (trades, b') ->
  x <> a ->
  settled (mem b) (mem b') (opp sd (book b)) x.
Proof.
  intros Hok Hnot Hsd Hsub Hx.
  destruct (OrderBook_Submit_inv _ _ _ _ Hsub)
    as [(sd' & s1 & s' & Hsd' & Hloop & Hfin & -> & ->)|(H1 & H2 & _)].
  2: { rewrite Hsd in H1, H2. by destruct sd. }
  rewrite Hsd in Hsd'. apply side_of_inj in Hsd' as <-.
  set (s0 := mkM (mem b) (globalTradeSeq b) (book b) []) in *.
  cbn [mem]. unfold settled.
  rewrite (finalizeOrder_touch _ _ _ _ x Hfin Hx).
  assert (deref (m_mem s') x = deref (m_mem s1) x) as ->
    by (unfold deref; by rewrite (finalizeOrder_touch _ _ _ _ x Hfin Hx)).
  revert Hloop. apply (loop_inv (match_body sd a)
    (fun s => (fills_ok (m_mem s) /\ (a ∉ opp sd (m_book s)) /\
               (forall y, y ∈ opp sd (m_book s) -> y ∈ opp sd (book b)) /\
               (forall y, IsActive (deref (m_mem s) y) = true ->
                          IsActive (deref (mem b) y) = true)) /\
              settled (mem b) (m_mem s) (opp sd (book b)) x)).
  - intros s c [(Hok' & Hnot' & Hsub' & Hact') Hs] Hc.
    apply match_body_step in Hc.
    destruct (body_step_fills _ _ _ _ Hok' Hnot' Hc) as (Hok'' & _).
    destruct (body_step_frame _ _ _ _ Hc) as (_ & _ & _ & Hsh & _).
    split.
    { split_and!; [done| |auto|].
      - intros Hin. by apply Hnot', Hsh.
      - intros y Hy. apply Hact'. by eapply body_step_active. }
    destruct (body_step_settled _ _ _ _ x Hok' Hnot' Hx Hc)
      as [He|(Hin & Hact & Hst)].
    + destruct Hs as [Hs|(? & ? & Hs)].
      * left. by rewrite He.
      * right. split; [done|]. split; [done|].
        assert (deref (m_mem (ctl_state c)) x = deref (m_mem s) x) as ->
          by (unfold deref; by rewrite He).
        done.
    + right. split; [auto|]. split; [auto|]. done.
  - split; [|by left]. split_and!; done.
Qed.

Lemma submit_settles_resting_witness :
  exists trades b',
    OrderBook_Submit (Some 2%positive) resting_seller = Ok (trades, b') /\
    Status (deref (mem b') 1%positive) = StatusPartial /\
    (Filled (deref (mem b') 1%positive) <
       Quantity (deref (mem b') 1%positive))%Z.
Proof.
  destruct (OrderBook_Submit (Some 2%positive) resting_seller)
    as [[trades b']| |] eqn:E; [|vm_compute in E; discriminate..].
  exists trades, b'. split; [reflexivity|].
  assert (2%positive ∉ opp OnBuy (book resting_seller)) as Hnot
    by (by intros ?%list_elem_of_singleton).
  destruct (submit_settles_resting OnBuy 2%positive resting_seller trades b'
              1%positive resting_seller_fills_ok Hnot eq_refl E ltac:(done))
    as [Hsame|(_ & _ & [[Hst _]|Hst])].
  - exfalso. vm_compute in E. injection E as <- <-. vm_compute in Hsame.
    discriminate Hsame.
  - exfalso. vm_compute in E. injection E as <- <-. discriminate Hst.
  - exact Hst.
Defined.

(** * Trades have a quantity *)

(** Active entries of the book have something left to fill. *)
Definition live (m : gmap addr Order) (h : list addr) : Prop :=
  forall x, x ∈ h -> IsActive (deref m x) = true ->
    (Filled (deref m x) < Quantity (deref m x))%Z.

Lemma body_step_live sd incoming s c :
  fills_ok (m_mem s) -> incoming ∉ opp sd (m_book s) ->
  live (m_mem s) (opp sd (m_book s)) ->
  body_step sd incoming s c ->
  live (m_mem (ctl_state c)) (opp sd (m_book (ctl_state c))) /\
  (m_trades (ctl_state c) = m_trades s \/
   exists t, m_trades (ctl_state c) = m_trades s ++ [t] /\
             (0 < TQuantity t)%Z).
Proof.
  intros Hok Hnot Hlive Hc.
  destruct (body_step_frame _ _ _ _ Hc) as (_ & _ & _ & Hsh & _).
  destruct Hc as [Hex|best p Htop Hrem Hact Hpop|best Htop Hrem Hact HL Hg
         |best qty trade seq' m2 m3 ob' Htop Hrem Hact Hg Hq Ht Hm2 Hcase];
    cbn [ctl_state m_mem m_book m_trades] in *.
  1-3: split; [|by left]; intros x Hx; apply Hlive; auto.
  assert (best ∈ opp sd (m_book s)) as Hbin by (by eapply list_elem_of_lookup_2).
  assert (incoming <> best) as Hne by (by intros ->).
  pose proof (Hlive best Hbin Hact) as Hbl.
  destruct (fills_ok_deref _ incoming Hok) as [Hi1 Hi2].
  destruct (fills_ok_deref _ best Hok) as [Hb1 Hb2].
  rewrite (fills_ok_Remaining _ incoming Hok) in Hq, Hrem.
  rewrite (fills_ok_Remaining _ best Hok) in Hq.
  rewrite min64_spec in Hq.
  destruct (trade_of_against _ _ _ _ _ _ _ _ _ Ht) as [_ Hqty].
  split.
  2: { right. exists trade. split; [done|]. lia. }
  intros x Hx Hax. apply Hsh in Hx.
  destruct (decide (x = best)) as [->|Hxb].
  - destruct Hcase as [(_ & -> & _)|(Hf & -> & _)];
      rewrite deref_update_eq in *; [done|].
    unfold IsFilled in Hf. apply Z.leb_gt in Hf. exact Hf.
  - assert (x <> incoming) as Hxi by (by intros ->).
    assert (deref m3 x = deref (m_mem s) x) as Hd.
    { assert (deref m3 x = deref m2 x) as ->.
      { destruct Hcase as [(_ & -> & _)|(_ & -> & _)];
          by apply deref_update_ne. }
      subst m2. by rewrite !deref_update_ne by done. }
    rewrite Hd in *. by apply Hlive.
Qed.

Lemma loop_live sd incoming fuel s0 s1 :
  fills_ok (m_mem s0) -> incoming ∉ opp sd (m_book s0) ->
  live (m_mem s0) (opp sd (m_book s0)) ->
  loop (match_body sd incoming) fuel s0 = Ok s1 ->
  live (m_mem s1) (opp sd (m_book s1)) /\
  exists ts, m_trades s1 = m_trades s0 ++ ts /\
             Forall (fun t => (0 < TQuantity t)%Z) ts.
Proof.
  intros Hok Hnot Hlive.
  apply (loop_inv (match_body sd incoming)
    (fun s => (fills_ok (m_mem s) /\ (incoming ∉ opp sd (m_book s))) /\
              live (m_mem s) (opp sd (m_book s)) /\
              exists ts, m_trades s = m_trades s0 ++ ts /\
                         Forall (fun t => (0 < TQuantity t)%Z) ts)).
  - intros s c [[Hok' Hnot'] [Hl (ts & Hts & Hpos)]] Hc.
    apply match_body_step in Hc.
    destruct (body_step_fills _ _ _ _ Hok' Hnot' Hc) as (Hok'' & _).
    destruct (body_step_frame _ _ _ _ Hc) as (_ & _ & _ & Hsh & _).
    destruct (body_step_live _ _ _ _ Hok' Hnot' Hl Hc) as [Hl' Ht].
    split; [split; [done|intros Hin; by apply Hnot', Hsh]|].
    split; [done|].
    destruct Ht as [->|(t & -> & Hq)]; [by exists ts|].
    exists (ts ++ [t]). rewrite Hts, app_assoc. split; [done|].
    apply Forall_app. split; [done|]. by constructor.
  - split; [done|]. split; [done|]. exists []. by rewrite app_nil_r.
Qed.

Lemma submit_live a b trades b' :
  run_inv b -> live (mem b) (entries (book b)) ->
  OrderBook_Submit (Some a) b = Ok (trades, b') ->
  live (mem b') (entries (book b')) /\
  Forall (fun t => (0 < TQuantity t)%Z) trades.
Proof.
  intros (Hok & [Hsb Hsa] & _) Hlive Hsub.
  destruct (OrderBook_Submit_inv _ _ _ _ Hsub)
    as [(sd & s1 & s' & Hsd & Hloop & Hfin & -> & ->)|(_ & _ & -> & ->)];
    [|by split].
  set (s0 := mkM (mem b) (globalTradeSeq b) (book b) []) in *.
  assert (forall x, x ∈ own sd (book b) -> x ∉ opp sd (book b)) as Hdis.
  { intros x Hx Hx'. destruct sd; cbn [own opp] in *.
    - pose proof (Hsb x Hx) as E. rewrite (Hsa x Hx') in E. discriminate.
    - pose proof (Hsa x Hx) as E. rewrite (Hsb x Hx') in E. discriminate. }
  assert (a ∉ opp sd (book b)) as Hnot.
  { intros Hin. destruct sd; cbn [opp side_of] in *.
    - rewrite (Hsa a Hin) in Hsd. discriminate.
    - rewrite (Hsb a Hin) in Hsd. discriminate. }
  assert (forall x, x ∈ entries (book b) <->
            x ∈ own sd (book b) \/ x ∈ opp sd (book b)) as Hent.
  { intros x. unfold entries. rewrite elem_of_app. destruct sd; cbn; tauto. }
  assert (forall x, x ∈ entries (m_book s') <->
            x ∈ own sd (m_book s') \/ x ∈ opp sd (m_book s')) as Hent'.
  { intros x. unfold entries. rewrite elem_of_app. destruct sd; cbn; tauto. }
  assert (live (mem b) (opp sd (book b))) as Hlo.
  { intros x Hx. apply Hlive, Hent. by right. }
  destruct (loop_live sd a _ s0 s1 Hok Hnot Hlo Hloop)
    as (Hl1 & ts & Hts & Hpos).
  destruct (loop_fills sd a _ s0 s1 Hok Hnot Hloop) as (Hok1 & Hnot1 & _).
  destruct (loop_trades _ _ _ _ _ Hloop) as (_ & _ & Hown & Hopp & _).
  destruct (loop_touch _ _ _ _ _ Hloop) as (_ & Hsame & _).
  destruct (finalizeOrder_cases _ _ _ _ Hfin)
    as (Htr & _ & Hopp' & _ & _ & _ & _ & Hcase).
  cbn [mem book m_mem m_book m_trades s0] in *.
  split; [|rewrite Htr, Hts; exact Hpos].
  assert (forall x, x ∈ own sd (m_book s') ->
            x ∈ own sd (book b) \/ x = a) as Hown'.
  { intros x Hx. rewrite <- Hown.
    destruct Hcase as [[Hbk _]|(_ & _ & _ & _ & Hpush)];
      [rewrite Hbk in Hx; by left|].
    destruct (heap_Push_total (own_less sd (m_mem s')) (own sd (m_book s1)) a)
      as (h' & Hp & Hperm).
    rewrite Hp in Hpush. injection Hpush as Hpush. rewrite <- Hpush in Hx.
    rewrite Hperm in Hx. apply elem_of_cons in Hx as [->|Hx]; auto. }
  assert (forall x, x <> a -> deref (m_mem s') x = deref (m_mem s1) x) as Hfd.
  { intros x Hx. unfold deref.
    by rewrite (finalizeOrder_touch _ _ _ _ x Hfin Hx). }
  assert (IsActive (deref (m_mem s') a) = true ->
          (Filled (deref (m_mem s') a) < Quantity (deref (m_mem s') a))%Z)
    as Ha.
  { destruct (finalizeOrder_sound _ _ _ _ Hok1 Hfin)
      as [(_ & _ & _ & ->)
         |(Hlt & [(_ & _ & ->)|[(_ & -> & _)|(_ & _ & _ & ->)]])];
      cbn [m_mem]; rewrite ?deref_update_eq; try done.
    destruct (0 <? Filled (deref (m_mem s1) a))%Z;
      rewrite ?deref_update_eq; done. }
  intros x Hx Hax. apply Hent' in Hx.
  destruct (decide (x = a)) as [->|Hxa]; [by apply Ha|].
  rewrite (Hfd x Hxa) in *.
  destruct Hx as [Hx|Hx].
  - destruct (Hown' x Hx) as [Hxo|?]; [|done].
    assert (deref (m_mem s1) x = deref (mem b) x) as Hd.
    { unfold deref. rewrite (Hsame x Hxa); [done|]. by apply Hdis. }
    rewrite Hd in *. apply Hlive; [|done]. apply Hent. by left.
  - rewrite Hopp' in Hx. by apply Hl1.
Qed.

Lemma exec_live c b b' :
  match c with
  | CallNew _ o => (0 <= Filled o <= Quantity o)%Z /\ (Quantity o < 2 ^ 63)%Z
  | _ => True
  end ->
  exec c b = Some b' -> run_inv b -> live (mem b) (entries (book b)) ->
  live (mem b') (entries (book b')).
Proof.
  intros Hc He Hinv Hlive. pose proof Hinv as (_ & _ & Hal).
  destruct c as [a o|a|orderID]; cbn [exec] in He.
  - destruct (mem b !! a) eqn:Ha; [done|]. injection He as <-.
    cbn [mem book]. intros x Hx.
    assert (deref (<[a := o]> (mem b)) x = deref (mem b) x) as ->.
    { unfold deref. rewrite lookup_insert_ne; [done|].
      intros ->. destruct (Hal x Hx) as [? ?]. congruence. }
    by apply Hlive.
  - destruct (mem b !! a) eqn:Ha; [|done].
    destruct (OrderBook_Submit (Some a) b) as [[trades b1]| |] eqn:Hsub;
      [|done..].
    injection He as <-. cbn [snd].
    by destruct (submit_live a b trades b1 Hinv Hlive Hsub).
  - injection He as <-.
    destruct (OrderBook_Cancel_cases orderID b)
      as [(a & _ & _ & _ & ->)|[_ ->]]; cbn [snd mem book]; [|done].
    intros x Hx. rewrite deref_update. case_decide; [by subst|].
    by apply Hlive.
Qed.

Lemma run_live cs b b' :
  new_orders_sound cs -> run cs b = Some b' ->
  run_inv b -> live (mem b) (entries (book b)) ->
  run_inv b' /\ live (mem b') (entries (book b')).
Proof.
  revert b. induction cs as [|c cs IH]; intros b Hcs Hrun Hinv Hlive;
    cbn [run] in Hrun.
  - by injection Hrun as <-.
  - apply Forall_cons in Hcs as [Hc Hcs].
    destruct (exec c b) as [b1|] eqn:He; [|done].
    apply (IH b1 Hcs Hrun).
    + by eapply exec_run_inv.
    + by eapply exec_live.
Qed.

(** No empty trades.  Start from a new book and let the caller build
    orders filled between nothing and their quantity, submit and cancel in
    any order: every trade of a further [Submit] has a strictly positive
    quantity. *)
Theorem trades_are_positive cs sym seq b a trades b' :
  new_orders_sound cs ->
  run cs (mkB ∅ seq (NewOrderBook sym)) = Some b ->
  OrderBook_Submit (Some a) b = Ok (trades, b') ->
  forall t, t ∈ trades -> (0 < TQuantity t)%Z.
Proof.
  intros Hcs Hrun Hsub.
  destruct (run_live cs _ b Hcs Hrun) as [Hinv Hlive].
  { split; [apply fills_ok_empty|]. split; [split|];
      intros x Hx; by apply elem_of_nil in Hx. }
  { intros x Hx. by apply elem_of_nil in Hx. }
  destruct (submit_live a b trades b' Hinv Hlive Hsub) as [_ Hpos].
  intros t Ht. by apply (proj1 (Forall_forall _ _) Hpos).
Qed.

(** Two sellers rest and a buyer has been built. *)
Definition sweep_calls : list call :=
  [CallNew 1%positive (NewLimitOrder 1 1000 "AAPL" Sell (f64 100 0) 10);
   CallNew 2%positive (NewLimitOrder 2 2000 "AAPL" Sell (f64 101 0) 10);
   CallNew 3%positive (NewLimitOrder 3 3000 "AAPL" Buy (f64 101 0) 15);
   CallSubmit 1%positive; CallSubmit 2%positive].

Lemma trades_are_positive_witness :
  exists b t1 t2 b',
    run sweep_calls (mkB ∅ 0 (NewOrderBook "AAPL")) = Some b /\
    OrderBook_Submit (Some 3%positive) b = Ok ([t1; t2], b') /\
    (0 < TQuantity t1)%Z /\ (0 < TQuantity t2)%Z.
Proof.
  destruct (run sweep_calls (mkB ∅ 0 (NewOrderBook "AAPL")))
    as [b|] eqn:E; [|vm_compute in E; discriminate].
  destruct (OrderBook_Submit (Some 3%positive) b) as [[trades b']| |] eqn:E2.
  2-3: exfalso; vm_compute in E; injection E as <-;
       vm_compute in E2; discriminate.
  assert (new_orders_sound sweep_calls) as Hcs.
  { repeat constructor; simpl; pow_norm; lia. }
  pose proof (trades_are_positive sweep_calls "AAPL" 0 b 3%positive trades b'
                Hcs E E2) as H.
  assert (exists t1 t2, trades = [t1; t2]) as (t1 & t2 & ->).
  { pose proof E as E'. vm_compute in E'. injection E' as E'.
    pose proof E2 as E2'. rewrite <- E' in E2'. vm_compute in E2'.
    destruct trades as [|t1 [|t2 [|]]]; try discriminate. by eexists _, _. }
  exists b, t1, t2, b'. split; [reflexivity|]. split; [exact E2|].
  split; apply H; [by left|by right; left].
Defined.
